(** * fprettify: scope/indent tracker, continuation aligner, token formatter
      and reformat pipeline of [fprettify/__init__.py], embedded in Rocq.

    Python text is modelled as [list ascii] (ASCII text; bytes above 127 are
    neither word nor space characters), Python integers as [Z], positions
    inside a line as [nat].  Python lists keep their order: the top of a
    stack is the last element. *)

From Stdlib Require Import Ascii String ZArith Bool Lia Arith List Sorted.
Import ListNotations.

Local Open Scope Z_scope.

(* ================================================================= *)
(** ** Python strings *)

Definition str := list ascii.

Definition s_ (x : string) : str := list_ascii_of_string x.

Definition ch_eqb (a b : ascii) : bool := Ascii.eqb a b.

Fixpoint str_eqb (a b : str) : bool :=
  match a, b with
  | [], [] => true
  | x :: a', y :: b' => ch_eqb x y && str_eqb a' b'
  | _, _ => false
  end.

Definition len (s : str) : Z := Z.of_nat (length s).

Definition code (c : ascii) : nat := nat_of_ascii c.

Definition in_range (lo hi : nat) (c : ascii) : bool :=
  (Nat.leb lo (code c) && Nat.leb (code c) hi)%bool.

(** [str.isspace] on ASCII: TAB..CR, FS..US and the blank. *)
Definition is_space (c : ascii) : bool :=
  (in_range 9 13 c || in_range 28 32 c)%bool.

Definition is_digit (c : ascii) : bool := in_range 48 57 c.

Definition is_upper (c : ascii) : bool := in_range 65 90 c.

Definition is_lower (c : ascii) : bool := in_range 97 122 c.

(** [\w] on ASCII. *)
Definition is_word (c : ascii) : bool :=
  (is_digit c || is_upper c || is_lower c || ch_eqb c "_")%bool.

Definition lower (c : ascii) : ascii :=
  if is_upper c then ascii_of_nat (code c + 32) else c.

Definition blank : ascii := " ".

Definition nl : ascii := "010".

Definition is_blank (c : ascii) : bool := ch_eqb c blank.

(** [s.lstrip(chars)], [s.rstrip(chars)], [s.strip(chars)] for a set of
    characters given as a predicate. *)
Fixpoint lstrip_by (p : ascii -> bool) (s : str) : str :=
  match s with
  | [] => []
  | c :: s' => if p c then lstrip_by p s' else s
  end.

Definition rstrip_by (p : ascii -> bool) (s : str) : str :=
  rev (lstrip_by p (rev s)).

Definition strip_by (p : ascii -> bool) (s : str) : str :=
  rstrip_by p (lstrip_by p s).

Definition lstrip := lstrip_by is_space.
Definition rstrip := rstrip_by is_space.
Definition strip := strip_by is_space.

Fixpoint startswith (s p : str) : bool :=
  match p, s with
  | [], _ => true
  | x :: p', y :: s' => ch_eqb x y && startswith s' p'
  | _ :: _, [] => false
  end.

Definition endswith (s p : str) : bool := startswith (rev s) (rev p).

(** [s[lo:hi]] with Python's treatment of negative and oversized bounds. *)
Definition norm_index (n i : Z) : Z :=
  if i <? 0 then Z.max 0 (i + n) else Z.min i n.

Definition slice (s : str) (lo hi : Z) : str :=
  let a := norm_index (len s) lo in
  let b := norm_index (len s) hi in
  firstn (Z.to_nat (b - a)) (skipn (Z.to_nat a) s).

(** [s[lo:]] and [s[:hi]] for positions that are never negative. *)
Definition from (s : str) (lo : nat) : str := skipn lo s.
Definition upto (s : str) (hi : nat) : str := firstn hi s.
Definition sub (s : str) (lo hi : nat) : str := firstn (hi - lo) (skipn lo s).

(** [c * n]: the empty string when [n] is not positive. *)
Definition times (c : str) (n : Z) : str :=
  concat (repeat c (Z.to_nat n)).

Definition spaces (n : Z) : str := times [blank] n.

(** [sep.join(parts)] *)
Fixpoint join (sep : str) (parts : list str) : str :=
  match parts with
  | [] => []
  | [p] => p
  | p :: rest => p ++ sep ++ join sep rest
  end.

(* ================================================================= *)
(** ** Outcomes: a value or a raised exception *)

Inductive exn : Type :=
| fprettifyParseException (msg : string)
| fprettifyInternalException (msg : string)
| NotImplementedError (msg : string)
| IndexError.

Inductive outcome (A : Type) : Type :=
| Ok (a : A)
| Raise (e : exn).

Arguments Ok {A} a.
Arguments Raise {A} e.

(** [l[i]] for a position [i >= 0]. *)
Definition index {A} (l : list A) (i : nat) : outcome A :=
  match nth_error l i with
  | Some a => Ok a
  | None => Raise IndexError
  end.

(** [l[-1]] and [l[-2]]. *)
Definition index_m1 {A} (l : list A) : outcome A :=
  match rev l with
  | a :: _ => Ok a
  | [] => Raise IndexError
  end.

Definition index_m2 {A} (l : list A) : outcome A :=
  match rev l with
  | _ :: a :: _ => Ok a
  | _ => Raise IndexError
  end.

(** [l[-1] = v] *)
Definition set_m1 {A} (l : list A) (v : A) : outcome (list A) :=
  match rev l with
  | _ :: r => Ok (rev r ++ [v])
  | [] => Raise IndexError
  end.

(** The logger: every record carries its level and message. *)
Inductive level : Type := DEBUG | INFO | WARNING.

Definition record : Type := (level * string)%type.

(* ================================================================= *)
(** ** Regular expressions, as Python's [re] runs them

    A backtracking matcher: alternatives are tried in order, repetition is
    greedy, and the continuation decides whether a way of matching is
    accepted.  The source only repeats one-character classes, so [Star]
    takes a class. *)

Module Re.

Inductive regex : Type :=
| Eps
| Chr (p : ascii -> bool)
| Seq (r1 r2 : regex)
| Alt (r1 r2 : regex)
| Star (p : ascii -> bool)
| Grp (g : nat) (r : regex)
| Bol
| Eol
| Wordb
| Ahead (positive : bool) (r : regex)
| Behind (positive : bool) (r : regex).

Definition caps : Type := list (nat * (nat * nat)).

(** Number of consecutive characters of [s] satisfying [p]. *)
Fixpoint run (p : ascii -> bool) (s : str) : nat :=
  match s with
  | c :: s' => if p c then S (run p s') else 0%nat
  | [] => 0%nat
  end.

(** Greedy: the longest repetition first. *)
Fixpoint longest_first {A} (n : nat) (k : nat -> option A) : option A :=
  match k n with
  | Some a => Some a
  | None => match n with
            | O => None
            | S m => longest_first m k
            end
  end.

Definition word_at (s : str) (i : nat) : bool :=
  match nth_error s i with
  | Some c => is_word c
  | None => false
  end.

Definition at_boundary (s : str) (i : nat) : bool :=
  negb (Bool.eqb (match i with O => false | S j => word_at s j end)
                 (word_at s i)).

Definition at_end (s : str) (i : nat) : bool :=
  (Nat.eqb i (length s)
   || (Nat.eqb (S i) (length s)
       && match nth_error s i with Some c => ch_eqb c nl | None => false end))%bool.

Fixpoint exec (A : Type) (r : regex) (s : str) (i : nat) (c : caps)
         (k : nat -> caps -> option A) {struct r} : option A :=
  match r with
  | Eps => k i c
  | Chr p =>
      match nth_error s i with
      | Some a => if p a then k (S i) c else None
      | None => None
      end
  | Seq r1 r2 => exec A r1 s i c (fun j c' => exec A r2 s j c' k)
  | Alt r1 r2 =>
      match exec A r1 s i c k with
      | Some a => Some a
      | None => exec A r2 s i c k
      end
  | Star p => longest_first (run p (skipn i s)) (fun n => k (i + n)%nat c)
  | Grp g r1 => exec A r1 s i c (fun j c' => k j ((g, (i, j)) :: c'))
  | Bol => if Nat.eqb i 0 then k i c else None
  | Eol => if at_end s i then k i c else None
  | Wordb => if at_boundary s i then k i c else None
  | Ahead positive r1 =>
      match exec unit r1 s i c (fun _ _ => Some tt) with
      | Some _ => if positive then k i c else None
      | None => if positive then None else k i c
      end
  | Behind positive r1 =>
      let found :=
        existsb (fun j =>
                   match exec unit r1 s j c
                           (fun e _ => if Nat.eqb e i then Some tt else None)
                   with Some _ => true | None => false end)
                (seq 0 (S i)) in
      if Bool.eqb found positive then k i c else None
  end.

(** A match: where it starts, where it ends, and its groups. *)
Record mtch : Type := { m_start : nat; m_end : nat; m_caps : caps }.

Definition match_at (r : regex) (s : str) (i : nat) : option mtch :=
  exec mtch r s i [] (fun j c => Some {| m_start := i; m_end := j; m_caps := c |}).

Fixpoint first_some {A B} (f : A -> option B) (l : list A) : option B :=
  match l with
  | [] => None
  | a :: l' => match f a with Some b => Some b | None => first_some f l' end
  end.

(** [pattern.search(s, pos)] *)
Definition search_from (r : regex) (s : str) (pos : nat) : option mtch :=
  first_some (match_at r s) (seq pos (S (length s) - pos)).

(** [pattern.search(s)] and [pattern.match(s)] *)
Definition search_m (r : regex) (s : str) : option mtch := search_from r s 0.
Definition match_m (r : regex) (s : str) : option mtch := match_at r s 0.

Definition is_some {A} (o : option A) : bool :=
  match o with Some _ => true | None => false end.

Definition search (r : regex) (s : str) : bool := is_some (search_m r s).
Definition matches (r : regex) (s : str) : bool := is_some (match_m r s).

Fixpoint assoc (g : nat) (c : caps) : option (nat * nat) :=
  match c with
  | [] => None
  | (h, v) :: c' => if Nat.eqb g h then Some v else assoc g c'
  end.

(** [m.group()] and [m.group(g)] (the empty string stands for an unset
    group, which no caller of this file meets). *)
Definition group0 (s : str) (m : mtch) : str := sub s (m_start m) (m_end m).

Definition group (s : str) (m : mtch) (g : nat) : str :=
  match assoc g (m_caps m) with
  | Some (a, b) => sub s a b
  | None => []
  end.

(** [pattern.split(s)] for a pattern with exactly one group that never
    matches the empty string: the text between matches, interleaved with
    the group's text. *)
Fixpoint split_loop (fuel : nat) (r : regex) (s : str) (last : nat) : list str :=
  match fuel with
  | O => [from s last]
  | S fuel' =>
      match search_from r s last with
      | Some m =>
          sub s last (m_start m) :: group s m 1
            :: split_loop fuel' r s (Nat.max (m_end m) (S last))
      | None => [from s last]
      end
  end.

Definition split (r : regex) (s : str) : list str :=
  split_loop (length s) r s 0.

(** [re.sub(pattern, repl, s, count)] for a literal replacement and a
    pattern that never matches the empty string; [count = 0] replaces all. *)
Fixpoint sub_loop (fuel : nat) (r : regex) (repl s : str) (last : nat)
         (count : nat) (unlimited : bool) : str :=
  match fuel with
  | O => from s last
  | S fuel' =>
      if (negb unlimited && Nat.eqb count 0)%bool then from s last
      else
        match search_from r s last with
        | Some m =>
            sub s last (m_start m) ++ repl
              ++ sub_loop fuel' r repl s (Nat.max (m_end m) (S last))
                          (count - 1) unlimited
        | None => from s last
        end
  end.

Definition subst (r : regex) (repl s : str) (count : nat) : str :=
  sub_loop (length s) r repl s 0 count (Nat.eqb count 0).

(** *** Pattern syntax *)

Definition any_char (c : ascii) : bool := negb (ch_eqb c nl).
Definition one_of (cs : string) (c : ascii) : bool :=
  existsb (ch_eqb c) (list_ascii_of_string cs).
Definition none_of (cs : string) (c : ascii) : bool := negb (one_of cs c).
Definition either (p q : ascii -> bool) (c : ascii) : bool := (p c || q c)%bool.
Definition neither (p q : ascii -> bool) (c : ascii) : bool := negb (p c || q c)%bool.

(** A literal under [re.IGNORECASE], and a case-sensitive one. *)
Definition ic (a : ascii) : regex := Chr (fun c => ch_eqb (lower c) (lower a)).
Definition cs (a : ascii) : regex := Chr (ch_eqb a).

Fixpoint seq_of (f : ascii -> regex) (l : list ascii) : regex :=
  match l with
  | [] => Eps
  | [a] => f a
  | a :: l' => Seq (f a) (seq_of f l')
  end.

Definition lit (w : string) : regex := seq_of ic (list_ascii_of_string w).
Definition lit_cs (w : string) : regex := seq_of cs (list_ascii_of_string w).

Definition Opt (r : regex) : regex := Alt r Eps.
Definition Plus (p : ascii -> bool) : regex := Seq (Chr p) (Star p).

End Re.

Import Re.

Declare Scope re_scope.
Delimit Scope re_scope with re.
Bind Scope re_scope with regex.
Notation "r1 ';;' r2" := (Seq r1 r2) (at level 61, right associativity) : re_scope.
Notation "r1 '<|>' r2" := (Alt r1 r2) (at level 62, left associativity) : re_scope.
Local Open Scope re_scope.

(* ================================================================= *)
(** ** The patterns of the source *)

Definition dquote : ascii := "034".
Definition squote : ascii := "039".
Definition bang : ascii := "!".

(** Modelled from the spec: [RE_FLAGS] is imported from [fparse_utils],
    which is not part of the sources at hand; the specification states
    that matching is case-insensitive, so every pattern compiled with
    [RE_FLAGS] uses the case-insensitive literal [lit]. *)
Definition ws : regex := Star is_space.            (* \s*  *)
Definition ws1 : regex := Plus is_space.           (* \s+  *)
Definition w1 : regex := Plus is_word.             (* \w+  *)
Definition dot_plus : regex := Plus any_char.      (* .+   *)
Definition dot_star : regex := Star any_char.      (* .*   *)

(** the class excluding both quote characters and the exclamation mark *)
Definition not_quote_bang (c : ascii) : bool :=
  negb (ch_eqb c dquote || ch_eqb c squote || ch_eqb c bang)%bool.

Definition EOL_STR : regex := ws ;; Opt (lit ";") ;; ws ;; Eol.
Definition EOL_SC : regex := ws ;; lit ";" ;; ws ;; Eol.
Definition SOL_STR : regex := Bol ;; ws.

Definition F77_STYLE : regex := Bol ;; ws ;; Chr is_digit.

(** [(\w+\s*:)?] *)
Definition label_opt (g : nat) : regex := Opt (Grp g (w1 ;; ws ;; lit ":")).
(** [(\s+\w+)?] *)
Definition name_opt (g : nat) : regex := Opt (Grp g (ws1 ;; w1)).
(** optional group: any run free of quotes and exclamation marks, then a
    blank *)
Definition prefix_opt (g : nat) : regex :=
  Opt (Grp g (Star not_quote_bang ;; lit " ")).

Definition IF_RE : regex :=
  SOL_STR ;; label_opt 1 ;; ws ;; lit "IF" ;; ws ;; lit "(" ;; dot_plus ;; lit ")"
    ;; ws ;; lit "THEN" ;; EOL_STR.
Definition ELSE_RE : regex :=
  SOL_STR ;; lit "ELSE"
    ;; Opt (Grp 1 (ws ;; lit "IF" ;; ws ;; lit "(" ;; dot_plus ;; lit ")" ;; ws
                     ;; lit "THEN"))
    ;; EOL_STR.
Definition ENDIF_RE : regex :=
  SOL_STR ;; lit "END" ;; ws ;; lit "IF" ;; name_opt 1 ;; EOL_STR.

Definition DO_RE : regex :=
  SOL_STR ;; label_opt 1 ;; ws ;; lit "DO" ;; Grp 2 (EOL_STR <|> Chr is_space).
Definition ENDDO_RE : regex :=
  SOL_STR ;; lit "END" ;; ws ;; lit "DO" ;; name_opt 1 ;; EOL_STR.

Definition SELCASE_RE : regex :=
  SOL_STR ;; lit "SELECT" ;; ws ;; lit "CASE" ;; ws ;; lit "(" ;; dot_plus ;; lit ")"
    ;; EOL_STR.
Definition CASE_RE : regex :=
  SOL_STR ;; lit "CASE" ;; ws
    ;; Grp 1 ((lit "(" ;; dot_plus ;; lit ")") <|> lit "DEFAULT") ;; EOL_STR.
Definition ENDSEL_RE : regex :=
  SOL_STR ;; lit "END" ;; ws ;; lit "SELECT" ;; EOL_STR.

Definition SUBR_RE : regex :=
  Bol ;; prefix_opt 1 ;; lit "SUBROUTINE" ;; ws1 ;; w1 ;; ws
    ;; Opt (Grp 2 (lit "(" ;; dot_star ;; lit ")")) ;; EOL_STR.
Definition ENDSUBR_RE : regex :=
  SOL_STR ;; lit "END" ;; ws ;; lit "SUBROUTINE" ;; name_opt 1 ;; EOL_STR.

Definition FCT_RE : regex :=
  Bol ;; prefix_opt 1 ;; lit "FUNCTION" ;; ws1 ;; w1 ;; ws
    ;; Opt (Grp 2 (lit "(" ;; dot_star ;; lit ")"))
    ;; Opt (Grp 3 (ws ;; lit "RESULT" ;; ws ;; lit "(" ;; w1 ;; lit ")"))
    ;; EOL_STR.
Definition ENDFCT_RE : regex :=
  SOL_STR ;; lit "END" ;; ws ;; lit "FUNCTION" ;; name_opt 1 ;; EOL_STR.

Definition MOD_RE : regex := SOL_STR ;; lit "MODULE" ;; ws1 ;; w1 ;; EOL_STR.
Definition ENDMOD_RE : regex :=
  SOL_STR ;; lit "END" ;; ws ;; lit "MODULE" ;; name_opt 1 ;; EOL_STR.

(** [BIND\s*\(\s*C\s*\)] *)
Definition bind_c : regex :=
  lit "BIND" ;; ws ;; lit "(" ;; ws ;; lit "C" ;; ws ;; lit ")".

Definition TYPE_RE : regex :=
  SOL_STR ;; lit "TYPE"
    ;; Opt (Grp 1 (ws ;; lit "," ;; ws
                     ;; Grp 2 (bind_c
                               <|> (lit "EXTENDS" ;; ws ;; lit "(" ;; dot_star
                                      ;; lit ")"))))
    ;; Grp 3 ((ws ;; lit "::" ;; ws) <|> ws1) ;; w1 ;; EOL_STR.
Definition ENDTYPE_RE : regex :=
  SOL_STR ;; lit "END" ;; ws ;; lit "TYPE" ;; name_opt 1 ;; EOL_STR.

Definition PROG_RE : regex := SOL_STR ;; lit "PROGRAM" ;; ws1 ;; w1 ;; EOL_STR.
Definition ENDPROG_RE : regex :=
  SOL_STR ;; lit "END" ;; ws ;; lit "PROGRAM" ;; name_opt 1 ;; EOL_STR.

Definition INTERFACE_RE : regex :=
  Bol ;; prefix_opt 1 ;; lit "INTERFACE" ;; name_opt 2 ;; EOL_STR.
Definition ENDINTERFACE_RE : regex :=
  SOL_STR ;; lit "END" ;; ws ;; lit "INTERFACE" ;; name_opt 1 ;; EOL_STR.

Definition CONTAINS_RE : regex := SOL_STR ;; lit "CONTAINS" ;; EOL_STR.

Definition ENUM_RE : regex :=
  SOL_STR ;; lit "ENUM"
    ;; Opt (Grp 1 (ws ;; lit "," ;; ws ;; Grp 2 bind_c))
    ;; Grp 3 ((ws ;; lit "::" ;; ws) <|> ws1) ;; w1 ;; EOL_STR.
Definition ENDENUM_RE : regex :=
  SOL_STR ;; lit "END" ;; ws ;; lit "ENUM" ;; name_opt 1 ;; EOL_STR.

Definition PUBLIC_RE : regex := SOL_STR ;; lit "PUBLIC" ;; ws ;; lit "::".

(** intrinsic statements with parenthesis notation that are not functions *)
Definition INTR_STMTS_PAR (g : nat) : regex :=
  Grp g (lit "ALLOCATE" <|> lit "DEALLOCATE" <|> lit "REWIND" <|> lit "BACKSPACE"
         <|> lit "INQUIRE" <|> lit "OPEN" <|> lit "CLOSE" <|> lit "READ"
         <|> lit "WRITE" <|> lit "FORALL" <|> lit "WHERE" <|> lit "NULLIFY").

(** an ampersand (group [g]), blanks, an optional comment, end of line *)
Definition LINEBREAK_STR (g : nat) : regex :=
  Grp g (lit "&") ;; ws ;; Opt (lit "!" ;; dot_star) ;; Eol.

(** [(?<=[\w\)\]])(?<![\d\.]\w)\s*(\+|-)\s*] *)
Definition PLUSMINUS_RE : regex :=
  Behind true (Chr (either is_word (one_of ")]")))
    ;; Behind false (Chr (either is_digit (one_of ".")) ;; Chr is_word)
    ;; ws ;; Grp 1 (lit "+" <|> lit "-") ;; ws.

(** [\s*(\.(?:EQ|NE|LT|LE|GT|GE)\.|(?:==|\/=|<(?!=)|<=|(?<!=)>(?!=)|>=))\s*] *)
Definition REL_OP_RE : regex :=
  ws
    ;; Grp 1 ((lit "." ;; (lit "EQ" <|> lit "NE" <|> lit "LT" <|> lit "LE"
                             <|> lit "GT" <|> lit "GE") ;; lit ".")
              <|> (lit "==" <|> lit "/=" <|> (lit "<" ;; Ahead false (lit "="))
                   <|> lit "<="
                   <|> (Behind false (lit "=") ;; lit ">" ;; Ahead false (lit "="))
                   <|> lit ">="))
    ;; ws.

(** [\s*(\.(?:AND|OR|EQV|NEQV)\.)\s*] *)
Definition LOG_OP_RE : regex :=
  ws ;; Grp 1 (lit "." ;; (lit "AND" <|> lit "OR" <|> lit "EQV" <|> lit "NEQV")
                 ;; lit ".")
     ;; ws.

(** [(\(\/?|\[)] and [(\/?\)|\])] *)
Definition DEL_OPEN_STR (g : nat) : regex :=
  Grp g ((lit "(" ;; Opt (lit "/")) <|> lit "[").
Definition DEL_OPEN_RE : regex := DEL_OPEN_STR 1.
Definition DEL_CLOSE_STR (g : nat) : regex :=
  Grp g ((Opt (lit "/") ;; lit ")") <|> lit "]").
Definition DEL_CLOSE_RE : regex := DEL_CLOSE_STR 1.

(** empty line regex, treats omp statements as exception *)
Definition EMPTY_RE : regex :=
  SOL_STR ;; Opt (Grp 1 (lit "!" ;; Chr (none_of "$") ;; dot_star)) ;; Eol.

(** two-sided operators *)
Definition LR_OPS_RE : list regex := [REL_OP_RE; LOG_OP_RE; PLUSMINUS_RE].

(** markups to deactivate formatter: [^\s*&\s*[^\s*]+], compiled without
    flags *)
Definition NO_ALIGN_RE : regex :=
  SOL_STR ;; lit_cs "&" ;; ws ;; Plus (neither is_space (one_of "*")).

(** combine regex that define subunits *)
Definition NEW_SCOPE_RE : list regex :=
  [IF_RE; DO_RE; SELCASE_RE; SUBR_RE; FCT_RE; MOD_RE; PROG_RE; INTERFACE_RE;
   TYPE_RE; ENUM_RE].
Definition CONTINUE_SCOPE_RE : list (option regex) :=
  [Some ELSE_RE; None; Some CASE_RE; Some CONTAINS_RE; Some CONTAINS_RE;
   Some CONTAINS_RE; Some CONTAINS_RE; None; Some CONTAINS_RE; None].
Definition END_SCOPE_RE : list regex :=
  [ENDIF_RE; ENDDO_RE; ENDSEL_RE; ENDSUBR_RE; ENDFCT_RE; ENDMOD_RE; ENDPROG_RE;
   ENDINTERFACE_RE; ENDTYPE_RE; ENDENUM_RE].

(** [enumerate(l)] *)
Definition enumerate {A} (l : list A) : list (nat * A) :=
  combine (seq 0 (length l)) l.

(* ================================================================= *)
(** ** Stateful code: a state, the records it logs, and exceptions

    A method of a Python object is a function of the object's state that
    returns an outcome, the state it leaves behind (also when it raises:
    mutations made before a [raise] stay) and the records it sent to the
    logger. *)

Record result (S A : Type) : Type :=
  mk_result { out : outcome A; post : S; emitted : list record }.

Arguments mk_result {S A} out post emitted.
Arguments out {S A} r.
Arguments post {S A} r.
Arguments emitted {S A} r.

Definition M (S A : Type) : Type := S -> result S A.

Definition ret {S A} (a : A) : M S A := fun s => mk_result (Ok a) s [].

Definition raise {S A} (e : exn) : M S A := fun s => mk_result (Raise e) s [].

Definition bind {S A B} (m : M S A) (f : A -> M S B) : M S B :=
  fun s =>
    let r := m s in
    match out r with
    | Ok a =>
        let r' := f a (post r) in
        mk_result (out r') (post r') (emitted r ++ emitted r')
    | Raise e => mk_result (Raise e) (post r) (emitted r)
    end.

Notation "'let*' x ':=' c1 'in' c2" := (bind c1 (fun x => c2))
  (at level 61, x pattern, c1 at next level, right associativity).

Definition get {S} : M S S := fun s => mk_result (Ok s) s [].
Definition gets {S A} (f : S -> A) : M S A := fun s => mk_result (Ok (f s)) s [].
Definition modify {S} (f : S -> S) : M S unit := fun s => mk_result (Ok tt) (f s) [].
Definition logger {S} (l : level) (msg : string) : M S unit :=
  fun s => mk_result (Ok tt) s [(l, msg)].
Definition lift {S A} (o : outcome A) : M S A := fun s => mk_result o s [].
Definition when {S} (b : bool) (m : M S unit) : M S unit := if b then m else ret tt.

(** [for x in l: a = body(a, x)] *)
Fixpoint foldM {S A B} (body : A -> B -> M S A) (l : list B) (a : A) : M S A :=
  match l with
  | [] => ret a
  | x :: l' => let* a' := body a x in foldM body l' a'
  end.

(** [for x in l: body(x)] *)
Definition forM {S B} (body : B -> M S unit) (l : list B) : M S unit :=
  foldM (fun _ x => body x) l tt.

(** Running a method of a member object inside its owner. *)
Definition zoom {S T A} (proj : S -> T) (upd : T -> S -> S) (m : M T A) : M S A :=
  fun s =>
    let r := m (proj s) in
    mk_result (out r) (upd (post r) s) (emitted r).

(** [l.pop()] on a list held in the state. *)
Definition pop_last {A} (l : list A) : outcome (A * list A) :=
  match rev l with
  | a :: r => Ok (a, rev r)
  | [] => Raise IndexError
  end.

(** [[ind + v for ind in l]], where the expression [v] is evaluated once
    per element, so that it cannot fail on an empty [l]. *)
Definition shift_all (l : list Z) (v : outcome Z) : outcome (list Z) :=
  match l with
  | [] => Ok []
  | _ => match v with
         | Ok x => Ok (map (fun ind => ind + x) l)
         | Raise e => Raise e
         end
  end.

(** [l[i] = v] for [0 <= i]. *)
Fixpoint set_nth {A} (l : list A) (i : nat) (v : A) : outcome (list A) :=
  match l, i with
  | [], _ => Raise IndexError
  | _ :: l', O => Ok (v :: l')
  | a :: l', S j => match set_nth l' j v with
                    | Ok r => Ok (a :: r)
                    | Raise e => Raise e
                    end
  end.

(* ================================================================= *)
(** ** [CharFilter] *)

(** Modelled from the spec: [CharFilter] (imported from [fparse_utils],
    absent from the sources at hand) is the comment/string-aware character
    iterator: it wraps [enumerate(line)], ends at the first exclamation
    mark outside a string literal, and leaves out the characters of string
    literals.  The closing quote of a literal is passed on, which is what
    [format_single_fline] relies on when it copies the skipped span. *)
Fixpoint CharFilter_from (instring : option ascii) (it : list (nat * ascii))
  : list (nat * ascii) :=
  match it with
  | [] => []
  | (pos, char) :: it' =>
      match instring with
      | None =>
          if ch_eqb char bang then []
          else if (ch_eqb char dquote || ch_eqb char squote)%bool
               then CharFilter_from (Some char) it'
               else (pos, char) :: CharFilter_from None it'
      | Some q =>
          if ch_eqb char q then (pos, char) :: CharFilter_from None it'
          else CharFilter_from (Some q) it'
      end
  end.

Definition CharFilter (it : list (nat * ascii)) : list (nat * ascii) :=
  CharFilter_from None it.

Definition zlen {A} (l : list A) : Z := Z.of_nat (length l).

Definition truthy (z : Z) : bool := negb (z =? 0).

(* ================================================================= *)
(** ** [F90Aligner] *)

Record F90Aligner : Type := mk_aligner {
  al_line_nr : Z;
  al_line_indents : list Z;
  al_level : Z;
  al_br_indent_list : list Z
}.

Definition set_br (f : list Z -> list Z) (a : F90Aligner) : F90Aligner :=
  mk_aligner (al_line_nr a) (al_line_indents a) (al_level a) (f (al_br_indent_list a)).

Definition set_level (v : Z) (a : F90Aligner) : F90Aligner :=
  mk_aligner (al_line_nr a) (al_line_indents a) v (al_br_indent_list a).

Definition set_al_line_indents (f : list Z -> list Z) (a : F90Aligner) : F90Aligner :=
  mk_aligner (al_line_nr a) (f (al_line_indents a)) (al_level a) (al_br_indent_list a).

(** [F90Aligner.__init_line] *)
Definition init_line (line_nr : Z) : F90Aligner := mk_aligner line_nr [0] 0 [0].

(** The local variables of [__align_line_continuations]; [indent_list] is
    the object's own [_br_indent_list] and lives in the state. *)
Record scan : Type := mk_scan {
  sc_level : Z;
  sc_pos_eq : Z;
  sc_pos_ldelim : list nat;
  sc_ldelim : list str;
  sc_pos_rdelim : list nat;
  sc_rdelim : list str;
  sc_end_of_delim : Z
}.

Definition br_append (v : Z) : M F90Aligner unit := modify (set_br (fun l => l ++ [v])).
Definition br_top : M F90Aligner Z :=
  let* l := gets al_br_indent_list in lift (index_m1 l).
Definition br_pop : M F90Aligner unit :=
  let* l := gets al_br_indent_list in
  let* p := lift (pop_last l) in
  modify (set_br (fun _ => snd p)).
Definition br_set_top (v : Z) : M F90Aligner unit :=
  let* l := gets al_br_indent_list in
  let* l' := lift (set_m1 l v) in
  modify (set_br (fun _ => l')).

Definition unpaired : string := "unpaired bracket delimiters".

Definition bool_Z (b : bool) : Z := if b then 1 else 0.

(** [=>?\s*] and [::\s*] followed by [LINEBREAK_STR]; [DEL_OPEN_STR]
    followed by blanks and [LINEBREAK_STR] *)
Definition ASSIGN_BREAK_RE : regex := lit "=" ;; Opt (lit ">") ;; ws ;; LINEBREAK_STR 1.
Definition DECL_BREAK_RE : regex := lit "::" ;; ws ;; LINEBREAK_STR 1.
Definition OPEN_BREAK_RE : regex := DEL_OPEN_STR 1 ;; ws ;; LINEBREAK_STR 2.

(** The three steps of a turn of the loop over
    [CharFilter(enumerate(line))]; [instring] is never set by this loop
    (strings are left out by [CharFilter]).

    [if not instring and what_del_open:] *)
Definition open_delimiter (window : str) (pos : nat) (rel_ind : Z)
           (what_del_open : option mtch) (v : scan) : M F90Aligner scan :=
  let instring := false in
  match what_del_open with
  | Some m =>
      if instring then ret v else
      let tok := group0 window m in
      let* _ := br_append (Z.of_nat pos + len tok + rel_ind) in
      ret (mk_scan (sc_level v + 1) (sc_pos_eq v) (sc_pos_ldelim v ++ [pos])
                   (sc_ldelim v ++ [tok]) (sc_pos_rdelim v) (sc_rdelim v)
                   (Z.of_nat pos + len tok - 1))
  | None => ret v
  end.

(** [if not instring and what_del_close:] *)
Definition close_delimiter (window : str) (pos : nat)
           (what_del_close : option mtch) (v : scan) : M F90Aligner scan :=
  let instring := false in
  match what_del_close with
  | Some m =>
      if instring then ret v else
      let tok := group0 window m in
      let end_of_delim := Z.of_nat pos + len tok - 1 in
      let* level :=
        if 0 <? sc_level v
        then let* _ := br_pop in ret (sc_level v - 1)
        else let* _ := logger INFO unpaired in ret (sc_level v) in
      match pop_last (sc_pos_ldelim v), pop_last (sc_ldelim v) with
      | Ok (_, pos_ldelim), Ok (what_open, ldelim) =>
          let valid :=
            (if str_eqb what_open (s_ "[") then str_eqb tok (s_ "]")
             else if str_eqb what_open (s_ "(/") then str_eqb tok (s_ "/)")
             else if str_eqb what_open (s_ "(") then str_eqb tok (s_ ")")
             else false) in
          let* _ := when (negb valid) (logger INFO unpaired) in
          ret (mk_scan level (sc_pos_eq v) pos_ldelim ldelim
                       (sc_pos_rdelim v) (sc_rdelim v) end_of_delim)
      | _, _ =>
          ret (mk_scan level (sc_pos_eq v) (sc_pos_ldelim v) (sc_ldelim v)
                       (sc_pos_rdelim v ++ [pos]) (sc_rdelim v ++ [tok])
                       end_of_delim)
      end
  | None => ret v
  end.

(** [if not instring and not level:] the target of an assignment
    operator, or of the double colon of a declaration *)
Definition alignment_target (line : str) (is_decl : bool) (pos : nat)
           (char : ascii) (v : scan) : M F90Aligner scan :=
  let instring := false in
  if (negb instring && negb (truthy (sc_level v)))%bool then
    if (negb is_decl && ch_eqb char "=")%bool then
      if negb (matches REL_OP_RE (sub line (pos - 1) (Nat.min (pos + 2) (length line))))
      then
        (* should only have one assignment per line! *)
        if 0 <? sc_pos_eq v
        then raise (fprettifyInternalException
                      "found more than one assignment in the same Fortran line")
        else
          let* next := lift (index line (pos + 1)) in
          let is_pointer := ch_eqb next ">" in
          let pos_eq := Z.of_nat pos + 1 in
          let v' := mk_scan (sc_level v) pos_eq (sc_pos_ldelim v) (sc_ldelim v)
                            (sc_pos_rdelim v) (sc_rdelim v) (sc_end_of_delim v) in
          (* don't align if assignment operator directly before line break *)
          if negb (search ASSIGN_BREAK_RE line)
          then let* top := br_top in
               let* _ := br_append (pos_eq + 1 + bool_Z is_pointer + top) in
               ret v'
          else ret v'
      else ret v
    else if (is_decl && str_eqb (sub line pos (pos + 2)) (s_ "::"))%bool then
      if negb (search DECL_BREAK_RE line)
      then let* top := br_top in
           let* _ := br_append (Z.of_nat pos + 3 + top) in
           ret v
      else ret v
    else ret v
  else ret v.

(** One turn of the loop over [CharFilter(enumerate(line))]. *)
Definition align_char (line : str) (is_decl : bool) (rel_ind : Z)
           (v : scan) (pc : nat * ascii) : M F90Aligner scan :=
  let '(pos, char) := pc in
  let window := sub line pos (pos + 2) in
  let at_delim := Z.of_nat pos =? sc_end_of_delim v in
  let what_del_open := if at_delim then None else match_m DEL_OPEN_RE window in
  let what_del_close := if at_delim then None else match_m DEL_CLOSE_RE window in
  let* v := open_delimiter window pos rel_ind what_del_open v in
  let* v := close_delimiter window pos what_del_close v in
  alignment_target line is_decl pos char v.

(** [F90Aligner.__align_line_continuations] *)
Definition align_line_continuations (line : str) (is_decl : bool)
           (indent_size : Z) (line_nr : Z) : M F90Aligner unit :=
  let* level0 := gets al_level in
  (* indentation of prev. line *)
  let* rel_ind := br_top in
  let* v := foldM (align_char line is_decl rel_ind)
                  (CharFilter (enumerate line))
                  (mk_scan level0 0 [] [] [] [] (-1)) in
  let level := sc_level v in
  (* Don't align if delimiter opening directly before line break *)
  let* _ :=
    when (truthy level && search OPEN_BREAK_RE line)%bool
         (let* l := gets al_br_indent_list in
          if 1 <? zlen l
          then let* below := lift (index_m2 l) in br_set_top below
          else br_set_top 0) in
  let* top := br_top in
  let* _ := when (negb (truthy top)) (br_set_top indent_size) in
  modify (set_level level).

Section Fparse.

(** [VAR_DECL_RE.match], [USE_PARSE_RE.match], [OMP_RE.match],
    [OMP_RE.sub(repl, s, count=1)], [OMP_DIR_RE.match] and
    [OMP_DIR_RE.sub(repl, s, count=1)]: these patterns are defined in
    [fparse_utils], which is not at hand, and are taken as parameters. *)
Variable VAR_DECL_RE_match : str -> bool.
Variable USE_PARSE_RE_match : str -> bool.
Variable OMP_RE_match : str -> bool.
Variable OMP_RE_sub : str -> str -> str.
Variable OMP_DIR_RE_match : str -> bool.
Variable OMP_DIR_RE_sub : str -> str -> str.

(** [F90Aligner.process_lines_of_fline] *)
Definition aligner_process_lines_of_fline (f_line : str) (lines : list str)
           (rel_ind : Z) (line_nr : Z) : M F90Aligner unit :=
  let* _ := modify (fun _ => init_line line_nr) in
  let is_decl := (VAR_DECL_RE_match f_line || matches PUBLIC_RE f_line)%bool in
  let* _ :=
    forM (fun pl : nat * str =>
            let '(pos, line) := pl in
            let* nr := gets al_line_nr in
            let* _ := align_line_continuations line is_decl rel_ind
                                               (nr + Z.of_nat pos) in
            if (Z.of_nat pos + 1 <? zlen lines)
            then let* top := br_top in
                 modify (set_al_line_indents (fun l => l ++ [top]))
            else ret tt)
         (enumerate lines) in
  let* l := gets al_br_indent_list in
  let* level := gets al_level in
  when ((2 <? zlen l) || truthy level)%bool (logger INFO unpaired).

(** [F90Aligner.get_lines_indent] *)
Definition aligner_get_lines_indent (a : F90Aligner) : list Z := al_line_indents a.

(* ================================================================= *)
(** ** [F90Indenter] *)

Record F90Indenter : Type := mk_indenter {
  scope_storage : list nat;
  indent_storage : list Z;
  line_indents : list Z;
  aligner : F90Aligner
}.

(** [F90Indenter.__init__] *)
Definition F90Indenter_init : F90Indenter := mk_indenter [] [0] [] (init_line 0).

Definition set_scopes (f : list nat -> list nat) (i : F90Indenter) : F90Indenter :=
  mk_indenter (f (scope_storage i)) (indent_storage i) (line_indents i) (aligner i).

Definition set_indents (f : list Z -> list Z) (i : F90Indenter) : F90Indenter :=
  mk_indenter (scope_storage i) (f (indent_storage i)) (line_indents i) (aligner i).

Definition set_line_indents (l : list Z) (i : F90Indenter) : F90Indenter :=
  mk_indenter (scope_storage i) (indent_storage i) l (aligner i).

Definition set_aligner (a : F90Aligner) (i : F90Indenter) : F90Indenter :=
  mk_indenter (scope_storage i) (indent_storage i) (line_indents i) a.

(** The text of ["{}: {}".format(what, f_line)] for a kind below ten. *)
Definition debug_msg (what : nat) (f_line : str) : string :=
  string_of_list_ascii (ascii_of_nat (48 + what) :: s_ ": " ++ f_line).

(** check statements that start new scope: the pair is
    [(is_new, valid_new)] *)
Definition check_new (f_line : str) : M F90Indenter (bool * bool) :=
  foldM (fun (acc : bool * bool) (nr : nat * regex) =>
           let '(new_n, newre) := nr in
           let* endre := lift (index END_SCOPE_RE new_n) in
           if (search newre f_line && negb (search endre f_line))%bool
           then let* _ := modify (set_scopes (fun l => l ++ [new_n])) in
                let* _ := logger DEBUG (debug_msg new_n f_line) in
                ret (true, true)
           else ret acc)
        (enumerate NEW_SCOPE_RE) (false, false).

(** check statements that continue scope: [(is_con, valid_con)] *)
Definition check_con (f_line : str) : M F90Indenter (bool * bool) :=
  foldM (fun (acc : bool * bool) (nr : nat * option regex) =>
           let '(con_n, conre) := nr in
           match conre with
           | Some re =>
               if search re f_line
               then let* scopes := gets scope_storage in
                    if 0 <? zlen scopes
                    then let* what := lift (index_m1 scopes) in
                         if Nat.eqb what con_n
                         then let* _ := logger DEBUG (debug_msg con_n f_line) in
                              ret (true, true)
                         else ret (true, snd acc)
                    else ret (true, snd acc)
               else ret acc
           | None => ret acc
           end)
        (enumerate CONTINUE_SCOPE_RE) (false, false).

(** check statements that end scope: [(is_end, valid_end)] *)
Definition check_end (f_line : str) : M F90Indenter (bool * bool) :=
  foldM (fun (acc : bool * bool) (nr : nat * regex) =>
           let '(end_n, endre) := nr in
           if search endre f_line
           then let* scopes := gets scope_storage in
                if 0 <? zlen scopes
                then let* p := lift (pop_last scopes) in
                     let* _ := modify (set_scopes (fun _ => snd p)) in
                     if Nat.eqb (fst p) end_n
                     then let* _ := logger DEBUG (debug_msg end_n f_line) in
                          ret (true, true)
                     else ret (true, snd acc)
                else ret (true, snd acc)
           else ret acc)
        (enumerate END_SCOPE_RE) (false, false).

(** The classification of a line, as the three loops above compute it:
    the kinds whose opening pattern accepts the line while their closing
    pattern does not, the kinds whose continuation pattern accepts it, and
    the kinds whose closing pattern accepts it. *)
Definition opens (f_line : str) (nr : nat * regex) : bool :=
  match nth_error END_SCOPE_RE (fst nr) with
  | Some endre => (search (snd nr) f_line && negb (search endre f_line))%bool
  | None => false
  end.

Definition continues (f_line : str) (nr : nat * option regex) : bool :=
  match snd nr with
  | Some re => search re f_line
  | None => false
  end.

Definition closes (f_line : str) (nr : nat * regex) : bool := search (snd nr) f_line.

Definition new_matches (f_line : str) : list nat :=
  map fst (filter (opens f_line) (enumerate NEW_SCOPE_RE)).

Definition con_matches (f_line : str) : list nat :=
  map fst (filter (continues f_line) (enumerate CONTINUE_SCOPE_RE)).

Definition end_matches (f_line : str) : list nat :=
  map fst (filter (closes f_line) (enumerate END_SCOPE_RE)).

(** The scope stack after the closing matches [ends] have each popped it
    (when it was not empty), and whether one of them popped its own kind. *)
Fixpoint pop_ends (scopes : list nat) (ends : list nat) (valid : bool)
  : list nat * bool :=
  match ends with
  | [] => (scopes, valid)
  | end_n :: ends' =>
      match pop_last scopes with
      | Ok (what, rest) => pop_ends rest ends' (valid || Nat.eqb what end_n)%bool
      | Raise _ => pop_ends scopes ends' valid
      end
  end.

(** Whether one of the continuation matches is the kind on top of the
    scope stack. *)
Definition valid_con_of (scopes : list nat) (cons : list nat) : bool :=
  match index_m1 scopes with
  | Ok what => existsb (Nat.eqb what) cons
  | Raise _ => false
  end.

(** deal with line breaks: the raw offsets of the fragments, from the
    aligner or from the caller, stored in [_line_indents] (whose first
    entry stays 0) *)
Definition deal_with_line_breaks (f_line : str) (lines : list str)
           (rel_ind_con : Z) (line_nr : Z) (manual_lines_indent : list Z)
  : M F90Indenter unit :=
  let* br_indent_list :=
    match manual_lines_indent with
    | [] =>
        let* _ := zoom aligner set_aligner
                       (aligner_process_lines_of_fline f_line lines rel_ind_con
                                                       line_nr) in
        gets (fun i => aligner_get_lines_indent (aligner i))
    | _ => ret manual_lines_indent
    end in
  forM (fun pos : nat =>
          let* v := lift (index br_indent_list (pos + 1)) in
          let* l := gets line_indents in
          let* l' := lift (set_nth l (pos + 1) v) in
          modify (set_line_indents l'))
       (seq 0 (length lines - 1)).

(** The branches on the classification, up to the final store into
    [_line_indents]. *)
Definition combine_indents (is_new valid_new is_con valid_con is_end valid_end : bool)
           (rel_ind : Z) : M F90Indenter unit :=
  let* line_indents := gets line_indents in
  let* indents := gets indent_storage in
  let* line_indents :=
    if is_new then
      let* _ := when (negb valid_new) (logger INFO "invalid new statement") in
      let* line_indents := lift (shift_all line_indents (index_m1 indents)) in
      let* old_ind := lift (index_m1 indents) in
      (* prevent originally unindented do/if blocks from being indented: *)
      let rel_ind := rel_ind + old_ind in
      let* _ := modify (set_indents (fun l => l ++ [rel_ind])) in
      ret line_indents
    else if is_con then
      if negb valid_con
      then let* _ := logger INFO "invalid continue statement" in ret line_indents
      else lift (shift_all line_indents (index_m2 indents))
    else if is_end then
      if negb valid_end
      then let* _ := logger INFO "invalid end statement" in ret line_indents
      else let* line_indents := lift (shift_all line_indents (index_m2 indents)) in
           let* p := lift (pop_last indents) in
           let* _ := modify (set_indents (fun _ => snd p)) in
           ret line_indents
    else lift (shift_all line_indents (index_m1 indents)) in
  modify (set_line_indents line_indents).

(** [F90Indenter.process_lines_of_fline] *)
Definition process_lines_of_fline (f_line : str) (lines : list str)
           (rel_ind rel_ind_con : Z) (line_nr : Z) (manual_lines_indent : list Z)
  : M F90Indenter unit :=
  let* _ := modify (set_line_indents (repeat 0 (length lines))) in
  let* (is_new, valid_new) := check_new f_line in
  let* (is_con, valid_con) := check_con f_line in
  let* (is_end, valid_end) := check_end f_line in
  let* _ := deal_with_line_breaks f_line lines rel_ind_con line_nr
                                  manual_lines_indent in
  combine_indents is_new valid_new is_con valid_con is_end valid_end rel_ind.

(** [F90Indenter.get_fline_indent] and [F90Indenter.get_lines_indent] *)
Definition get_fline_indent (i : F90Indenter) : outcome Z := index_m1 (indent_storage i).
Definition get_lines_indent (i : F90Indenter) : list Z := line_indents i.

(* ================================================================= *)
(** ** [format_single_fline] *)

(** The inline patterns of [format_single_fline]. *)
Definition word_or_dquote (c : ascii) : bool := (is_word c || ch_eqb c dquote)%bool.

(** no blank before an opening delimiter after another opener or one of
    the listed characters *)
Definition BEFORE_OPEN_RE : regex :=
  Grp 1 (DEL_OPEN_STR 2 <|> Chr (either is_word (one_of "*/=+-:"))) ;; ws ;; Eol.
Definition IF_HEAD_RE : regex :=
  SOL_STR ;; label_opt 1 ;; Opt (Grp 2 (lit "ELSE")) ;; ws ;; lit "IF" ;; ws ;; Eol.
Definition DO_WHILE_HEAD_RE : regex :=
  SOL_STR ;; label_opt 1 ;; ws ;; lit "DO" ;; ws1 ;; lit "WHILE" ;; ws ;; Eol.
Definition CASE_HEAD_RE : regex :=
  SOL_STR ;; Opt (Grp 1 (lit "SELECT")) ;; ws ;; lit "CASE" ;; ws.
Definition INTR_HEAD_RE : regex := Wordb ;; INTR_STMTS_PAR 1 ;; ws ;; Eol.
Definition AFTER_CLOSE_RE : regex :=
  Bol ;; ws ;; Grp 1 (DEL_CLOSE_STR 2 <|> Chr (one_of ",%:/*")).
Definition DCOLON_NEXT_RE : regex := Bol ;; ws ;; lit "::".
Definition NOT_RE : regex := lit ".NOT.".
Definition QUOTE_BANG_RE : regex :=
  Chr (fun c => (ch_eqb c squote || ch_eqb c dquote || ch_eqb c bang)%bool).
Definition LABEL_RE : regex := SOL_STR ;; Plus is_word ;; ws ;; lit_cs ":".

(** [s[lo:]] and [s[:hi]] for integer bounds. *)
Definition slice_from (s : str) (lo : Z) : str := slice s lo (len s).
Definition slice_to (s : str) (hi : Z) : str := slice s 0 hi.

Definition last_char (s : str) : option ascii :=
  match rev s with c :: _ => Some c | [] => None end.

Definition nonempty {A} (l : list A) : bool :=
  match l with [] => false | _ => true end.

Definition lstrip_blank := lstrip_by is_blank.
Definition rstrip_blank := rstrip_by is_blank.
Definition strip_blank := strip_by is_blank.

(** rm extraneous whitespace chars, except for declarations: one turn of
    the loop, on [(line_ftd, pos_prev)] *)
Definition rm_extraneous (line : str) (acc : str * Z) (pc : nat * ascii) : str * Z :=
  let '(line_ftd, pos_prev) := acc in
  let '(pos, char) := pc in
  let is_decl := (startswith (lstrip (from line pos)) (s_ "::")
                  || endswith (rstrip (upto line pos)) (s_ "::"))%bool in
  let last_is p := match last_char line_ftd with Some c => p c | None => false end in
  if ch_eqb char blank then
    (* remove double spaces *)
    if (nonempty line_ftd && (last_is word_or_dquote || is_decl))%bool
    then (line_ftd ++ [char], Z.of_nat pos)
    else (line_ftd, Z.of_nat pos)
  else
    let line_ftd :=
      if (nonempty line_ftd && last_is is_blank
          && (negb (word_or_dquote char) && negb is_decl))%bool
      then removelast line_ftd  (* remove spaces except between words *)
      else line_ftd in
    (line_ftd ++ slice line (pos_prev + 1) (Z.of_nat pos + 1), Z.of_nat pos).

(** The variables changed by the second loop. *)
Record fmt : Type := mk_fmt {
  f_line_ftd : str;
  f_pos_eq : list nat;
  f_end_of_delim : Z;
  f_level : Z
}.

Definition spacey_of (whitespace : Z) : outcome (list Z) :=
  if whitespace =? 0 then Ok [0; 0; 0; 0; 0]
  else if whitespace =? 1 then Ok [1; 1; 1; 1; 0]
  else if whitespace =? 2 then Ok [1; 1; 1; 1; 1]
  else Raise (NotImplementedError "unknown value for whitespace").

(** format delimiters, commas and semicolons, .NOT. and '=': one turn of
    the loop over [CharFilter(enumerate(line))] *)
Definition format_char (line : str) (spacey : list Z) (v : fmt) (pc : nat * ascii)
  : M unit fmt :=
  let '(pos, char) := pc in
  let zpos := Z.of_nat pos in
  let line_ftd := f_line_ftd v in
  (* offset w.r.t. unformatted line *)
  let offset := len line_ftd - len line in
  let window := sub line pos (pos + 2) in
  let looked := f_end_of_delim v <? zpos in
  let what_del_open := if looked then match_m DEL_OPEN_RE window else None in
  let what_del_close := if looked then match_m DEL_CLOSE_RE window else None in
  let* v :=
    match what_del_open, what_del_close with
    | None, None => ret v
    | _, _ =>
        let delim := match what_del_open with
                     | Some m => group0 window m
                     | None => match what_del_close with
                               | Some m => group0 window m
                               | None => []
                               end
                     end in
        let lhs := slice_to line_ftd (zpos + offset) in
        let rhs := slice_from line_ftd (zpos + len delim + offset) in
        let* (sep1, sep2, level) :=
          match what_del_open with
          | Some _ =>
              (* add separating whitespace before opening delimiter
                 with some exceptions *)
              let before := upto line pos in
              let sep1 :=
                if ((negb (search BEFORE_OPEN_RE before)
                     && negb (search EMPTY_RE before))
                    || search IF_HEAD_RE before
                    || search DO_WHILE_HEAD_RE before
                    || search CASE_HEAD_RE before
                    || search INTR_HEAD_RE before)%bool
                then 1 else 0 in
              ret (sep1, 0, f_level v + 1)
          | None =>
              let* level :=
                if 0 <? f_level v then ret (f_level v - 1)
                else let* _ := logger INFO unpaired in ret (f_level v) in
              (* add separating whitespace after closing delimiter
                 with some exceptions *)
              let after := from line (pos + 1) in
              let sep2 :=
                if negb (search AFTER_CLOSE_RE after) then 1
                else if search DCOLON_NEXT_RE after
                     then len rhs - len (lstrip_blank rhs)
                     else 0 in
              ret (0, sep2, level)
          end in
        ret (mk_fmt (rstrip_blank lhs ++ spaces sep1 ++ delim ++ spaces sep2
                       ++ lstrip_blank rhs)
                    (f_pos_eq v)
                    (* where delimiter token ends *)
                    (zpos + len delim - 1)
                    level)
    end in
  (* format commas and semicolons *)
  let* s0 := lift (index spacey 0) in
  let v :=
    if (ch_eqb char "," || ch_eqb char ";")%bool
    then let lhs := slice_to (f_line_ftd v) (zpos + offset) in
         let rhs := slice_from (f_line_ftd v) (zpos + 1 + offset) in
         mk_fmt (rstrip_blank (rstrip_blank lhs ++ [char] ++ spaces s0
                                 ++ lstrip_blank rhs))
                (f_pos_eq v) (f_end_of_delim v) (f_level v)
    else v in
  (* format .NOT. *)
  let* s3 := lift (index spacey 3) in
  let v :=
    if matches NOT_RE (sub line pos (pos + 5))
    then let lhs := slice_to (f_line_ftd v) (zpos + offset) in
         let rhs := slice_from (f_line_ftd v) (zpos + 5 + offset) in
         mk_fmt (rstrip_blank lhs ++ sub line pos (pos + 5) ++ spaces s3
                   ++ lstrip_blank rhs)
                (f_pos_eq v) (f_end_of_delim v) (f_level v)
    else v in
  (* strip whitespaces from '=' and prepare assignment operator formatting *)
  if (ch_eqb char "=" && negb (search REL_OP_RE (slice line (zpos - 1) (zpos + 2))))%bool
  then let lhs := slice_to (f_line_ftd v) (zpos + offset) in
       let rhs := slice_from (f_line_ftd v) (zpos + 1 + offset) in
       ret (mk_fmt (rstrip_blank lhs ++ s_ "=" ++ lstrip_blank rhs)
                   (* remember position of assignment operator *)
                   (if negb (truthy (f_level v))
                    then f_pos_eq v ++ [length (rstrip_blank lhs)]
                    else f_pos_eq v)
                   (f_end_of_delim v) (f_level v))
  else ret v.

(** format assignments: one turn of the loop over [pos_eq] *)
Definition format_assignment (line : str) (spacey : list Z) (line_ftd : str)
           (pos : nat) : M unit str :=
  let offset := len line_ftd - len line in
  let* next := lift (index line (pos + 1)) in
  let is_pointer := ch_eqb next ">" in
  let lhs := slice_to line_ftd (Z.of_nat pos + offset) in
  let rhs := slice_from line_ftd (Z.of_nat pos + 1 + bool_Z is_pointer + offset) in
  let assign_op := if is_pointer then s_ "=>" else s_ "=" in
  let* s1 := lift (index spacey 1) in
  ret (rstrip_blank lhs ++ spaces s1 ++ assign_op ++ spaces s1 ++ lstrip_blank rhs).

(** for more advanced replacements we separate comments and strings *)
Record parts : Type := mk_parts {
  p_line_parts : list str;
  p_str_end : Z;
  p_str_start : nat;
  p_instring : option ascii
}.

Definition separate_char (line : str) (v : parts) (pc : nat * ascii) : parts :=
  let '(pos, char) := pc in
  let v :=
    if (ch_eqb char dquote || ch_eqb char squote)%bool then  (* skip string *)
      match p_instring v with
      | None =>
          mk_parts (p_line_parts v ++ [slice line (p_str_end v + 1) (Z.of_nat pos)])
                   (p_str_end v) pos (Some char)
      | Some q =>
          if ch_eqb q char
          then mk_parts (p_line_parts v
                           ++ [slice line (Z.of_nat (p_str_start v)) (Z.of_nat pos + 1)])
                        (Z.of_nat pos) (p_str_start v) None
          else v
      end
    else v in
  if Z.of_nat pos =? len line - 1
  then mk_parts (p_line_parts v ++ [slice_from line (p_str_end v + 1)])
                (p_str_end v) (p_str_start v) (p_instring v)
  else v.

Definition separate_strings (line : str) : list str :=
  p_line_parts (fold_left (separate_char line) (enumerate line)
                          (mk_parts [] (-1) 0 None)).

(** Two-sided operators *)
Definition two_sided (spacey : list Z) (line_parts : list str) : M unit (list str) :=
  foldM (fun (line_parts : list str) (nr : nat * regex) =>
           let '(n_op, lr_re) := nr in
           foldM (fun (line_parts : list str) (pp : nat * str) =>
                    let '(pos, part) := pp in
                    (* exclude comments, strings: *)
                    if negb (matches QUOTE_BANG_RE part)
                    then let partsplit := split lr_re part in
                         let* sp := lift (index spacey (n_op + 2)) in
                         lift (set_nth line_parts pos (join (spaces sp) partsplit))
                    else ret line_parts)
                 (enumerate line_parts) line_parts)
        (enumerate LR_OPS_RE) line_parts.

(** [line.split(':', 1)] *)
Fixpoint split_colon (s : str) : list str :=
  match s with
  | [] => [[]]
  | c :: s' =>
      if ch_eqb c ":" then [[]; s']
      else match split_colon s' with
           | p :: rest => (c :: p) :: rest
           | [] => [[c]]
           end
  end.

(** format ':' for labels *)
Definition format_labels (line : str) : str :=
  fold_left (fun line newre =>
               if (search newre line && search LABEL_RE line)%bool
               then join (s_ ": ") (map strip (split_colon line))
               else line)
            (firstn 2 NEW_SCOPE_RE) line.

(** [l.sort(reverse=True)] *)
Fixpoint insert_desc (x : Z) (l : list Z) : list Z :=
  match l with
  | [] => [x]
  | y :: l' => if y <? x then x :: l else y :: insert_desc x l'
  end.

Definition sort_desc (l : list Z) : list Z := fold_right insert_desc [] l.

(** [while pos < len(s) and s[pos] == ' ': pos += 1] *)
Definition skip_blanks (s : str) (pos : nat) : nat :=
  (pos + run is_blank (skipn pos s))%nat.

Definition failed_break : exn :=
  fprettifyInternalException "failed at finding line break position".

(** [a is b] for two characters taken out of two lines: CPython keeps
    one object for each one-character string whose code point is below
    256, so that two equal characters of this range are the same object,
    while a character above it is a new object each time it is taken out
    of a line.  Every character of [str] is in the range. *)
Definition interned (c : ascii) : bool := Nat.ltb (code c) 256.

Definition same_object (a b : ascii) : bool := (ch_eqb a b && interned a)%bool.

(** shift line break positions from original to reformatted line: one
    turn of the loop per unit of fuel.  Every turn removes a break
    position or advances in a line, so the fuel given by
    [shift_linebreaks] is never used up. *)
Fixpoint shift_loop (fuel : nat) (line line_orig : str) (pos_new pos_old : nat)
         (linebreak_pos : list Z) (linebreak_pos_ftd : list nat)
  : outcome (list nat) :=
  match fuel with
  | O => Ok linebreak_pos_ftd
  | S fuel' =>
      match nth_error line pos_new, nth_error line_orig pos_old with
      | Some a, Some b =>
          if negb (ch_eqb a b) then Raise failed_break
          else
            (* [if linebreak_pos and pos_old > linebreak_pos[-1]] *)
            let passed :=
              match pop_last linebreak_pos with
              | Ok (lb, rest) => if lb <? Z.of_nat pos_old then Some rest else None
              | Raise _ => None
              end in
            match passed with
            | Some rest =>
                shift_loop fuel' line line_orig pos_new pos_old rest
                           (linebreak_pos_ftd ++ [pos_new])
            | None =>
                if same_object a b then
                  shift_loop fuel' line line_orig
                             (skip_blanks line (S pos_new))
                             (skip_blanks line_orig (S pos_old))
                             linebreak_pos linebreak_pos_ftd
                else if is_blank a then
                  shift_loop fuel' line line_orig (S pos_new) pos_old
                             linebreak_pos linebreak_pos_ftd
                else if is_blank b then
                  shift_loop fuel' line line_orig pos_new (S pos_old)
                             linebreak_pos linebreak_pos_ftd
                else Raise failed_break
            end
      | _, _ => Ok linebreak_pos_ftd
      end
  end.

Definition shift_linebreaks (line line_orig : str) (linebreak_pos : list Z)
  : outcome (list nat) :=
  match shift_loop (S (length line + length line_orig + length linebreak_pos))
                   line line_orig 0 0 (sort_desc linebreak_pos) [] with
  | Ok l => Ok (0%nat :: l)
  | Raise e => Raise e
  end.

(** We do not insert ampersands in empty lines and comments lines *)
Definition break_lines (line : str) (linebreak_pos_ftd : list nat)
           (ampersand_sep : list Z) : outcome (list str) :=
  let fix go (l : list (nat * (nat * nat))) : outcome (list str) :=
    match l with
    | [] => Ok []
    | (pos, (l0, r0)) :: l' =>
        match index ampersand_sep pos with
        | Ok sep =>
            match go l' with
            | Ok rest =>
                Ok ((rstrip_blank (sub line l0 r0) ++ spaces sep
                       ++ times (s_ "&") (Z.min 1 (Z.of_nat r0 - Z.of_nat l0)))
                      :: rest)
            | Raise e => Raise e
            end
        | Raise e => Raise e
        end
    end in
  match go (enumerate (combine (removelast linebreak_pos_ftd) (tl linebreak_pos_ftd))),
        index_m1 linebreak_pos_ftd with
  | Ok lines_out, Ok lastpos => Ok (lines_out ++ [from line lastpos])
  | Raise e, _ => Raise e
  | _, Raise e => Raise e
  end.

(** [format_single_fline] *)
Definition format_single_fline (f_line : str) (whitespace : Z)
           (linebreak_pos : list Z) (ampersand_sep : list Z) (auto_format : bool)
  : M unit (list str) :=
  let* spacey := lift (spacey_of whitespace) in
  let line := f_line in
  let line_orig := line in
  let line_ftd := fst (fold_left (rm_extraneous line) (CharFilter (enumerate line))
                                 ([], -1)) in
  let line := line_ftd in
  let* v := foldM (format_char line spacey) (CharFilter (enumerate line))
                  (mk_fmt line_ftd [] (-1) 0) in
  let line_ftd := f_line_ftd v in
  let level := f_level v in
  let line := line_ftd in
  let* line_ftd := foldM (format_assignment line spacey) (f_pos_eq v) line_ftd in
  let line := line_ftd in
  let* line_parts := two_sided spacey (separate_strings line) in
  let line := concat line_parts in
  let line := format_labels line in
  let line := if negb auto_format then line_orig else line in
  let* linebreak_pos_ftd := lift (shift_linebreaks line line_orig linebreak_pos) in
  let* lines_out := lift (break_lines line linebreak_pos_ftd ampersand_sep) in
  let* _ := when (negb (level =? 0)) (logger INFO unpaired) in
  ret lines_out.

(* ================================================================= *)
(** ** [inspect_ffile_format] and [reformat_ffile] *)

(** One answer of [InputStream.next_fortran_line]: the logical line, the
    comments and the physical lines it was assembled from, and the
    stream's line number after reading it.  The stream itself belongs to
    [fparse_utils]; a file is given here by the answers it produces, the
    same on each pass. *)
Record fortran_line : Type := mk_fline {
  fl_f_line : str;
  fl_comments : list str;
  fl_lines : list str;
  fl_line_nr : Z
}.

(** The answers up to the first one without lines ([if not lines: break]). *)
Fixpoint until_eof (stream : list fortran_line) : list fortran_line :=
  match stream with
  | [] => []
  | fl :: rest => match fl_lines fl with
                  | [] => []
                  | _ => fl :: until_eof rest
                  end
  end.

Definition leading_blanks (l : str) : Z := len l - len (lstrip_blank l).

Record inspection : Type := mk_inspection {
  in_indents : list Z;
  in_first_indent : Z;
  in_prev_offset : Z;
  in_num_labels : bool
}.

Definition inspect_line (indent_size : Z) (v : inspection) (fl : fortran_line)
  : inspection :=
  let adopt := indent_size <=? 0 in
  let f_line := fl_f_line fl in
  let offset := leading_blanks (hd [] (fl_lines fl)) in
  let first_indent :=
    if (nonempty (strip f_line) && (in_first_indent v =? -1))%bool
    then offset else in_first_indent v in
  let step := offset - in_prev_offset v in
  (* do not adopt indentations but impose fixed rel. ind.
     but don't impose indentation for blocked do/if constructs *)
  let step :=
    if (negb adopt
        && (negb (in_prev_offset v =? offset)
            || (negb (search IF_RE f_line) && negb (search DO_RE f_line))))%bool
    then indent_size else step in
  mk_inspection (in_indents v ++ [step]) first_indent offset
                (in_num_labels v || search F77_STYLE f_line)%bool.

(** [inspect_ffile_format]: [(indents, first_indent, modern_fortran)] *)
Definition inspect_ffile_format (stream : list fortran_line) (indent_size : Z)
  : list Z * Z * bool :=
  let v := fold_left (inspect_line indent_size) (until_eof stream)
                     (mk_inspection [] (-1) 0 false) in
  (in_indents v, in_first_indent v, negb (in_num_labels v)).

Definition FORMATTER_ERROR_MESSAGE : string :=
  " Wrong usage of formatting-specific directives '&', '!&', '!&<' or '!&>'.".

(** The variables of [reformat_ffile] that live across logical lines, and
    the text written to [outfile], one entry per [write]. *)
Record pipeline : Type := mk_pipeline {
  indenter : F90Indenter;
  nfl : nat;
  do_indent : bool;
  use_same_line : bool;
  skip_blank : bool;
  in_manual_block : bool;
  outfile : list str
}.

Definition pipeline_init : pipeline :=
  mk_pipeline F90Indenter_init 0 true false false false [].

Definition set_indenter (i : F90Indenter) (p : pipeline) : pipeline :=
  mk_pipeline i (nfl p) (do_indent p) (use_same_line p) (skip_blank p)
              (in_manual_block p) (outfile p).
Definition set_nfl (n : nat) (p : pipeline) : pipeline :=
  mk_pipeline (indenter p) n (do_indent p) (use_same_line p) (skip_blank p)
              (in_manual_block p) (outfile p).
Definition set_do_indent (b : bool) (p : pipeline) : pipeline :=
  mk_pipeline (indenter p) (nfl p) b (use_same_line p) (skip_blank p)
              (in_manual_block p) (outfile p).
Definition set_use_same_line (b : bool) (p : pipeline) : pipeline :=
  mk_pipeline (indenter p) (nfl p) (do_indent p) b (skip_blank p)
              (in_manual_block p) (outfile p).
Definition set_skip_blank (b : bool) (p : pipeline) : pipeline :=
  mk_pipeline (indenter p) (nfl p) (do_indent p) (use_same_line p) b
              (in_manual_block p) (outfile p).
Definition set_in_manual_block (b : bool) (p : pipeline) : pipeline :=
  mk_pipeline (indenter p) (nfl p) (do_indent p) (use_same_line p) (skip_blank p)
              b (outfile p).
Definition write (text : str) (p : pipeline) : pipeline :=
  mk_pipeline (indenter p) (nfl p) (do_indent p) (use_same_line p) (skip_blank p)
              (in_manual_block p) (outfile p ++ [text]).

(** [any(comments)] *)
Definition any_nonempty (l : list str) : bool := existsb nonempty l.

Definition comment_lines_of (lines comments : list str) : list str :=
  flat_map (fun lc : str * str =>
              let '(line, comment) := lc in
              let has_comment := nonempty (strip comment) in
              let sep := (has_comment && negb (str_eqb (strip comment) (strip line)))%bool in
              (* empty lines between linebreaks are ignored *)
              if nonempty (strip line)
              then [spaces (bool_Z sep) ++ strip comment]
              else [])
           (combine lines comments).

(** The manual-region directives [!&<] and [!&>] of a one-line statement. *)
Definition check_directive (lines : list str) : M pipeline unit :=
  match lines with
  | [line0] =>
      let* in_block := gets in_manual_block in
      let* valid1 :=
        if startswith (strip line0) (s_ "!&<")
        then if in_block then ret false
             else let* _ := modify (set_in_manual_block true) in ret true
        else ret true in
      let* in_block := gets in_manual_block in
      let* valid2 :=
        if startswith (strip line0) (s_ "!&>")
        then if negb in_block then ret false
             else let* _ := modify (set_in_manual_block false) in ret valid1
        else ret valid1 in
      if negb valid2
      then raise (fprettifyParseException FORMATTER_ERROR_MESSAGE)
      else ret tt
  | _ => ret tt
  end.

(** an ampersand at the start of a line (group 1 with the blanks after
    it), and the blanks (group 1) before the ampersand that ends a line;
    both compiled without flags *)
Definition PRE_AMP_RE : regex := SOL_STR ;; Grp 1 (lit_cs "&" ;; ws).
Definition AMP_SEP_RE : regex :=
  Grp 1 ws ;; lit_cs "&" ;; ws ;; Opt (lit_cs "!" ;; dot_star) ;; Eol.

(** [l[i - 1]] for [0 <= i]: position -1 is the last element. *)
Definition index_before {A} (l : list A) (i : nat) : outcome A :=
  match i with
  | O => index_m1 l
  | S j => index l j
  end.

(** ampersands at line starts are remembered ([pre_ampersand]) together
    with the number of separating blanks before the ampersand at the end
    of the line before ([ampersand_sep]) *)
Definition ampersands (lines : list str) : outcome (list str * list Z) :=
  fold_left (fun (acc : outcome (list str * list Z)) (pl : nat * str) =>
               let '(pos, line) := pl in
               match acc with
               | Raise e => Raise e
               | Ok (pre_ampersand, ampersand_sep) =>
                   match search_m PRE_AMP_RE line with
                   | Some m =>
                       match index_before lines pos with
                       | Raise e => Raise e
                       | Ok prev =>
                           match search_m AMP_SEP_RE prev with
                           | Some m' =>
                               Ok (pre_ampersand ++ [group line m 1],
                                   ampersand_sep ++ [len (group prev m' 1)])
                           | None =>
                               Raise (fprettifyParseException
                                        "Bad continuation line format")
                           end
                       end
                   | None =>
                       Ok (pre_ampersand ++ [[]],
                           if Nat.ltb 0 pos then ampersand_sep ++ [1]
                           else ampersand_sep)
                   end
               end)
            (enumerate lines) (Ok ([], [])).

Definition is_amp (c : ascii) : bool := ch_eqb c "&".

(** find linebreak positions *)
Definition find_linebreaks (lines : list str) : list Z :=
  let found_in (line : str) : option nat :=
    fold_left (fun found (pc : nat * ascii) =>
                 if is_amp (snd pc) then Some (fst pc) else found)
              (CharFilter (enumerate line)) None in
  let linebreak_pos :=
    flat_map (fun line =>
                match found_in line with
                | Some (S n) => [Z.of_nat (S n)]
                | _ => if startswith (lstrip_blank line) [bang] then [0] else []
                end)
             lines in
  map (fun i => fold_right Z.add 0 (firstn (i + 1) linebreak_pos) - 1)
      (seq 0 (length linebreak_pos)).

(** we need to insert comments in formatted lines *)
Definition insert_comments (lines comment_lines : list str) : list str :=
  let n := length lines in
  let changed :=
    map (fun plc : nat * (str * str) =>
           let '(pos, (line, comment)) := plc in
           let has_nl := if Nat.ltb pos (n - 1) then true
                         else negb (search EOL_SC line) in
           rstrip_blank line ++ comment ++ times [nl] (bool_Z has_nl))
        (enumerate (combine lines comment_lines)) in
  changed ++ skipn (length changed) lines.

(** recover ampersands at line start *)
Definition recover_ampersands (pre_ampersand : list str) (lines : list str)
           (indent : list Z) : outcome (list str * list Z) :=
  fold_left (fun (acc : outcome (list str * list Z)) (pl : nat * str) =>
               let '(pos, line) := pl in
               match acc with
               | Raise e => Raise e
               | Ok (lines', indent') =>
                   match index pre_ampersand pos with
                   | Raise e => Raise e
                   | Ok amp_insert =>
                       if nonempty amp_insert
                       then match index indent' pos with
                            | Raise e => Raise e
                            | Ok v =>
                                match set_nth indent' pos (v + -1),
                                      set_nth lines' pos (amp_insert ++ line) with
                                | Ok i2, Ok l2 => Ok (l2, i2)
                                | Raise e, _ => Raise e
                                | _, Raise e => Raise e
                                end
                            end
                       else Ok (lines', indent')
                   end
               end)
            (enumerate lines) (Ok (lines, indent)).

(** get actual line length excluding comment *)
Definition line_length_of (line : str) : Z :=
  Z.of_nat (fold_left (fun _ (pc : nat * ascii) => fst pc)
                      (CharFilter (enumerate line)) 0%nat) + 1.

Definition limit_warning : string :=
  "auto indentation failed due to 132 chars limit, line should be splitted".

(** The output guard: what is written for one physical line, and whether
    the warning is logged. *)
Definition guarded_line (ind_use : Z) (is_omp_conditional : bool)
           (line orig_line : str) : str * bool :=
  let line_length := line_length_of line in
  let omp := bool_Z is_omp_conditional in
  if ind_use + line_length <=? 133 then  (* 132 plus 1 newline char *)
    (times (s_ "!$") omp
       ++ spaces (ind_use - 2 * omp + len line - len (lstrip_blank line))
       ++ lstrip_blank line, false)
  else if line_length <=? 133 then
    (times (s_ "!$") omp
       ++ spaces (133 - 2 * omp - len (lstrip_blank line))
       ++ lstrip_blank line, true)
  else (orig_line, true).

Definition write_line (first_indent : Z) (is_omp_conditional : bool)
           (ilo : Z * (str * str)) : M pipeline unit :=
  let '(ind, (line, orig_line)) := ilo in
  let* do_ind := gets do_indent in
  let* same := gets use_same_line in
  let ind_use := if do_ind then ind + first_indent
                 else if same then 1 else 0 in
  let '(text, warn) := guarded_line ind_use is_omp_conditional line orig_line in
  let* _ := modify (write text) in
  when warn (logger WARNING limit_warning).

(** [\s+$] and [;\s*$] *)
Definition TRAILING_WS_RE : regex := ws1 ;; Eol.
Definition SEMICOLON_END_RE : regex := lit ";" ;; ws ;; Eol.

(** Modelled from the spec: the value of [RE_FLAGS], which
    [re.sub(pattern, repl, l, RE_FLAGS)] receives as its [count]; with the
    case-insensitive flag alone it is 2. *)
Definition RE_FLAGS : nat := 2.

(** What the branches on the statement type hand on to the output loop:
    [None] stands for [continue]. *)
Definition prepared : Type := option (list str * list Z).

(** A statement that is reformatted: the last branch of the loop body. *)
Definition reformat_statement (f_line : str) (lines : list str)
           (comment_lines : list str) (auto_align auto_format : bool)
           (req_indents : list Z) (indent_size whitespace : Z) (line_nr : Z)
  : M pipeline prepared :=
  let manual_lines_indent :=
    if negb auto_align
    then let raw := map (fun l => len l - len (lstrip_by is_amp (lstrip_blank l))) lines in
         map (fun ind => ind - hd 0 raw) raw
    else [] in
  let* (pre_ampersand, ampersand_sep) := lift (ampersands lines) in
  let lines := map (fun l => strip_by is_amp (strip_blank l)) lines in
  let f_line := strip_blank f_line in
  let linebreak_pos := find_linebreaks lines in
  let* lines :=
    zoom (fun _ => tt) (fun _ p => p)
         (format_single_fline f_line whitespace linebreak_pos ampersand_sep
                              auto_format) in
  let lines := insert_comments lines comment_lines in
  let* n := gets nfl in
  let rel_indent := match nth_error req_indents n with
                    | Some v => v
                    | None => 0
                    end in
  let* _ := zoom indenter set_indenter
                 (process_lines_of_fline f_line lines rel_indent indent_size
                                         line_nr manual_lines_indent) in
  let* indent := gets (fun p => get_lines_indent (indenter p)) in
  let* (lines, indent) := lift (recover_ampersands pre_ampersand lines indent) in
  let* _ := modify (fun p => set_indenter (set_line_indents indent (indenter p)) p) in
  ret (Some (lines, indent)).

(** The body of the loop of [reformat_ffile] for one logical line. *)
Definition reformat_fline (req_indents : list Z) (first_indent : Z)
           (indent_size whitespace : Z) (fl : fortran_line) : M pipeline unit :=
  let f_line := fl_f_line fl in
  let comments := fl_comments fl in
  let lines := fl_lines fl in
  let comment_lines := comment_lines_of lines comments in
  let orig_lines := lines in
  let* _ := modify (fun p => set_nfl (S (nfl p)) p) in
  let auto_align := negb (existsb (search NO_ALIGN_RE) lines) in
  let* in_block := gets in_manual_block in
  let auto_format :=
    negb (in_block
          || existsb (fun c => startswith (lstrip c) (s_ "!&")) comment_lines)%bool in
  let auto_align := if negb auto_format then false else auto_align in
  let* _ := check_directive lines in
  let indent := repeat 0 (length lines) in
  let omp := (OMP_RE_match f_line && negb (OMP_DIR_RE_match f_line))%bool in
  (* convert OMP-conditional fortran statements into normal fortran
     statements but remember to convert them back *)
  let f_line := if omp then OMP_RE_sub (s_ "  ") f_line else f_line in
  let lines := if omp then map (OMP_RE_sub (s_ "  ")) lines else lines in
  let is_omp_conditional := omp in
  (* blank line or comment only line *)
  let is_empty := search EMPTY_RE f_line in
  let* todo :=
    if USE_PARSE_RE_match f_line then
      let* _ := modify (set_do_indent false) in ret (Some (lines, indent))
    else if OMP_DIR_RE_match f_line then
      (* move '!$OMP' to line start, otherwise don't format omp directives *)
      let lines := map (fun l => s_ "!$OMP" ++ spaces (len l - len (lstrip l))
                                    ++ OMP_DIR_RE_sub [] l) lines in
      let* _ := modify (set_do_indent false) in ret (Some (lines, indent))
    else if startswith (hd [] lines) (s_ "#") then  (* preprocessor macros *)
      if negb (Nat.eqb (length lines) 1)
      then raise (fprettifyInternalException
                    "Continuation lines for preprocessor statement")
      else let* _ := modify (set_do_indent false) in ret (Some (lines, indent))
    else if search EMPTY_RE f_line then  (* empty lines including comment lines *)
      if negb (Nat.eqb (length lines) 1)
      then raise (fprettifyInternalException "Continuation lines for comment lines")
      else
        let stripped := map strip_blank lines in
        if any_nonempty comments then
          if startswith (hd [] lines) [bang] then
            (* don't indent unindented comments *)
            let* _ := modify (set_do_indent false) in ret (Some (stripped, indent))
          else
            let* ind0 := gets (fun p => get_fline_indent (indenter p)) in
            let* ind0 := lift ind0 in
            let* indent := lift (set_nth indent 0 ind0) in
            ret (Some (stripped, indent))
        else
          let* skip := gets skip_blank in
          if skip then ret None
          else let* _ := modify (set_do_indent false) in ret (Some (stripped, indent))
    else
      reformat_statement f_line lines comment_lines auto_align auto_format
                         req_indents indent_size whitespace (fl_line_nr fl) in
  match todo with
  | None => ret tt
  | Some (lines, indent) =>
      (* deleting trailing whitespaces *)
      let lines := map (fun l => subst TRAILING_WS_RE [nl] l RE_FLAGS) lines in
      let* _ := forM (write_line first_indent is_omp_conditional)
                     (combine indent (combine lines orig_lines)) in
      (* no indentation of semicolon separated lines *)
      let* _ :=
        if search SEMICOLON_END_RE f_line
        then let* _ := modify (set_do_indent false) in modify (set_use_same_line true)
        else let* _ := modify (set_do_indent true) in modify (set_use_same_line false) in
      (* rm subsequent blank lines *)
      modify (set_skip_blank (is_empty && negb (any_nonempty comments))%bool)
  end.

(** [reformat_ffile]: main method to be invoked for formatting a Fortran
    file *)
Definition reformat_ffile (stream : list fortran_line)
           (indent_size whitespace : Z) : M pipeline unit :=
  let* _ := modify (fun _ => pipeline_init) in
  let '(req_indents, first_indent, modern) :=
    inspect_ffile_format stream indent_size in
  if negb modern
  then raise (fprettifyParseException
                "fprettify can not format fixed format or f77 constructs")
  else forM (reformat_fline req_indents first_indent indent_size whitespace)
            (until_eof stream).

End Fparse.

(* ================================================================= *)
(** ** Vocabulary of the properties *)

Definition dbg (f_line : str) (n : nat) : record := (DEBUG, debug_msg n f_line).

Definition con_logs (f_line : str) (scopes cons : list nat) : list record :=
  match index_m1 scopes with
  | Ok what => map (dbg f_line) (filter (Nat.eqb what) cons)
  | Raise _ => []
  end.

Definition only_debug (logs : list record) : Prop :=
  Forall (fun r : record => fst r = DEBUG) logs.

Definition commutes {S A} (h : S -> S) (m : M S A) : Prop :=
  forall s, m (h s) = mk_result (out (m s)) (h (post (m s))) (emitted (m s)).

(** Changing the two stacks of the tracker and nothing else. *)
Definition restack (F : list nat -> list nat) (G : list Z -> list Z)
           (s : F90Indenter) : F90Indenter :=
  mk_indenter (F (scope_storage s)) (G (indent_storage s)) (line_indents s)
              (aligner s).

Definition invalid_new : record := (INFO, "invalid new statement"%string).

Definition invalid_con : record := (INFO, "invalid continue statement"%string).

Definition invalid_end : record := (INFO, "invalid end statement"%string).

(** The nesting depth of bracket delimiters along a fragment: an opening
    token raises it, a closing token lowers it unless it is 0 already, and
    the second character of a token of two characters is passed over.
    The pair is the depth and the position where the last token ended. *)
Definition depth_open (window : str) (pos : nat) (what_del_open : option mtch)
           (v : Z * Z) : Z * Z :=
  match what_del_open with
  | Some m => (fst v + 1, Z.of_nat pos + len (group0 window m) - 1)
  | None => v
  end.

Definition depth_close (window : str) (pos : nat) (what_del_close : option mtch)
           (v : Z * Z) : Z * Z :=
  match what_del_close with
  | Some m => (if 0 <? fst v then fst v - 1 else fst v,
               Z.of_nat pos + len (group0 window m) - 1)
  | None => v
  end.

Definition depth_step (line : str) (v : Z * Z) (pc : nat * ascii) : Z * Z :=
  let pos := fst pc in
  let window := sub line pos (pos + 2) in
  let at_delim := Z.of_nat pos =? snd v in
  let what_del_open := if at_delim then None else match_m DEL_OPEN_RE window in
  let what_del_close := if at_delim then None else match_m DEL_CLOSE_RE window in
  depth_close window pos what_del_close (depth_open window pos what_del_open v).

(** The characters around an equals sign that make
    [__align_line_continuations] take it for part of a relational
    operator (its test is [REL_OP_RE.match] on the three characters that
    start one before the sign): the sign follows [=], [/], [<] or [>],
    or it is followed by [=] and stands at the start of the fragment or
    behind whitespace.  The first sign of an [==] that follows another
    character directly is not taken for one. *)
Definition is_equals (c : option ascii) : bool :=
  match c with
  | Some c => ch_eqb c "="
  | None => false
  end.

Definition relational_context (prev next : option ascii) : bool :=
  match prev with
  | Some c => (one_of "=/<>" c || (is_space c && is_equals next))%bool
  | None => is_equals next
  end.

Definition char_before (line : str) (pos : nat) : option ascii :=
  match pos with
  | O => None
  | S p => nth_error line p
  end.

(** An assignment operator for [__align_line_continuations]: an equals
    sign that is not in such a context. *)
Definition assignment_at (line : str) (pc : nat * ascii) : bool :=
  (ch_eqb (snd pc) "="
   && negb (relational_context (char_before line (fst pc))
                               (nth_error line (fst pc + 1))))%bool.

Definition more_than_one_assignment : exn :=
  fprettifyInternalException
    "found more than one assignment in the same Fortran line".

(** The top-level assignment operators of a fragment: the positions,
    among the characters outside strings and comments, of the assignment
    operators in the sense of [assignment_at] that stand at nesting
    depth 0 (the depth is [level] where the fragment starts).  In
    [flag = a==b] these are the first equals sign and the first sign of
    the [==]. *)
Fixpoint top_level_assignments_from (line : str) (chars : list (nat * ascii))
         (v : Z * Z) : list nat :=
  match chars with
  | [] => []
  | pc :: rest =>
      let v' := depth_step line v pc in
      (if ((fst v' =? 0) && assignment_at line pc)%bool then [fst pc] else [])
        ++ top_level_assignments_from line rest v'
  end.

Definition top_level_assignments (line : str) (level : Z) : list nat :=
  top_level_assignments_from line (CharFilter (enumerate line)) (level, -1).

Definition pos_lt (a b : nat * ascii) : Prop := (fst a < fst b)%nat.

(** A computation that, started in a state satisfying [P], ends (when it
    returns) with a value and a state satisfying [Q]. *)
Definition hoare {S A} (P : S -> Prop) (m : M S A) (Q : A -> S -> Prop) : Prop :=
  forall s, P s -> forall a, out (m s) = Ok a -> Q a (post (m s)).

(** A computation that, started in a state satisfying [P], returns, with
    a value and a state satisfying [Q]. *)
Definition returns {S A} (P : S -> Prop) (m : M S A) (Q : A -> S -> Prop) : Prop :=
  forall s, P s -> exists a, out (m s) = Ok a /\ Q a (post (m s)).

(** The aligner's list of targets holds the base entry [base] below
    [rest], with at most one entry of [rest] per open delimiter level;
    the other fields are [li], [nr] and [lv]. *)
Definition targets (base : Z) (li : list Z) (nr lv : Z) (level : Z)
           (a : F90Aligner) : Prop :=
  exists rest,
    al_br_indent_list a = base :: rest
    /\ 0 <= level <= zlen rest
    /\ al_line_indents a = li /\ al_line_nr a = nr /\ al_level a = lv.

(** A character outside string literals and comments for [CharFilter]:
    no quote and no exclamation mark. *)
Definition code_char (c : ascii) : bool :=
  negb (ch_eqb c bang || ch_eqb c dquote || ch_eqb c squote)%bool.

(** A computation that leaves the component [f] of the state as it is,
    whatever its outcome. *)
Definition preserves {S T A} (f : S -> T) (m : M S A) : Prop :=
  forall s, f (post (m s)) = f s.

(** The directive tests of [reformat_ffile] on the only line of a
    statement. *)
Definition opens_manual (line0 : str) : bool := startswith (strip line0) (s_ "!&<").
Definition closes_manual (line0 : str) : bool := startswith (strip line0) (s_ "!&>").

Definition directive_error : exn := fprettifyParseException FORMATTER_ERROR_MESSAGE.

(** The answer of [VAR_DECL_RE.match] on lines that are no declarations,
    and on declarations. *)
Definition not_a_declaration (_ : str) : bool := false.
Definition a_declaration (_ : str) : bool := true.

(** Example states of the tracker: inside a conditional, and inside a
    function, each entered at indent 0 with a step of 3. *)
Definition in_conditional : F90Indenter := mk_indenter [0%nat] [0; 3] [] (init_line 0).
Definition in_function : F90Indenter := mk_indenter [4%nat] [0; 3] [] (init_line 0).

Definition line_of (s : string) : str := s_ s ++ [nl].

(** The answers of the patterns of [fparse_utils] on example lines that
    none of them matches: no match, and nothing substituted. *)
Definition no_match (_ : str) : bool := false.
Definition nothing_substituted (_ s : str) : str := s.

(** A pipeline inside a manual block. *)
Definition inside_manual_block : pipeline := set_in_manual_block true pipeline_init.

(** The statement made of the line [text] alone, which is a comment. *)
Definition comment_statement (text : string) : fortran_line :=
  mk_fline (s_ text) [s_ text] [line_of text] 1.

(** A line of code with a trailing comment of 140 characters, and the
    line it was made from. *)
Definition long_comment_line : str := s_ "x = 1 !" ++ repeat "c"%char 140 ++ [nl].
Definition long_comment_orig : str := s_ "x=1 !" ++ repeat "c"%char 140 ++ [nl].

(** The length of a line without its final newline. *)
Definition content_length (line : str) : Z := len (rstrip_by (ch_eqb nl) line).

(** Whether [s] starts with the word [w], letter case apart. *)
Fixpoint prefix_ci (s w : str) {struct w} : bool :=
  match w, s with
  | [], _ => true
  | a :: w', b :: s' => (ch_eqb (lower b) (lower a) && prefix_ci s' w')%bool
  | _ :: _, [] => false
  end.

(** Whether two words agree, letter case apart, as far as the shorter
    one goes. *)
Fixpoint agree_ci (v w : str) : bool :=
  match v, w with
  | a :: v', b :: w' => (ch_eqb (lower a) (lower b) && agree_ci v' w')%bool
  | _, _ => true
  end.

(** Where the first word of a line starts, and where the word after a
    leading [END] and the blanks behind it starts. *)
Definition first_word (s : str) : nat := run is_space s.
Definition after_end (s : str) : nat :=
  let j := (first_word s + 3)%nat in (j + run is_space (skipn j s))%nat.

(** The keyword that each pattern of [END_SCOPE_RE] asks for behind
    [END], and the keywords that the patterns of [CONTINUE_SCOPE_RE]
    start with. *)
Definition END_KEYWORDS : list string :=
  ["IF"; "DO"; "SELECT"; "SUBROUTINE"; "FUNCTION"; "MODULE"; "PROGRAM";
   "INTERFACE"; "TYPE"; "ENUM"]%string.
Definition CONTINUE_KEYWORDS : list string := ["ELSE"; "CASE"; "CONTAINS"]%string.

(** Modelled from the spec: the line assembler ([InputStream], which is
    not among the sources) on a physical line that holds one plain
    statement, without continuation marker, comment or statement
    separator.  The specification describes a LogicalLine as the
    reconstructed full statement text plus its ordered list of
    PhysicalFragments (raw text, associated trailing comment, source line
    number): here the logical text is the line without its newline, and
    the only fragment is the raw line, with no comment. *)
Definition plain_statement (raw : str) (nr : Z) : fortran_line :=
  mk_fline (rstrip_by (ch_eqb nl) raw) [[]] [raw] nr.

Definition plain_file (lines : list str) : list fortran_line :=
  map (fun pl : nat * str => plain_statement (snd pl) (Z.of_nat (fst pl) + 1))
      (enumerate lines).

(** What [reformat_ffile] writes for a file of plain statements that no
    pattern of [fparse_utils] matches, at the default settings. *)
Definition reformat_plain (lines : list str) : list str :=
  outfile (post (reformat_ffile no_match no_match no_match nothing_substituted
                                no_match nothing_substituted
                                (plain_file lines) 3 2 pipeline_init)).

(** A line of [n] blanks, a text and a newline; a statement of 40
    characters. *)
Definition indented (n : nat) (text : string) : str :=
  repeat blank n ++ s_ text ++ [nl].
Definition long_statement : string := "x = aaaaaaaaaaaaaaaaaaaaaaaaaaaaaaaaaaaa".

(* ================================================================= *)
(** ** Vocabulary of the further properties *)

(** A computation all of whose log records satisfy [P], whatever its
    outcome. *)
Definition emits {S A} (P : record -> Prop) (m : M S A) : Prop :=
  forall s, Forall P (emitted (m s)).

(** The records of the aligner and of the tracker below the debug level. *)
Definition unpaired_record : record := (INFO, unpaired).

Definition tracker_record (r : record) : Prop :=
  fst r = DEBUG \/ r = unpaired_record \/ r = invalid_con \/ r = invalid_end.

(** A computation that keeps the property [I] of the state, whatever its
    outcome. *)
Definition keeps {S A} (I : S -> Prop) (m : M S A) : Prop :=
  forall s, I s -> I (post (m s)).

(** The indents of the fragments of a statement of [n] fragments before
    the shift by a frame: one entry per fragment, the first one 0. *)
Definition raw_offsets (n : nat) (l : list Z) : Prop :=
  length l = n /\ (n <> 0%nat -> hd_error l = Some 0).

(** The state of an aligner whose list of targets has its base entry and
    at least one more entry per open delimiter level. *)
Definition aligned (a : F90Aligner) : Prop :=
  exists base rest,
    al_br_indent_list a = base :: rest /\ 0 <= al_level a <= zlen rest.

(** The start of the scan of a fragment. *)
Definition scan_start (level : Z) : scan := mk_scan level 0 [] [] [] [] (-1).

(** The column where a statement starts: the number of leading blanks of
    its first physical line; and the column where the statement before
    position [k] of a file starts, which is 0 before the first statement
    (the initial [prev_offset]). *)
Definition offset_of (fl : fortran_line) : Z := leading_blanks (hd [] (fl_lines fl)).

Definition offset_before (file : list fortran_line) (k : nat) : Z :=
  match k with
  | O => 0
  | S j => match nth_error file j with
           | Some fl => offset_of fl
           | None => 0
           end
  end.

(** The tests of [inspect_ffile_format] on a statement: the header of a
    conditional or of a loop, a statement that is not blank, and a
    statement in the style of Fortran 77. *)
Definition blocked_header (fl : fortran_line) : bool :=
  (search IF_RE (fl_f_line fl) || search DO_RE (fl_f_line fl))%bool.

Definition has_text (fl : fortran_line) : bool := nonempty (strip (fl_f_line fl)).

Definition f77_statement (fl : fortran_line) : bool := search F77_STYLE (fl_f_line fl).

Definition f77_error : exn :=
  fprettifyParseException "fprettify can not format fixed format or f77 constructs".

(** A computation all of whose exceptions satisfy [P]. *)
Definition raises_only {S A} (P : exn -> Prop) (m : M S A) : Prop :=
  forall s e, out (m s) = Raise e -> P e.

(** The whitespace levels that [format_single_fline] supports, the error
    for any other level, and the errors that are left at a supported
    level. *)
Definition supported (whitespace : Z) : Prop :=
  whitespace = 0 \/ whitespace = 1 \/ whitespace = 2.

Definition unknown_whitespace : exn :=
  NotImplementedError "unknown value for whitespace".

Definition formatter_error (e : exn) : Prop := e = IndexError \/ e = failed_break.

Definition index_error (e : exn) : Prop := e = IndexError.

(** [re.sub(r"\s+$", '\n', l, RE_FLAGS)]: deleting trailing whitespaces. *)
Definition tidy (l : str) : str := subst TRAILING_WS_RE [nl] l RE_FLAGS.

(** What the output guard leaves of a line written at indent 0: the line,
    or the original line when the code part is longer than the limit. *)
Definition copied (line orig_line : str) : str :=
  if line_length_of line <=? 133 then line else orig_line.

(** A line that is no manual-region directive. *)
Definition no_directive (l : str) : Prop :=
  opens_manual l = false /\ closes_manual l = false.

Definition preprocessor_continuation : exn :=
  fprettifyInternalException "Continuation lines for preprocessor statement".

Definition comment_continuation : exn :=
  fprettifyInternalException "Continuation lines for comment lines".

Definition bad_continuation : exn :=
  fprettifyParseException "Bad continuation line format".

(** The flags that a written statement leaves for the next one: no
    indentation after a statement that ends with a semicolon. *)
Definition after_statement (f_line : str) (blank_line : bool) (p : pipeline)
  : pipeline :=
  set_skip_blank blank_line
    (if search SEMICOLON_END_RE f_line
     then set_use_same_line true (set_do_indent false p)
     else set_use_same_line false (set_do_indent true p)).

(** A line that starts with an ampersand although the line before it
    does not end with one; the line before the first line is the last
    line ([lines[pos - 1]] at position 0). *)
Definition bad_continuation_at (lines : list str) (pl : nat * str) : bool :=
  (search PRE_AMP_RE (snd pl)
   && match index_before lines (fst pl) with
      | Ok prev => negb (search AMP_SEP_RE prev)
      | Raise _ => false
      end)%bool.

(** The lines for which [ampersand_sep] gets an entry: those that start
    with an ampersand, and all lines after the first. *)
Definition has_separator (pl : nat * str) : bool :=
  (search PRE_AMP_RE (snd pl) || Nat.ltb 0 (fst pl))%bool.

(** Examples.  An answer of [USE_PARSE_RE.match]: the lines that start
    with the word USE; a blank statement; a small file (a conditional
    with a nested conditional that starts in the column of the statement
    before it), and the same file after a statement with a label. *)
Definition use_line (l : str) : bool := prefix_ci (lstrip l) (s_ "use").

Definition blank_statement : fortran_line := mk_fline [] [[]] [[nl]] 1.

Definition nested_file : list fortran_line :=
  plain_file [indented 2 "if (a) then"; indented 4 "x = 1";
              indented 4 "if (b) then"; indented 6 "y = 2";
              indented 4 "end if"; indented 2 "end if"].

Definition labelled_file : list fortran_line :=
  plain_file [indented 0 "10 continue"] ++ nested_file.

Definition after_blank : pipeline := set_skip_blank true pipeline_init.

(** A line without its blanks, and two texts one of which starts with
    the other. *)
Definition squeeze (s : str) : str := filter (fun c => negb (is_blank c)) s.

Definition prefix_related (a b : str) : Prop :=
  exists t, b = a ++ t \/ a = b ++ t.

(** Every character, and every character or none, for the properties
    that are settled by running through all of them. *)
Definition all_ascii : list ascii := map ascii_of_nat (seq 0 256).

Definition all_contexts : list (option ascii) := None :: map Some all_ascii.

Definition option_text (c : option ascii) : str :=
  match c with
  | Some c => [c]
  | None => []
  end.

(** Example states of the tracker: inside a SELECT CASE construct, and
    inside a loop, each entered at indent 0 with a step of 3. *)
Definition in_select : F90Indenter := mk_indenter [2%nat] [0; 3] [] (init_line 0).
Definition in_loop : F90Indenter := mk_indenter [1%nat] [0; 3] [] (init_line 0).


(* ================================================================= *)
(** * Properties *)

(** ** Python lists *)

Lemma index_m1_snoc {A} (l : list A) (x : A) : index_m1 (l ++ [x]) = Ok x.
Proof. unfold index_m1. rewrite rev_app_distr. reflexivity. Qed.

Lemma index_m2_snoc {A} (l : list A) (y x : A) : index_m2 (l ++ [y; x]) = Ok y.
Proof. unfold index_m2. rewrite rev_app_distr. reflexivity. Qed.

Lemma pop_last_snoc {A} (l : list A) (x : A) : pop_last (l ++ [x]) = Ok (x, l).
Proof. unfold pop_last. rewrite rev_app_distr. simpl. now rewrite rev_involutive. Qed.

Lemma snoc_cases {A} (l : list A) : l = [] \/ exists l' x, l = l' ++ [x].
Proof.
  destruct (rev l) as [|x r] eqn:E.
  - left. rewrite <- (rev_involutive l), E. reflexivity.
  - right. exists (rev r), x. rewrite <- (rev_involutive l), E. reflexivity.
Qed.

Lemma zlen_pos_snoc {A} (l : list A) (x : A) : (0 <? zlen (l ++ [x])) = true.
Proof.
  unfold zlen. rewrite length_app. simpl. apply Z.ltb_lt. lia.
Qed.

Lemma pop_last_nil {A} : @pop_last A [] = Raise IndexError.
Proof. reflexivity. Qed.

Lemma shift_all_ok (l : list Z) (x : Z) :
  shift_all l (Ok x) = Ok (map (fun ind => ind + x) l).
Proof. destruct l; reflexivity. Qed.

(** ** The state monad *)

Lemma bind_ok {S A B} (m : M S A) (f : A -> M S B) s a s1 e1 :
  m s = mk_result (Ok a) s1 e1 ->
  bind m f s = mk_result (out (f a s1)) (post (f a s1)) (e1 ++ emitted (f a s1)).
Proof. intros H. unfold bind. rewrite H. reflexivity. Qed.

Lemma bind_raise {S A B} (m : M S A) (f : A -> M S B) s e s1 e1 :
  m s = mk_result (Raise e) s1 e1 ->
  bind m f s = mk_result (Raise e) s1 e1.
Proof. intros H. unfold bind. rewrite H. reflexivity. Qed.

Lemma result_eta {S A} (r : result S A) :
  r = mk_result (out r) (post r) (emitted r).
Proof. destruct r; reflexivity. Qed.

Lemma result_nil_l {S A} (r : result S A) :
  mk_result (out r) (post r) ([] ++ emitted r) = r.
Proof. destruct r; reflexivity. Qed.

Lemma bind_ret {S A B} (a : A) (k : A -> M S B) s : bind (ret a) k s = k a s.
Proof. unfold bind, ret. cbn. apply result_nil_l. Qed.

Lemma bind_gets {S A B} (f : S -> A) (k : A -> M S B) s :
  bind (gets f) k s = k (f s) s.
Proof. unfold bind, gets. cbn. apply result_nil_l. Qed.

Lemma bind_modify {S B} (f : S -> S) (k : unit -> M S B) s :
  bind (modify f) k s = k tt (f s).
Proof. unfold bind, modify. cbn. apply result_nil_l. Qed.

Lemma bind_lift_ok {S A B} (a : A) (k : A -> M S B) s :
  bind (lift (Ok a)) k s = k a s.
Proof. unfold bind, lift. cbn. apply result_nil_l. Qed.

Lemma bind_lift_raise {S A B} (e : exn) (k : A -> M S B) s :
  bind (lift (Raise e)) k s = mk_result (Raise e) s [].
Proof. reflexivity. Qed.

Lemma bind_raise_l {S A B} (e : exn) (k : A -> M S B) s :
  bind (raise e) k s = mk_result (Raise e) s [].
Proof. reflexivity. Qed.

Lemma bind_logger {S B} (l : level) (msg : string) (k : unit -> M S B) s :
  bind (logger l msg) k s
  = mk_result (out (k tt s)) (post (k tt s)) ((l, msg) :: emitted (k tt s)).
Proof. reflexivity. Qed.

Lemma bind_assoc {S A B C} (m : M S A) (f : A -> M S B) (k : B -> M S C) s :
  bind (bind m f) k s = bind m (fun a => bind (f a) k) s.
Proof.
  unfold bind. destruct (m s) as [[a|e] s1 e1]; cbn; [|reflexivity].
  destruct (f a s1) as [[b|e] s2 e2]; cbn; [|reflexivity].
  now rewrite app_assoc.
Qed.

Lemma ret_run {S A} (a : A) (s : S) : ret a s = mk_result (Ok a) s [].
Proof. reflexivity. Qed.

Lemma modify_run {S} (f : S -> S) (s : S) : modify f s = mk_result (Ok tt) (f s) [].
Proof. reflexivity. Qed.

Lemma logger_run {S} (l : level) (msg : string) (s : S) :
  logger l msg s = mk_result (Ok tt) s [(l, msg)].
Proof. reflexivity. Qed.

Lemma lift_run {S A} (o : outcome A) (s : S) : lift o s = mk_result o s [].
Proof. reflexivity. Qed.

Lemma raise_run {S A} (e : exn) (s : S) : @raise S A e s = mk_result (Raise e) s [].
Proof. reflexivity. Qed.

Ltac mstep :=
  cbv beta iota;
  first [ rewrite bind_assoc | rewrite bind_ret | rewrite bind_gets
        | rewrite bind_modify | rewrite bind_lift_ok | rewrite bind_lift_raise
        | rewrite bind_raise_l | rewrite bind_logger
        | rewrite ret_run | rewrite modify_run | rewrite logger_run
        | rewrite lift_run | rewrite raise_run ].

Ltac msimp := repeat mstep; cbv beta iota; cbn [out post emitted].

(** ** The classification loops of the tracker *)


Lemma check_new_loop (f_line : str) (l : list (nat * regex)) :
  Forall (fun nr => (fst nr < length END_SCOPE_RE)%nat) l ->
  forall (b : bool) (s : F90Indenter),
    let ms := map fst (filter (opens f_line) l) in
    foldM (fun (acc : bool * bool) (nr : nat * regex) =>
             let '(new_n, newre) := nr in
             let* endre := lift (index END_SCOPE_RE new_n) in
             if (search newre f_line && negb (search endre f_line))%bool
             then let* _ := modify (set_scopes (fun l => l ++ [new_n])) in
                  let* _ := logger DEBUG (debug_msg new_n f_line) in
                  ret (true, true)
             else ret acc) l (b, b) s
    = mk_result (Ok ((b || nonempty ms)%bool, (b || nonempty ms)%bool))
                (mk_indenter (scope_storage s ++ ms) (indent_storage s)
                             (line_indents s) (aligner s))
                (map (dbg f_line) ms).
Proof.
  induction 1 as [|[n re] l Hn Hl IH]; intros b s; cbn [foldM].
  - cbn. rewrite app_nil_r, orb_false_r. destruct s; reflexivity.
  - cbn [fst] in Hn. cbv zeta. cbn [filter].
    destruct (nth_error END_SCOPE_RE n) as [endre|] eqn:E.
    2:{ apply nth_error_None in E. lia. }
    assert (O : opens f_line (n, re)
                = (search re f_line && negb (search endre f_line))%bool).
    { unfold opens. cbn [fst snd]. rewrite E. reflexivity. }
    rewrite O.
    destruct (search re f_line && negb (search endre f_line))%bool eqn:T.
    + erewrite bind_ok.
      2:{ unfold bind, lift, index, modify, logger, ret. rewrite E. cbn.
          rewrite T. cbn. reflexivity. }
      rewrite IH. cbn. rewrite orb_true_r. rewrite <- app_assoc. reflexivity.
    + erewrite bind_ok.
      2:{ unfold bind, lift, index, modify, logger, ret. rewrite E. cbn.
          rewrite T. cbn. reflexivity. }
      rewrite IH. cbn. reflexivity.
Qed.

Lemma check_new_spec (f_line : str) (s : F90Indenter) :
  let ms := new_matches f_line in
  check_new f_line s
  = mk_result (Ok (nonempty ms, nonempty ms))
              (mk_indenter (scope_storage s ++ ms) (indent_storage s)
                           (line_indents s) (aligner s))
              (map (dbg f_line) ms).
Proof.
  unfold check_new, new_matches.
  apply (check_new_loop f_line (enumerate NEW_SCOPE_RE)).
  repeat constructor.
Qed.


Lemma check_con_loop (f_line : str) (l : list (nat * option regex)) :
  forall (b v : bool) (s : F90Indenter),
    let cs := map fst (filter (continues f_line) l) in
    foldM (fun (acc : bool * bool) (nr : nat * option regex) =>
           let '(con_n, conre) := nr in
           match conre with
           | Some re =>
               if search re f_line
               then let* scopes := gets scope_storage in
                    if 0 <? zlen scopes
                    then let* what := lift (index_m1 scopes) in
                         if Nat.eqb what con_n
                         then let* _ := logger DEBUG (debug_msg con_n f_line) in
                              ret (true, true)
                         else ret (true, snd acc)
                    else ret (true, snd acc)
               else ret acc
           | None => ret acc
           end) l (b, v) s
    = mk_result (Ok ((b || nonempty cs)%bool,
                     (v || valid_con_of (scope_storage s) cs)%bool))
                s (con_logs f_line (scope_storage s) cs).
Proof.
  induction l as [|[n [re|]] l IH]; intros b v s; cbn [foldM]; cbv zeta.
  - unfold valid_con_of, con_logs. cbn.
    destruct (index_m1 (scope_storage s)); cbn; now rewrite !orb_false_r.
  - cbn [filter].
    assert (C : continues f_line (n, Some re) = search re f_line) by reflexivity.
    rewrite !C. clear C.
    unfold valid_con_of, con_logs.
    destruct (search re f_line) eqn:T.
    + rewrite bind_assoc. msimp. cbn [map fst nonempty existsb filter].
      destruct (snoc_cases (scope_storage s)) as [E|(sc & top & E)].
      * rewrite !E. cbn [zlen length Z.of_nat Z.ltb Z.compare]. msimp.
        rewrite IH. unfold valid_con_of, con_logs. rewrite !E. cbn.
        destruct b, v; reflexivity.
      * rewrite !E, zlen_pos_snoc, !index_m1_snoc. msimp.
        destruct (Nat.eqb top n) eqn:K; msimp; rewrite IH;
          unfold valid_con_of, con_logs; rewrite !E, !index_m1_snoc; cbn;
          destruct b, v; reflexivity.
    + msimp. rewrite IH. reflexivity.
  - cbn [filter].
    assert (C : continues f_line (n, None) = false) by reflexivity.
    rewrite !C. clear C.
    msimp. rewrite IH. reflexivity.
Qed.

Lemma check_con_spec (f_line : str) (s : F90Indenter) :
  let cs := con_matches f_line in
  check_con f_line s
  = mk_result (Ok (nonempty cs, valid_con_of (scope_storage s) cs))
              s (con_logs f_line (scope_storage s) cs).
Proof. apply (check_con_loop f_line (enumerate CONTINUE_SCOPE_RE) false false). Qed.


Lemma check_end_loop (f_line : str) (l : list (nat * regex)) :
  forall (b v : bool) (s : F90Indenter),
    let es := map fst (filter (closes f_line) l) in
    exists logs,
      only_debug logs /\
      foldM (fun (acc : bool * bool) (nr : nat * regex) =>
               let '(end_n, endre) := nr in
               if search endre f_line
               then let* scopes := gets scope_storage in
                    if 0 <? zlen scopes
                    then let* p := lift (pop_last scopes) in
                         let* _ := modify (set_scopes (fun _ => snd p)) in
                         if Nat.eqb (fst p) end_n
                         then let* _ := logger DEBUG (debug_msg end_n f_line) in
                              ret (true, true)
                         else ret (true, snd acc)
                    else ret (true, snd acc)
               else ret acc) l (b, v) s
      = mk_result (Ok ((b || nonempty es)%bool,
                       snd (pop_ends (scope_storage s) es v)))
                  (mk_indenter (fst (pop_ends (scope_storage s) es v))
                               (indent_storage s) (line_indents s) (aligner s))
                  logs.
Proof.
  induction l as [|[n re] l IH]; intros b v s; cbn [foldM]; cbv zeta.
  - exists []. split; [constructor|]. cbn. rewrite orb_false_r.
    destruct s; reflexivity.
  - cbn [filter].
    assert (C : closes f_line (n, re) = search re f_line) by reflexivity.
    rewrite !C. clear C.
    destruct (search re f_line) eqn:T.
    + cbn [map fst nonempty pop_ends].
      destruct (snoc_cases (scope_storage s)) as [E|(sc & top & E)].
      * destruct (IH true v s) as (logs & D & R).
        exists logs. split; [exact D|].
        rewrite bind_assoc. msimp.
        rewrite !E. cbn [zlen length Z.of_nat Z.ltb Z.compare]. msimp.
        cbn [snd]. rewrite R. rewrite !E, pop_last_nil, orb_true_r. reflexivity.
      * destruct (Nat.eqb top n) eqn:K.
        -- destruct (IH true true (set_scopes (fun _ => sc) s)) as (logs & D & R).
           exists ((DEBUG, debug_msg n f_line) :: logs).
           split; [constructor; [reflexivity|exact D]|].
           rewrite bind_assoc. msimp.
           rewrite !E, zlen_pos_snoc, !pop_last_snoc. msimp. cbn [fst snd].
           rewrite K. msimp. rewrite R. cbn. rewrite !orb_true_r. reflexivity.
        -- destruct (IH true v (set_scopes (fun _ => sc) s)) as (logs & D & R).
           exists logs. split; [exact D|].
           rewrite bind_assoc. msimp.
           rewrite !E, zlen_pos_snoc, !pop_last_snoc. msimp. cbn [fst snd].
           rewrite K. msimp. rewrite R. cbn. rewrite !orb_true_r, orb_false_r.
           reflexivity.
    + destruct (IH b v s) as (logs & D & R).
      exists logs. split; [exact D|]. msimp. exact R.
Qed.

Lemma check_end_spec (f_line : str) (s : F90Indenter) :
  let es := end_matches f_line in
  exists logs,
    only_debug logs /\
    check_end f_line s
    = mk_result (Ok (nonempty es, snd (pop_ends (scope_storage s) es false)))
                (mk_indenter (fst (pop_ends (scope_storage s) es false))
                             (indent_storage s) (line_indents s) (aligner s))
                logs.
Proof. apply (check_end_loop f_line (enumerate END_SCOPE_RE) false false). Qed.

(** ** Computations that leave a part of the state alone *)


Lemma commutes_ret {S A} (h : S -> S) (a : A) : commutes h (ret a).
Proof. intros s. reflexivity. Qed.

Lemma commutes_raise {S A} (h : S -> S) (e : exn) : commutes h (@raise S A e).
Proof. intros s. reflexivity. Qed.

Lemma commutes_lift {S A} (h : S -> S) (o : outcome A) : commutes h (lift o).
Proof. intros s. reflexivity. Qed.

Lemma commutes_logger {S} (h : S -> S) l msg : commutes h (@logger S l msg).
Proof. intros s. reflexivity. Qed.

Lemma commutes_gets {S A} (h : S -> S) (f : S -> A) :
  (forall s, f (h s) = f s) -> commutes h (gets f).
Proof. intros H s. unfold gets. cbn. now rewrite H. Qed.

Lemma commutes_modify {S} (h : S -> S) (g : S -> S) :
  (forall s, g (h s) = h (g s)) -> commutes h (modify g).
Proof. intros H s. unfold modify. cbn. now rewrite H. Qed.

Lemma commutes_bind {S A B} (h : S -> S) (m : M S A) (k : A -> M S B) :
  commutes h m -> (forall a, commutes h (k a)) -> commutes h (bind m k).
Proof.
  intros Hm Hk s. unfold bind. cbv zeta. rewrite !Hm.
  destruct (m s) as [[a|e] s1 e1]; cbn; [|reflexivity].
  rewrite !Hk. reflexivity.
Qed.

Lemma commutes_zoom {S T A} (h : S -> S) (proj : S -> T) (upd : T -> S -> S)
      (m : M T A) :
  (forall s, proj (h s) = proj s) -> (forall t s, upd t (h s) = h (upd t s)) ->
  commutes h (zoom proj upd m).
Proof. intros H1 H2 s. unfold zoom. cbn. now rewrite H1, H2. Qed.

Lemma commutes_foldM {S A B} (h : S -> S) (body : A -> B -> M S A) :
  (forall a x, commutes h (body a x)) ->
  forall l a, commutes h (foldM body l a).
Proof.
  intros Hb l. induction l as [|x l IH]; intros a; cbn [foldM].
  - apply commutes_ret.
  - apply commutes_bind; [apply Hb|apply IH].
Qed.

Lemma commutes_when {S} (h : S -> S) (b : bool) (m : M S unit) :
  commutes h m -> commutes h (when b m).
Proof. intros H. destruct b; [exact H|apply commutes_ret]. Qed.


Section Tracker.

Variable VAR_DECL_RE_match : str -> bool.

Lemma deal_with_line_breaks_commutes F G f_line lines rel_ind_con line_nr manual :
  commutes (restack F G)
           (deal_with_line_breaks VAR_DECL_RE_match f_line lines rel_ind_con
                                  line_nr manual).
Proof.
  unfold deal_with_line_breaks.
  apply commutes_bind.
  - destruct manual.
    + apply commutes_bind.
      * apply commutes_zoom; reflexivity.
      * intros _. apply commutes_gets. reflexivity.
    + apply commutes_ret.
  - intros br. unfold forM. apply commutes_foldM. intros _ pos.
    apply commutes_bind; [apply commutes_lift|]. intros v.
    apply commutes_bind; [apply commutes_gets; reflexivity|]. intros l.
    apply commutes_bind; [apply commutes_lift|]. intros l'.
    apply commutes_modify. reflexivity.
Qed.

Lemma deal_with_line_breaks_stacks f_line lines rel_ind_con line_nr manual s :
  let r := deal_with_line_breaks VAR_DECL_RE_match f_line lines rel_ind_con
                                 line_nr manual s in
  scope_storage (post r) = scope_storage s
  /\ indent_storage (post r) = indent_storage s.
Proof.
  pose proof (deal_with_line_breaks_commutes
                (fun _ => scope_storage s) (fun _ => indent_storage s)
                f_line lines rel_ind_con line_nr manual s) as H.
  assert (E : restack (fun _ => scope_storage s) (fun _ => indent_storage s) s = s)
    by (destruct s; reflexivity).
  rewrite E in H. cbv zeta. rewrite H. cbn. split; reflexivity.
Qed.

End Tracker.

Section TrackerRun.

Variable VAR_DECL_RE_match : str -> bool.

Lemma only_debug_app (l1 l2 : list record) :
  only_debug l1 -> only_debug l2 -> only_debug (l1 ++ l2).
Proof. unfold only_debug. intros. apply Forall_app. now split. Qed.

Lemma only_debug_dbg f_line ms : only_debug (map (dbg f_line) ms).
Proof. unfold only_debug. apply Forall_map. apply Forall_forall. reflexivity. Qed.

Lemma only_debug_con f_line scopes cs : only_debug (con_logs f_line scopes cs).
Proof.
  unfold con_logs. destruct (index_m1 scopes); [apply only_debug_dbg|constructor].
Qed.

(** The tracker's method, as its three stages: classification, raw
    offsets, combination. *)
Lemma process_run f_line lines rel_ind rel_ind_con line_nr manual s :
  let s0 := set_line_indents (repeat 0 (length lines)) s in
  let ms := new_matches f_line in
  let cs := con_matches f_line in
  let es := end_matches f_line in
  let scopes1 := scope_storage s ++ ms in
  let pe := pop_ends scopes1 es false in
  let r1 := deal_with_line_breaks VAR_DECL_RE_match f_line lines rel_ind_con
                                  line_nr manual s0 in
  let s3 := restack (fun _ => fst pe) (fun g => g) (post r1) in
  exists logs,
    only_debug logs /\
    process_lines_of_fline VAR_DECL_RE_match f_line lines rel_ind rel_ind_con
                           line_nr manual s
    = match out r1 with
      | Ok _ =>
          let r2 := combine_indents (nonempty ms) (nonempty ms) (nonempty cs)
                                    (valid_con_of scopes1 cs) (nonempty es)
                                    (snd pe) rel_ind s3 in
          mk_result (out r2) (post r2) (logs ++ emitted r1 ++ emitted r2)
      | Raise e => mk_result (Raise e) s3 (logs ++ emitted r1)
      end.
Proof.
  intros s0 ms cs es scopes1 pe r1 s3.
  unfold process_lines_of_fline. rewrite bind_modify. fold s0.
  pose proof (check_new_spec f_line s0) as Hn. cbv zeta in Hn. fold ms in Hn.
  rewrite (bind_ok _ _ _ _ _ _ Hn). cbv beta iota.
  match goal with
  | |- context [bind (check_con f_line) _ ?st] => set (s1 := st)
  end.
  pose proof (check_con_spec f_line s1) as Hc. cbv zeta in Hc. fold cs in Hc.
  rewrite (bind_ok _ _ _ _ _ _ Hc). cbv beta iota.
  destruct (check_end_spec f_line s1) as (le & De & He). fold es in He.
  rewrite (bind_ok _ _ _ _ _ _ He). cbv beta iota.
  assert (Es1 : scope_storage s1 = scopes1) by reflexivity.
  rewrite Es1 in *. fold pe.
  match goal with
  | |- context [bind (deal_with_line_breaks _ _ _ _ _ _) _ ?st] => set (s2 := st)
  end.
  assert (E2 : s2 = restack (fun _ => fst pe) (fun g => g) s0) by reflexivity.
  pose proof (deal_with_line_breaks_commutes VAR_DECL_RE_match
                (fun _ => fst pe) (fun g => g) f_line lines rel_ind_con line_nr
                manual s0) as Hd.
  fold r1 in Hd. rewrite <- E2 in Hd.
  exists (map (dbg f_line) ms ++ con_logs f_line scopes1 cs ++ le).
  split.
  - apply only_debug_app; [apply only_debug_dbg|].
    apply only_debug_app; [apply only_debug_con|exact De].
  - destruct (out r1) as [[]|e] eqn:Er.
    + rewrite (bind_ok _ _ _ _ _ _ Hd). cbn [out post emitted]. fold s3.
      rewrite <- !app_assoc. reflexivity.
    + rewrite (bind_raise _ _ _ _ _ _ Hd). cbn [out post emitted]. fold s3.
      rewrite <- !app_assoc. reflexivity.
Qed.

End TrackerRun.

(** ** The combination stage *)


Lemma combine_new vn ic vc ie ve rel (s : F90Indenter) ind0 cur :
  indent_storage s = ind0 ++ [cur] ->
  combine_indents true vn ic vc ie ve rel s
  = mk_result (Ok tt)
              (mk_indenter (scope_storage s) (ind0 ++ [cur] ++ [rel + cur])
                           (map (fun ind => ind + cur) (line_indents s))
                           (aligner s))
              (if vn then [] else [invalid_new]).
Proof.
  intros E. unfold combine_indents. msimp. rewrite !E, !index_m1_snoc.
  rewrite shift_all_ok.
  destruct vn; cbn [negb when]; msimp; unfold set_line_indents, set_indents;
    cbn; rewrite E, <- app_assoc; reflexivity.
Qed.

Lemma combine_con_invalid vn ie ve rel (s : F90Indenter) :
  combine_indents false vn true false ie ve rel s
  = mk_result (Ok tt) s [invalid_con].
Proof.
  unfold combine_indents. msimp. cbn [negb]. msimp.
  unfold set_line_indents. destruct s; reflexivity.
Qed.

Lemma combine_con_valid vn ie ve rel (s : F90Indenter) ind0 below cur :
  indent_storage s = ind0 ++ [below; cur] ->
  combine_indents false vn true true ie ve rel s
  = mk_result (Ok tt)
              (set_line_indents (map (fun ind => ind + below) (line_indents s)) s)
              [].
Proof.
  intros E. unfold combine_indents. msimp. cbn [negb]. rewrite E, index_m2_snoc.
  rewrite shift_all_ok. msimp. reflexivity.
Qed.

Lemma combine_end_invalid vn vc rel (s : F90Indenter) :
  combine_indents false vn false vc true false rel s
  = mk_result (Ok tt) s [invalid_end].
Proof.
  unfold combine_indents. msimp. cbn [negb]. msimp.
  unfold set_line_indents. destruct s; reflexivity.
Qed.

Lemma combine_end_valid vn vc rel (s : F90Indenter) ind0 below cur :
  indent_storage s = ind0 ++ [below; cur] ->
  combine_indents false vn false vc true true rel s
  = mk_result (Ok tt)
              (mk_indenter (scope_storage s) (ind0 ++ [below])
                           (map (fun ind => ind + below) (line_indents s))
                           (aligner s))
              [].
Proof.
  intros E. unfold combine_indents. msimp. cbn [negb]. rewrite E, index_m2_snoc.
  rewrite shift_all_ok. msimp.
  replace (ind0 ++ [below; cur]) with ((ind0 ++ [below]) ++ [cur])
    by (rewrite <- app_assoc; reflexivity).
  rewrite pop_last_snoc. msimp. reflexivity.
Qed.

Lemma combine_plain vn vc ve rel (s : F90Indenter) ind0 cur :
  indent_storage s = ind0 ++ [cur] ->
  combine_indents false vn false vc false ve rel s
  = mk_result (Ok tt)
              (set_line_indents (map (fun ind => ind + cur) (line_indents s)) s)
              [].
Proof.
  intros E. unfold combine_indents. msimp. rewrite E, index_m1_snoc.
  rewrite shift_all_ok. msimp. reflexivity.
Qed.

(** With no fragment to shift, the indent stack is only read by an opening
    line and popped by a valid closing line. *)
Lemma combine_no_fragments isn vn ic vc ie ve rel (s : F90Indenter) :
  line_indents s = [] -> indent_storage s <> [] ->
  out (combine_indents isn vn ic vc ie ve rel s) = Ok tt.
Proof.
  intros L E.
  destruct (snoc_cases (indent_storage s)) as [E0|(ind0 & cur & E1)];
    [contradiction|].
  unfold combine_indents. msimp. rewrite L. cbn [shift_all].
  rewrite E1, index_m1_snoc, pop_last_snoc.
  destruct isn; [destruct vn|destruct ic; [destruct vc|destruct ie; [destruct ve|]]];
    cbn [negb when]; msimp; reflexivity.
Qed.

(** What the combination stage may do to the two stacks. *)
Lemma combine_stacks isn vn ic vc ie ve rel (s : F90Indenter) :
  let r := combine_indents isn vn ic vc ie ve rel s in
  scope_storage (post r) = scope_storage s
  /\ (indent_storage (post r) = indent_storage s
      \/ (isn = true /\ exists v, indent_storage (post r) = indent_storage s ++ [v])
      \/ (isn = false /\ ic = false /\ ie = true /\ ve = true
          /\ exists v, indent_storage s = indent_storage (post r) ++ [v])).
Proof.
  cbv zeta. unfold combine_indents. msimp.
  destruct isn.
  - destruct (shift_all (line_indents s) (index_m1 (indent_storage s))) as [li|e];
      destruct vn; cbn [negb when]; msimp;
      destruct (index_m1 (indent_storage s)) as [old|e']; msimp; cbn;
      try (split; [reflexivity|left; reflexivity]);
      (split; [reflexivity|right; left; split; [reflexivity|eexists; reflexivity]]).
  - destruct ic.
    + destruct vc; cbn [negb]; msimp.
      * destruct (shift_all (line_indents s) (index_m2 (indent_storage s)));
          msimp; cbn; split; auto.
      * cbn. split; auto.
    + destruct ie.
      * destruct ve; cbn [negb]; msimp.
        -- destruct (shift_all (line_indents s) (index_m2 (indent_storage s)));
             msimp; [|cbn; split; auto].
           destruct (snoc_cases (indent_storage s)) as [E0|(ind0 & cur & E1)].
           ++ rewrite E0. cbn. split; auto.
           ++ rewrite E1, pop_last_snoc. msimp. cbn. split; [reflexivity|].
              right; right. repeat split. exists cur. reflexivity.
        -- cbn. split; auto.
      * destruct (shift_all (line_indents s) (index_m1 (indent_storage s)));
          msimp; cbn; split; auto.
Qed.

(** ** Keywords of the closing and continuation patterns *)

Ltac ascii_cases c := destruct c as [[] [] [] [] [] [] [] []].

Lemma skipn_cons_inv {A} (l : list A) i b t :
  skipn i l = b :: t -> nth_error l i = Some b /\ skipn (S i) l = t.
Proof.
  revert l. induction i as [|i IH]; intros l H; destruct l as [|x l];
    cbn in *; try discriminate.
  - injection H as H1 H2. subst. split; reflexivity.
  - exact (IH l H).
Qed.

Lemma skipn_nil_inv {A} (l : list A) i : skipn i l = [] -> nth_error l i = None.
Proof.
  revert l. induction i as [|i IH]; intros l H; destruct l as [|x l];
    cbn in *; try discriminate; try reflexivity.
  now apply IH.
Qed.

Lemma skipn_add {A} (l : list A) i n : skipn (i + n) l = skipn n (skipn i l).
Proof.
  revert l. induction i as [|i IH]; intros l; [reflexivity|].
  destruct l as [|x l]; [now rewrite !skipn_nil|]. cbn. apply IH.
Qed.

(** A literal word matches where the text starts with it. *)
Lemma exec_word A (w : list ascii) s c k :
  forall i,
    exec A (seq_of ic w) s i c k
    = if prefix_ci (skipn i s) w then k (i + length w)%nat c else None.
Proof.
  induction w as [|a w IH]; intros i.
  - cbn. now rewrite Nat.add_0_r.
  - assert (Head : exec A (ic a) s i c
                        (fun j c' => if prefix_ci (skipn j s) w
                                     then k (j + length w)%nat c' else None)
                   = if prefix_ci (skipn i s) (a :: w)
                     then k (i + length (a :: w))%nat c else None).
    { cbn [exec ic]. destruct (skipn i s) as [|b t] eqn:E.
      - now rewrite (skipn_nil_inv _ _ E).
      - destruct (skipn_cons_inv _ _ _ _ E) as [E1 E2].
        rewrite E1, E2. cbn [prefix_ci length].
        destruct (ch_eqb (lower b) (lower a)); [|reflexivity].
        cbn [andb]. now rewrite Nat.add_succ_r. }
    destruct w as [|a' w'].
    + rewrite <- Head. cbn [seq_of exec ic prefix_ci length].
      destruct (nth_error s i) as [b|]; [|reflexivity].
      destruct (ch_eqb (lower b) (lower a)); [|reflexivity].
      now rewrite Nat.add_0_r.
    + rewrite <- Head.
      change (seq_of ic (a :: a' :: w')) with (Seq (ic a) (seq_of ic (a' :: w'))).
      cbn [exec ic]. destruct (nth_error s i) as [b|]; [|reflexivity].
      destruct (ch_eqb (lower b) (lower a)); [|reflexivity].
      apply IH.
Qed.

Lemma longest_first_some {A} (k : nat -> option A) x :
  forall n, longest_first n k = Some x -> exists m, (m <= n)%nat /\ k m = Some x.
Proof.
  induction n as [|n IH]; cbn; intros H.
  - destruct (k 0%nat) eqn:E; [|discriminate]. exists 0%nat. split; [lia|congruence].
  - destruct (k (S n)) eqn:E.
    + exists (S n). split; [lia|congruence].
    + destruct (IH H) as (m & Hm & Hk). exists m. split; [lia|exact Hk].
Qed.

Lemma run_space_at (t : str) :
  forall m, (m < run is_space t)%nat ->
            exists b t', skipn m t = b :: t' /\ is_space b = true.
Proof.
  induction t as [|x t IH]; intros m H; cbn in H; [lia|].
  destruct (is_space x) eqn:E; [|lia].
  destruct m as [|m].
  - exists x, t. split; [reflexivity|exact E].
  - apply IH. lia.
Qed.

Lemma space_is_lower (b : ascii) : is_space b = true -> lower b = b.
Proof. ascii_cases b; vm_compute; intros H; try reflexivity; discriminate. Qed.

(** Blanks and then a word that starts with a letter: the word stands
    right behind all the blanks. *)
Lemma exec_ws_word A a (w : list ascii) r s i c k x :
  is_space (lower a) = false ->
  exec A (Seq ws (Seq (seq_of ic (a :: w)) r)) s i c k = Some x ->
  let j := (i + run is_space (skipn i s))%nat in
  prefix_ci (skipn j s) (a :: w) = true
  /\ exec A r s (j + length (a :: w)) c k = Some x.
Proof.
  intros Ha H j. unfold ws in H. cbn [exec] in H.
  destruct (longest_first_some _ _ _ H) as (m & Hm & Hk).
  rewrite exec_word in Hk.
  destruct (prefix_ci (skipn (i + m) s) (a :: w)) eqn:P; [|discriminate].
  assert (E : m = run is_space (skipn i s)).
  { destruct (Nat.eq_dec m (run is_space (skipn i s))) as [E|N]; [exact E|].
    exfalso. destruct (run_space_at (skipn i s) m) as (b & t' & E1 & E2); [lia|].
    rewrite skipn_add, E1 in P. cbn [prefix_ci] in P.
    apply andb_prop in P. destruct P as [P _].
    apply Ascii.eqb_eq in P. rewrite (space_is_lower _ E2) in P.
    rewrite <- P, E2 in Ha. discriminate. }
  subst m. fold j in P, Hk. split; [exact P|exact Hk].
Qed.

Lemma first_some_none {A B} (f : A -> option B) (l : list A) :
  (forall a, In a l -> f a = None) -> first_some f l = None.
Proof.
  induction l as [|a l IH]; intros H; [reflexivity|]. cbn.
  rewrite (H a (or_introl eq_refl)). apply IH. intros b Hb. apply H. now right.
Qed.

(** A pattern that starts with [SOL_STR] only matches from position 0. *)
Lemma search_sol (r : regex) (s : str) :
  search (SOL_STR ;; r) s = true ->
  exists m, exec mtch (Seq ws r) s 0 []
                 (fun j c => Some {| m_start := 0; m_end := j; m_caps := c |})
            = Some m.
Proof.
  unfold search, search_m, search_from. rewrite Nat.sub_0_r.
  cbn [seq first_some]. intros H.
  destruct (match_at (SOL_STR ;; r) s 0) as [m|] eqn:E.
  - exists m. exact E.
  - rewrite first_some_none in H; [discriminate|].
    intros a Ha. apply in_seq in Ha. destruct a as [|a]; [lia|reflexivity].
Qed.

Lemma sol_keyword a (w : list ascii) (r : regex) (s : str) :
  search (SOL_STR ;; seq_of ic (a :: w) ;; r) s = true ->
  is_space (lower a) = false ->
  prefix_ci (skipn (first_word s) s) (a :: w) = true.
Proof.
  intros H Ha. destruct (search_sol _ _ H) as (m & E).
  destruct (exec_ws_word _ _ _ _ _ _ _ _ _ Ha E) as [P _]. exact P.
Qed.

Lemma end_keyword a (w : list ascii) (r : regex) (s : str) :
  search (SOL_STR ;; lit "END" ;; ws ;; seq_of ic (a :: w) ;; r) s = true ->
  is_space (lower a) = false ->
  prefix_ci (skipn (first_word s) s) (s_ "END") = true
  /\ prefix_ci (skipn (after_end s) s) (a :: w) = true.
Proof.
  intros H Ha. destruct (search_sol _ _ H) as (m & E).
  destruct (exec_ws_word mtch "E"%char (s_ "ND") _ _ _ _ _ _ eq_refl E) as [P E'].
  split; [exact P|].
  destruct (exec_ws_word _ _ _ _ _ _ _ _ _ Ha E') as [P' _]. exact P'.
Qed.

Lemma prefix_agree (s v : str) :
  forall w, prefix_ci s v = true -> prefix_ci s w = true -> agree_ci v w = true.
Proof.
  revert s. induction v as [|a v IH]; intros s w Hv Hw; [reflexivity|].
  destruct w as [|b w]; [reflexivity|]. destruct s as [|x s]; [discriminate|].
  cbn in *. apply andb_prop in Hv. apply andb_prop in Hw.
  destruct Hv as [V1 V2], Hw as [W1 W2].
  apply Ascii.eqb_eq in V1. apply Ascii.eqb_eq in W1.
  rewrite <- V1, <- W1. unfold ch_eqb. rewrite Ascii.eqb_refl. cbn.
  exact (IH s w V2 W2).
Qed.

(** Every closing pattern asks for [END] and then its own keyword;
    every continuation pattern starts with its keyword. *)
Lemma closes_keyword (f : str) n re :
  In (n, re) (enumerate END_SCOPE_RE) -> closes f (n, re) = true ->
  prefix_ci (skipn (first_word f) f) (s_ "END") = true
  /\ exists kw, nth_error END_KEYWORDS n = Some kw
                /\ prefix_ci (skipn (after_end f) f) (s_ kw) = true.
Proof.
  intros HI H. unfold closes in H. cbn [snd] in H.
  cbv [enumerate END_SCOPE_RE length seq combine] in HI. cbn [In] in HI.
  repeat (destruct HI as [HI|HI];
          [injection HI as <- <-;
           destruct (end_keyword _ _ _ _ H eq_refl) as [P1 P2];
           split; [exact P1|eexists; split; [reflexivity|exact P2]]|]).
  contradiction.
Qed.

Lemma continues_keyword (f : str) n cre :
  In (n, cre) (enumerate CONTINUE_SCOPE_RE) -> continues f (n, cre) = true ->
  exists kw, In kw CONTINUE_KEYWORDS
             /\ prefix_ci (skipn (first_word f) f) (s_ kw) = true.
Proof.
  intros HI H. unfold continues in H. cbn [snd] in H.
  cbv [enumerate CONTINUE_SCOPE_RE length seq combine] in HI. cbn [In] in HI.
  repeat (destruct HI as [HI|HI];
          [injection HI as <- <-; cbv beta iota in H; try discriminate;
           pose proof (sol_keyword _ _ _ _ H eq_refl) as P;
           first [exists "ELSE"%string; split; [cbn; tauto|exact P]
                 |exists "CASE"%string; split; [cbn; tauto|exact P]
                 |exists "CONTAINS"%string; split; [cbn; tauto|exact P]]|]).
  contradiction.
Qed.

Lemma keywords_distinct i j kwi kwj :
  nth_error END_KEYWORDS i = Some kwi -> nth_error END_KEYWORDS j = Some kwj ->
  agree_ci (s_ kwi) (s_ kwj) = true -> i = j.
Proof.
  do 10 (destruct i as [|i]; [do 10 (destruct j as [|j];
    [cbn; intros Hi Hj; injection Hi as <-; injection Hj as <-;
     vm_compute; intros; try reflexivity; discriminate|]);
     destruct j; discriminate|]).
  destruct i; discriminate.
Qed.

Lemma end_is_no_continuation kw :
  In kw CONTINUE_KEYWORDS -> agree_ci (s_ "END") (s_ kw) = false.
Proof.
  cbn. intros [<-|[<-|[<-|[]]]]; reflexivity.
Qed.

Lemma filter_none {A} (p : A -> bool) (l : list A) :
  (forall a, In a l -> p a = false) -> filter p l = [].
Proof.
  induction l as [|a l IH]; intros H; [reflexivity|]. cbn.
  rewrite (H a (or_introl eq_refl)). apply IH. intros b Hb. apply H. now right.
Qed.

Lemma unique_match {B} (p : nat * B -> bool) (l : list (nat * B)) K :
  NoDup (map fst l) ->
  (forall a b, In a l -> In b l -> p a = true -> p b = true -> fst a = fst b) ->
  In K (map fst (filter p l)) -> map fst (filter p l) = [K].
Proof.
  induction l as [|a l IH]; intros ND U HK; [contradiction|].
  cbn [map] in ND. apply NoDup_cons_iff in ND. destruct ND as [N1 N2].
  cbn [filter] in *. destruct (p a) eqn:Pa.
  - assert (F : filter p l = []).
    { apply filter_none. intros b Hb. destruct (p b) eqn:Pb; [|reflexivity].
      exfalso. apply N1.
      rewrite (U a b (or_introl eq_refl) (or_intror Hb) Pa Pb).
      now apply in_map. }
    rewrite F in *. cbn in *. destruct HK as [->|[]]. reflexivity.
  - apply IH; [exact N2| |exact HK].
    intros x y Hx Hy. apply U; now right.
Qed.

(** A line matches the closing pattern of at most one kind, and a line
    that matches a closing pattern matches no continuation pattern. *)
Lemma closing_kind_unique (f : str) K :
  In K (end_matches f) -> end_matches f = [K].
Proof.
  apply unique_match.
  - exact (seq_NoDup 10 0).
  - intros [i ri] [j rj] Hi Hj Pi Pj. cbn [fst].
    destruct (closes_keyword f i ri Hi Pi) as (_ & kwi & Ni & Qi).
    destruct (closes_keyword f j rj Hj Pj) as (_ & kwj & Nj & Qj).
    exact (keywords_distinct i j kwi kwj Ni Nj (prefix_agree _ _ _ Qi Qj)).
Qed.

Lemma closing_excludes_continuation (f : str) K :
  In K (end_matches f) -> con_matches f = [].
Proof.
  intros HK. unfold end_matches in HK. apply in_map_iff in HK.
  destruct HK as ([i ri] & _ & HK). apply filter_In in HK. destruct HK as [Hi Pi].
  destruct (closes_keyword f i ri Hi Pi) as (PE & _).
  unfold con_matches. rewrite filter_none; [reflexivity|].
  intros [j cre] Hj. destruct (continues f (j, cre)) eqn:Pj; [|reflexivity].
  destruct (continues_keyword f j cre Hj Pj) as (kw & Hkw & Q).
  pose proof (prefix_agree _ _ _ PE Q) as Ag.
  rewrite (end_is_no_continuation kw Hkw) in Ag. discriminate.
Qed.

(** ** What a call of the tracker does to a line *)

Section TrackerClaims.

Variable VAR_DECL_RE_match : str -> bool.

Abbreviation process := (process_lines_of_fline VAR_DECL_RE_match).
Abbreviation line_breaks := (deal_with_line_breaks VAR_DECL_RE_match).

Lemma line_breaks_reset_stacks f_line lines rel_ind_con line_nr manual s :
  let r1 := line_breaks f_line lines rel_ind_con line_nr manual
                        (set_line_indents (repeat 0 (length lines)) s) in
  scope_storage (post r1) = scope_storage s
  /\ indent_storage (post r1) = indent_storage s.
Proof.
  cbv zeta.
  destruct (deal_with_line_breaks_stacks VAR_DECL_RE_match f_line lines
              rel_ind_con line_nr manual
              (set_line_indents (repeat 0 (length lines)) s)) as [H1 H2].
  rewrite H1, H2. split; reflexivity.
Qed.

Lemma pop_ends_nil scopes v : pop_ends scopes [] v = (scopes, v).
Proof. reflexivity. Qed.

(** C10: a logical line that matches neither an opening nor a closing
    pattern leaves the ScopeStack and the IndentStack as they were,
    whatever the outcome of the call; in general the ScopeStack after the
    call is the one before with the opening matches pushed and one entry
    popped per closing match, and the IndentStack is either unchanged, or
    has one entry pushed (only on an opening match), or has one entry
    popped (only on a valid closing match of a line without opening
    match). *)
Theorem stacks_change_only_on_open_and_close
        f_line lines rel_ind rel_ind_con line_nr manual (s : F90Indenter) :
  let r := process f_line lines rel_ind rel_ind_con line_nr manual s in
  let ms := new_matches f_line in
  let es := end_matches f_line in
  (ms = [] -> es = [] ->
   scope_storage (post r) = scope_storage s
   /\ indent_storage (post r) = indent_storage s)
  /\ scope_storage (post r) = fst (pop_ends (scope_storage s ++ ms) es false)
  /\ (indent_storage (post r) = indent_storage s
      \/ (ms <> [] /\ exists v, indent_storage (post r) = indent_storage s ++ [v])
      \/ (ms = [] /\ snd (pop_ends (scope_storage s) es false) = true
          /\ exists v, indent_storage s = indent_storage (post r) ++ [v])).
Proof.
  intros r ms es.
  assert (Core :
    scope_storage (post r) = fst (pop_ends (scope_storage s ++ ms) es false)
    /\ (indent_storage (post r) = indent_storage s
        \/ (ms <> [] /\ exists v, indent_storage (post r) = indent_storage s ++ [v])
        \/ (ms = [] /\ snd (pop_ends (scope_storage s) es false) = true
            /\ exists v, indent_storage s = indent_storage (post r) ++ [v]))).
  { destruct (process_run VAR_DECL_RE_match f_line lines rel_ind rel_ind_con
                          line_nr manual s) as (logs & _ & R).
    cbv zeta in R. fold r ms es in R.
    destruct (line_breaks_reset_stacks f_line lines rel_ind_con line_nr manual s)
      as [_ HI]. cbv zeta in HI.
    set (r1 := line_breaks f_line lines rel_ind_con line_nr manual
                           (set_line_indents (repeat 0 (length lines)) s)) in *.
    set (pe := pop_ends (scope_storage s ++ ms) es false) in *.
    set (s3 := restack (fun _ => fst pe) (fun g => g) (post r1)) in *.
    assert (S3 : scope_storage s3 = fst pe) by reflexivity.
    assert (I3 : indent_storage s3 = indent_storage s) by exact HI.
    destruct (out r1) as [[]|e].
    - pose proof (combine_stacks (nonempty ms) (nonempty ms)
                    (nonempty (con_matches f_line))
                    (valid_con_of (scope_storage s ++ ms) (con_matches f_line))
                    (nonempty es) (snd pe) rel_ind s3) as [C1 C2].
      cbv zeta in C1, C2. rewrite R. cbn [post]. rewrite C1, S3.
      split; [reflexivity|]. rewrite I3 in C2.
      destruct C2 as [C2|[(N & v & C2)|(N & _ & _ & V & v & C2)]].
      + left. exact C2.
      + right; left. split; [|exists v; exact C2].
        intros Z. rewrite Z in N. discriminate.
      + right; right. assert (Z : ms = []) by (destruct ms; [reflexivity|discriminate]).
        split; [exact Z|]. split; [|exists v; exact C2].
        unfold pe in V. rewrite Z, app_nil_r in V. exact V.
    - rewrite R. cbn [post]. rewrite S3, I3. split; [reflexivity|left; reflexivity]. }
  destruct Core as [C1 C2]. split; [|split; assumption].
  intros Z1 Z2. rewrite C1, Z1, Z2, app_nil_r, pop_ends_nil. split; [reflexivity|].
  destruct C2 as [C2|[(N & _)|(_ & V & _)]]; [exact C2|contradiction|].
  rewrite Z2, pop_ends_nil in V. discriminate.
Qed.

(** C1, as amended: for a logical line that matches the closing pattern
    of kind K and no opening pattern, while the ScopeStack is not empty,
    and whose raw offsets are available: the ScopeStack is popped; if the
    popped kind differs from K the statement is logged as invalid, the
    IndentStack is unchanged and the fragments keep their raw offsets; if
    the popped kind is K the IndentStack is popped and every fragment is
    shifted by its new top. *)
Theorem closing_line_pops_scope
        f_line lines rel_ind rel_ind_con line_nr manual (s : F90Indenter)
        (K top : nat) (sc : list nat) :
  new_matches f_line = [] ->
  In K (end_matches f_line) ->
  scope_storage s = sc ++ [top] ->
  let r1 := line_breaks f_line lines rel_ind_con line_nr manual
                        (set_line_indents (repeat 0 (length lines)) s) in
  out r1 = Ok tt ->
  let raw := line_indents (post r1) in
  let r := process f_line lines rel_ind rel_ind_con line_nr manual s in
  scope_storage (post r) = sc
  /\ (top <> K ->
      out r = Ok tt /\ In invalid_end (emitted r)
      /\ indent_storage (post r) = indent_storage s
      /\ line_indents (post r) = raw)
  /\ (top = K ->
      forall ind0 below cur, indent_storage s = ind0 ++ [below; cur] ->
      out r = Ok tt
      /\ indent_storage (post r) = ind0 ++ [below]
      /\ line_indents (post r) = map (fun ind => ind + below) raw).
Proof.
  intros Hn HK Hs r1 H1 raw r.
  pose proof (closing_excludes_continuation f_line K HK) as Hc.
  pose proof (closing_kind_unique f_line K HK) as He.
  destruct (process_run VAR_DECL_RE_match f_line lines rel_ind rel_ind_con
                        line_nr manual s) as (logs & _ & R).
  cbv zeta in R. fold r r1 in R. rewrite Hn, Hc, He, app_nil_r, Hs, H1 in R.
  cbn [pop_ends nonempty] in R. rewrite pop_last_snoc in R.
  cbn [pop_ends fst snd orb] in R.
  destruct (line_breaks_reset_stacks f_line lines rel_ind_con line_nr manual s)
    as [_ HI]. cbv zeta in HI. fold r1 in HI.
  set (s3 := restack (fun _ => sc) (fun g => g) (post r1)) in *.
  assert (I3 : indent_storage s3 = indent_storage s) by exact HI.
  destruct (Nat.eqb top K) eqn:TK.
  - apply Nat.eqb_eq in TK. split; [|split].
    + pose proof (combine_stacks false false false
                                 (valid_con_of (sc ++ [top]) []) true true
                                 rel_ind s3) as [C _].
      cbv zeta in C. rewrite R. cbn [post]. rewrite C. reflexivity.
    + intros N. contradiction.
    + intros _ ind0 below cur E. rewrite <- I3 in E.
      rewrite (combine_end_valid _ _ _ _ _ _ _ E) in R. rewrite R.
      cbn. repeat split.
  - apply Nat.eqb_neq in TK.
    rewrite combine_end_invalid in R. rewrite R. cbn [out post emitted].
    split; [reflexivity|split].
    + intros _. repeat split; try assumption.
      apply in_or_app. right. apply in_or_app. right. left. reflexivity.
    + intros N. contradiction.
Qed.

(** C4, as amended: for a logical line that matches a continuation
    pattern of kind K and no opening pattern, and whose raw offsets are
    available: if K is on top of the ScopeStack, every fragment's indent
    is its raw offset plus the second-from-top IndentStack value; if none
    of the matched continuation kinds is on top of the ScopeStack, the
    record of an invalid continue statement, which has the level INFO,
    is logged and the fragments keep their raw offsets. *)
Theorem continuation_aligns_with_header
        f_line lines rel_ind rel_ind_con line_nr manual (s : F90Indenter)
        (K top : nat) (sc : list nat) :
  new_matches f_line = [] ->
  In K (con_matches f_line) ->
  scope_storage s = sc ++ [top] ->
  let r1 := line_breaks f_line lines rel_ind_con line_nr manual
                        (set_line_indents (repeat 0 (length lines)) s) in
  out r1 = Ok tt ->
  let raw := line_indents (post r1) in
  let r := process f_line lines rel_ind rel_ind_con line_nr manual s in
  (top = K ->
   forall ind0 below cur, indent_storage s = ind0 ++ [below; cur] ->
   out r = Ok tt
   /\ line_indents (post r) = map (fun ind => ind + below) raw)
  /\ (~ In top (con_matches f_line) ->
      out r = Ok tt /\ In invalid_con (emitted r)
      /\ line_indents (post r) = raw).
Proof.
  intros Hn Hc Hs r1 H1 raw r.
  destruct (process_run VAR_DECL_RE_match f_line lines rel_ind rel_ind_con
                        line_nr manual s) as (logs & _ & R).
  cbv zeta in R. fold r r1 in R. rewrite Hn, app_nil_r, Hs, H1 in R.
  cbn [nonempty] in R.
  assert (NE : nonempty (con_matches f_line) = true)
    by (destruct (con_matches f_line); [contradiction|reflexivity]).
  rewrite NE in R.
  destruct (line_breaks_reset_stacks f_line lines rel_ind_con line_nr manual s)
    as [_ HI]. cbv zeta in HI. fold r1 in HI.
  set (pe := pop_ends (sc ++ [top]) (end_matches f_line) false) in *.
  set (s3 := restack (fun _ => fst pe) (fun g => g) (post r1)) in *.
  assert (I3 : indent_storage s3 = indent_storage s) by exact HI.
  unfold valid_con_of in R. rewrite index_m1_snoc in R.
  split.
  - intros TK ind0 below cur E. subst top.
    assert (V : existsb (Nat.eqb K) (con_matches f_line) = true).
    { apply existsb_exists. exists K. split; [exact Hc|apply Nat.eqb_refl]. }
    rewrite V in R. rewrite <- I3 in E.
    rewrite (combine_con_valid _ _ _ _ _ _ _ _ E) in R. rewrite R.
    cbn. split; reflexivity.
  - intros N.
    assert (V : existsb (Nat.eqb top) (con_matches f_line) = false).
    { destruct (existsb (Nat.eqb top) (con_matches f_line)) eqn:X; [|reflexivity].
      apply existsb_exists in X. destruct X as (x & Hx & Ex).
      apply Nat.eqb_eq in Ex. subst x. contradiction. }
    rewrite V in R. rewrite combine_con_invalid in R. rewrite R.
    cbn [out post emitted]. repeat split.
    apply in_or_app. right. apply in_or_app. right. left. reflexivity.
Qed.

End TrackerClaims.

Lemma length_ge_2_snoc {A} (l : list A) :
  (2 <= length l)%nat -> exists l0 y x, l = l0 ++ [y; x].
Proof.
  intros H. destruct (snoc_cases l) as [E|(l1 & x & E)]; [subst; cbn in H; lia|].
  destruct (snoc_cases l1) as [E1|(l0 & y & E1)].
  - subst. cbn in H. lia.
  - exists l0, y, x. subst. rewrite <- app_assoc. reflexivity.
Qed.

Lemma combine_ok isn vn ic vc ie ve rel (s : F90Indenter) :
  indent_storage s <> [] ->
  ((negb isn && ((ic && vc) || (negb ic && ie && ve)))%bool = true ->
   (2 <= length (indent_storage s))%nat) ->
  out (combine_indents isn vn ic vc ie ve rel s) = Ok tt.
Proof.
  intros NE H2.
  destruct (snoc_cases (indent_storage s)) as [E0|(ind0 & cur & E1)];
    [contradiction|].
  destruct isn.
  - rewrite (combine_new _ _ _ _ _ _ _ _ _ E1). reflexivity.
  - destruct ic.
    + destruct vc.
      * destruct (length_ge_2_snoc _ (H2 eq_refl)) as (l0 & y & x & E).
        rewrite (combine_con_valid _ _ _ _ _ _ _ _ E). reflexivity.
      * rewrite combine_con_invalid. reflexivity.
    + destruct ie.
      * destruct ve.
        -- destruct (length_ge_2_snoc _ (H2 eq_refl)) as (l0 & y & x & E).
           rewrite (combine_end_valid _ _ _ _ _ _ _ E). reflexivity.
        -- rewrite combine_end_invalid. reflexivity.
      * rewrite (combine_plain _ _ _ _ _ _ _ E1). reflexivity.
Qed.

Lemma lift_bind_raise {S A B} (o : outcome A) (k : A -> M S B) s e :
  out (bind (lift o) k s) = Raise e ->
  o = Raise e \/ exists a, o = Ok a /\ out (k a s) = Raise e.
Proof.
  destruct o as [a|e']; rewrite ?bind_lift_ok, ?bind_lift_raise; cbn.
  - intros H. right. exists a. split; [reflexivity|exact H].
  - intros H. left. injection H as ->. reflexivity.
Qed.

Lemma shift_all_raise l v e :
  shift_all l v = Raise e -> v = Raise e.
Proof.
  destruct l; cbn; [discriminate|]. destruct v; [discriminate|].
  intros H; injection H as ->; reflexivity.
Qed.

Lemma index_m1_raise {A} (l : list A) e : index_m1 l = Raise e -> e = IndexError.
Proof. unfold index_m1. destruct (rev l); [|discriminate]. now intros [= <-]. Qed.

Lemma index_m2_raise {A} (l : list A) e : index_m2 l = Raise e -> e = IndexError.
Proof.
  unfold index_m2. destruct (rev l) as [|a [|b r]]; try discriminate; now intros [= <-].
Qed.

Lemma pop_last_raise {A} (l : list A) e : pop_last l = Raise e -> e = IndexError.
Proof. unfold pop_last. destruct (rev l); [|discriminate]. now intros [= <-]. Qed.

Lemma index_m1_snoc2 {A} (l : list A) (y x : A) : index_m1 (l ++ [y; x]) = Ok x.
Proof. unfold index_m1. rewrite rev_app_distr. reflexivity. Qed.

Lemma pop_last_snoc2 {A} (l : list A) (y x : A) :
  pop_last (l ++ [y; x]) = Ok (x, l ++ [y]).
Proof.
  replace (l ++ [y; x]) with ((l ++ [y]) ++ [x]) by now rewrite <- app_assoc.
  apply pop_last_snoc.
Qed.

Lemma stack_shapes {A} (l : list A) :
  l = [] \/ (exists x, l = [x]) \/ exists l0 y x, l = l0 ++ [y; x].
Proof.
  destruct (snoc_cases l) as [E|(l1 & x & E)]; [left; exact E|right].
  destruct (snoc_cases l1) as [E1|(l0 & y & E1)]; subst.
  - left. exists x. reflexivity.
  - right. exists l0, y, x. now rewrite <- app_assoc.
Qed.

(** The combination stage raises nothing but [IndexError]. *)
Lemma combine_raises_index isn vn ic vc ie ve rel (s : F90Indenter) e :
  out (combine_indents isn vn ic vc ie ve rel s) = Raise e -> e = IndexError.
Proof.
  unfold combine_indents. msimp.
  destruct (stack_shapes (indent_storage s)) as [E|[(x & E)|(l0 & y & x & E)]];
    rewrite E; clear E;
    rewrite ?index_m1_snoc2, ?index_m2_snoc, ?pop_last_snoc2;
    destruct (line_indents s) as [|i0 li];
    destruct isn, vn, ic, vc, ie, ve; cbn [negb when shift_all];
    msimp; cbn; intros H; try discriminate H; injection H as <-; reflexivity.
Qed.

Section TrackerFatal.

Variable VAR_DECL_RE_match : str -> bool.

Abbreviation process := (process_lines_of_fline VAR_DECL_RE_match).
Abbreviation line_breaks := (deal_with_line_breaks VAR_DECL_RE_match).

Lemma line_breaks_no_fragments f_line rel_ind_con line_nr manual (s : F90Indenter) :
  let r1 := line_breaks f_line [] rel_ind_con line_nr manual s in
  out r1 = Ok tt /\ line_indents (post r1) = line_indents s.
Proof.
  cbv zeta. unfold deal_with_line_breaks. destruct manual as [|m0 manual].
  - rewrite bind_assoc. unfold bind, zoom, aligner_process_lines_of_fline, forM.
    cbn. split; reflexivity.
  - msimp. cbn. split; reflexivity.
Qed.

(** C9, as amended: the tracker's own anomalies only log.  The call
    returns normally whenever the raw offsets are available and the
    IndentStack has an entry, and a second one if the line is a valid
    continuation or a valid close without opening match; when it raises,
    either the line-break stage raised (the aligner's internal-defect
    error among them) or the error is an [IndexError] on the IndentStack.
    With zero fragments and a non-empty IndentStack the call returns
    normally, with no fragment indent. *)
Theorem tracker_fatal_conditions
        f_line lines rel_ind rel_ind_con line_nr manual (s : F90Indenter) :
  let r1 := line_breaks f_line lines rel_ind_con line_nr manual
                        (set_line_indents (repeat 0 (length lines)) s) in
  let r := process f_line lines rel_ind rel_ind_con line_nr manual s in
  let ms := new_matches f_line in
  let cs := con_matches f_line in
  let es := end_matches f_line in
  let scopes1 := scope_storage s ++ ms in
  let needs_enclosing :=
    (negb (nonempty ms)
     && ((nonempty cs && valid_con_of scopes1 cs)
         || (negb (nonempty cs) && nonempty es
             && snd (pop_ends scopes1 es false))))%bool in
  (out r1 = Ok tt -> indent_storage s <> [] ->
   (needs_enclosing = true -> (2 <= length (indent_storage s))%nat) ->
   out r = Ok tt)
  /\ (forall e, out r = Raise e ->
      out r1 = Raise e \/ (out r1 = Ok tt /\ e = IndexError))
  /\ (lines = [] -> indent_storage s <> [] ->
      out r = Ok tt /\ line_indents (post r) = []).
Proof.
  intros r1 r ms cs es scopes1 needs.
  destruct (process_run VAR_DECL_RE_match f_line lines rel_ind rel_ind_con
                        line_nr manual s) as (logs & _ & R).
  cbv zeta in R. fold r r1 ms cs es scopes1 in R.
  destruct (line_breaks_reset_stacks VAR_DECL_RE_match f_line lines rel_ind_con
              line_nr manual s)
    as [_ HI]. cbv zeta in HI. fold r1 in HI.
  set (pe := pop_ends scopes1 es false) in *.
  set (s3 := restack (fun _ => fst pe) (fun g => g) (post r1)) in *.
  assert (I3 : indent_storage s3 = indent_storage s) by exact HI.
  split; [|split].
  - intros H1 NE H2. rewrite H1 in R. rewrite R. cbn [out].
    apply combine_ok; rewrite I3; [exact NE|exact H2].
  - intros e He. rewrite R in He. destruct (out r1) as [[]|e1].
    + right. split; [reflexivity|]. cbn [out] in He.
      now apply combine_raises_index in He.
    + left. cbn in He. exact He.
  - intros L NE. subst lines.
    destruct (line_breaks_no_fragments f_line rel_ind_con line_nr manual
                (set_line_indents (repeat 0 (@length str [])) s)) as [O1 L1].
    fold r1 in O1, L1. rewrite O1 in R.
    assert (L3 : line_indents s3 = []) by exact L1.
    assert (O : out r = Ok tt).
    { rewrite R. cbn [out]. apply combine_no_fragments; [exact L3|].
      rewrite I3. exact NE. }
    split; [exact O|].
    rewrite R. cbn [post]. unfold combine_indents.
    revert O. rewrite R. cbn [out]. unfold combine_indents. msimp.
    rewrite L3. cbn [shift_all].
    destruct (snoc_cases (indent_storage s3)) as [E0|(ind0 & cur & E1)];
      [rewrite I3 in E0; contradiction|].
    rewrite E1, index_m1_snoc, pop_last_snoc.
    destruct (nonempty ms);
      [|destruct (nonempty cs);
        [destruct (valid_con_of scopes1 cs)
        |destruct (nonempty es); [destruct (snd pe)|]]];
      cbn [negb when]; msimp; reflexivity.
Qed.

End TrackerFatal.

(** ** [CharFilter] and [enumerate] *)

Lemma in_combine_seq {A} (l : list A) : forall k p c,
  In (p, c) (combine (seq k (length l)) l) ->
  (k <= p)%nat /\ nth_error l (p - k) = Some c.
Proof.
  induction l as [|x l IH]; intros k p c H; cbn in H; [contradiction|].
  destruct H as [H|H].
  - injection H as <- <-. split; [lia|]. now rewrite Nat.sub_diag.
  - apply IH in H. destruct H as [H1 H2]. split; [lia|].
    replace (p - k)%nat with (S (p - S k)) by lia. exact H2.
Qed.

Lemma in_enumerate {A} (l : list A) p c :
  In (p, c) (enumerate l) -> nth_error l p = Some c.
Proof.
  intros H. apply in_combine_seq in H. destruct H as [_ H].
  now rewrite Nat.sub_0_r in H.
Qed.

Lemma sorted_combine_seq {A} (l : list A) : forall k,
  StronglySorted (fun a b : nat * A => (fst a < fst b)%nat)
                 (combine (seq k (length l)) l).
Proof.
  induction l as [|x l IH]; intros k; cbn; constructor.
  - apply IH.
  - apply Forall_forall. intros [p c] H. apply in_combine_seq in H. cbn. lia.
Qed.

Lemma CharFilter_from_incl st it x :
  In x (CharFilter_from st it) -> In x it.
Proof.
  revert st. induction it as [|[pos char] it IH]; intros st H; cbn in H;
    [contradiction|].
  destruct st as [q|].
  - destruct (ch_eqb char q).
    + destruct H as [H|H]; [left; exact H|right; eapply IH; exact H].
    + right. eapply IH; exact H.
  - destruct (ch_eqb char bang); [contradiction|].
    destruct (ch_eqb char dquote || ch_eqb char squote)%bool.
    + right. eapply IH; exact H.
    + destruct H as [H|H]; [left; exact H|right; eapply IH; exact H].
Qed.

Lemma CharFilter_from_sorted st it :
  StronglySorted pos_lt it -> StronglySorted pos_lt (CharFilter_from st it).
Proof.
  revert st. induction it as [|[pos char] it IH]; intros st H; cbn;
    [constructor|].
  inversion H as [|? ? Hs Hf]; subst.
  assert (K : StronglySorted pos_lt ((pos, char) :: CharFilter_from None it)).
  { constructor; [apply IH; exact Hs|]. apply Forall_forall. intros x Hx.
    apply CharFilter_from_incl in Hx. rewrite Forall_forall in Hf. now apply Hf. }
  destruct st as [q|].
  - destruct (ch_eqb char q); [exact K|apply IH; exact Hs].
  - destruct (ch_eqb char bang); [constructor|].
    destruct (ch_eqb char dquote || ch_eqb char squote)%bool;
      [apply IH; exact Hs|exact K].
Qed.

Lemma CharFilter_valid (line : str) p c :
  In (p, c) (CharFilter (enumerate line)) -> nth_error line p = Some c.
Proof. intros H. apply CharFilter_from_incl in H. now apply in_enumerate. Qed.

Lemma CharFilter_sorted (line : str) :
  StronglySorted pos_lt (CharFilter (enumerate line)).
Proof. apply CharFilter_from_sorted. apply (sorted_combine_seq line 0). Qed.
(** ** Computations that return *)

Lemma out_bind_raise {S A B} (m : M S A) (k : A -> M S B) s e :
  out (m s) = Raise e -> out (bind m k s) = Raise e.
Proof. intros H. unfold bind. rewrite H. reflexivity. Qed.

Lemma bind_out_post {S A B} (m : M S A) (k : A -> M S B) s a :
  out (m s) = Ok a ->
  out (bind m k s) = out (k a (post (m s)))
  /\ post (bind m k s) = post (k a (post (m s))).
Proof. intros H. unfold bind. rewrite H. split; reflexivity. Qed.

(** ** The aligner's targets during the scan of a fragment *)

Lemma zlen_snoc {A} (l : list A) (x : A) : zlen (l ++ [x]) = zlen l + 1.
Proof. unfold zlen. rewrite length_app. cbn. lia. Qed.

Lemma zlen_nonneg {A} (l : list A) : 0 <= zlen l.
Proof. unfold zlen. lia. Qed.

Lemma targets_push base li nr lv level (a : F90Aligner) x :
  targets base li nr lv level a ->
  targets base li nr lv (level + 1) (set_br (fun l => l ++ [x]) a)
  /\ targets base li nr lv level (set_br (fun l => l ++ [x]) a).
Proof.
  intros (rest & E & L & F). split; exists (rest ++ [x]); cbn; rewrite E;
    rewrite zlen_snoc; repeat split; try apply F; lia.
Qed.

Lemma targets_pop base li nr lv level (a : F90Aligner) :
  targets base li nr lv level a -> 0 < level ->
  exists r0 x,
    pop_last (al_br_indent_list a) = Ok (x, base :: r0)
    /\ targets base li nr lv (level - 1) (set_br (fun _ => base :: r0) a).
Proof.
  intros (rest & E & L & F) P.
  destruct (snoc_cases rest) as [Z|(r0 & x & Z)].
  - subst rest. cbn in L. lia.
  - exists r0, x. rewrite E, Z. split.
    + apply (pop_last_snoc (base :: r0) x).
    + exists r0. cbn. subst rest. rewrite zlen_snoc in L.
      repeat split; try apply F; lia.
Qed.

Lemma targets_level base li nr lv l1 l2 (a : F90Aligner) :
  targets base li nr lv l1 a -> 0 <= l2 <= l1 -> targets base li nr lv l2 a.
Proof.
  intros (rest & E & L & F) H. exists rest. repeat split; try apply F;
    try exact E; lia.
Qed.

Lemma targets_top base li nr lv level (a : F90Aligner) :
  targets base li nr lv level a ->
  exists top, index_m1 (al_br_indent_list a) = Ok top.
Proof.
  intros (rest & E & _). rewrite E.
  destruct (snoc_cases rest) as [Z|(r0 & x & Z)]; subst rest.
  - exists base. reflexivity.
  - exists x. apply (index_m1_snoc (base :: r0) x).
Qed.

(** ** The nesting depth and the assignment operators of a fragment *)

Lemma open_delimiter_returns window pos rel wopen base li nr lv (v : scan) :
  returns (targets base li nr lv (sc_level v))
          (open_delimiter window pos rel wopen v)
          (fun v1 a1 =>
             targets base li nr lv (sc_level v1) a1
             /\ (sc_level v1, sc_end_of_delim v1)
                = depth_open window pos wopen (sc_level v, sc_end_of_delim v)
             /\ sc_pos_eq v1 = sc_pos_eq v).
Proof.
  intros a T. unfold open_delimiter, depth_open. cbv zeta.
  destruct wopen as [m|].
  - unfold br_append. msimp. eexists. split; [reflexivity|]. cbn.
    split; [|split; reflexivity].
    now apply (proj1 (targets_push _ _ _ _ _ _ _ T)).
  - msimp. exists v. repeat split. exact T.
Qed.

Lemma close_delimiter_returns window pos wclose base li nr lv (v : scan) :
  returns (targets base li nr lv (sc_level v))
          (close_delimiter window pos wclose v)
          (fun v1 a1 =>
             targets base li nr lv (sc_level v1) a1
             /\ (sc_level v1, sc_end_of_delim v1)
                = depth_close window pos wclose (sc_level v, sc_end_of_delim v)
             /\ sc_pos_eq v1 = sc_pos_eq v).
Proof.
  intros a T. unfold close_delimiter, depth_close. cbv zeta. cbn [fst snd].
  destruct wclose as [m|]; [|msimp; exists v; repeat split; exact T].
  cbv iota. destruct (0 <? sc_level v) eqn:P.
  - apply Z.ltb_lt in P.
    destruct (targets_pop _ _ _ _ _ _ T P) as (r0 & x & Ep & T').
    unfold br_pop. msimp. rewrite Ep. msimp. cbn [snd].
    destruct (pop_last (sc_pos_ldelim v)) as [[? ?]|?];
      [destruct (pop_last (sc_ldelim v)) as [[? ?]|?]|];
      msimp;
      try match goal with
          | |- context [when ?b _] => destruct b; cbn [when]
          end;
      msimp; eexists; (split; [reflexivity|]); cbn;
      (split; [exact T'|split; reflexivity]).
  - msimp.
    destruct (pop_last (sc_pos_ldelim v)) as [[? ?]|?];
      [destruct (pop_last (sc_ldelim v)) as [[? ?]|?]|];
      msimp;
      try match goal with
          | |- context [when ?b _] => destruct b; cbn [when]
          end;
      msimp; eexists; (split; [reflexivity|]); cbn;
      (split; [exact T|split; reflexivity]).
Qed.

(** ** The code's test for a relational operator, character by character *)

Lemma in_all_ascii (c : ascii) : In c all_ascii.
Proof.
  unfold all_ascii. rewrite <- (ascii_nat_embedding c).
  apply in_map. apply in_seq. pose proof (nat_ascii_bounded c). lia.
Qed.

Lemma in_all_contexts (c : option ascii) : In c all_contexts.
Proof.
  destruct c as [c|]; [right; apply in_map; apply in_all_ascii|left; reflexivity].
Qed.

(** The test of the code and [relational_context] agree on an equals
    sign in every context. *)
Lemma relational_contexts_checked :
  forallb (fun prev =>
             forallb (fun next =>
                        Bool.eqb (matches REL_OP_RE
                                          (option_text prev ++ ["="%char]
                                             ++ option_text next))
                                 (relational_context prev next))
                     all_contexts)
          all_contexts
  = true.
Proof. vm_compute. reflexivity. Qed.

Lemma relational_test (prev next : option ascii) :
  matches REL_OP_RE (option_text prev ++ ["="%char] ++ option_text next)
  = relational_context prev next.
Proof.
  pose proof relational_contexts_checked as H.
  rewrite forallb_forall in H. specialize (H prev (in_all_contexts prev)).
  rewrite forallb_forall in H. specialize (H next (in_all_contexts next)).
  now apply eqb_prop in H.
Qed.

Lemma window_behind (line : str) :
  forall q c0 c,
    nth_error line q = Some c0 -> nth_error line (S q) = Some c ->
    sub line q (Nat.min (S q + 2) (length line))
    = c0 :: c :: option_text (nth_error line (S q + 1)).
Proof.
  unfold sub. induction line as [|a line IH]; intros q c0 c H0 H1;
    [destruct q; discriminate H0|].
  destruct q as [|q].
  - cbn in H0. injection H0 as ->.
    destruct line as [|b line]; [discriminate H1|].
    cbn in H1. injection H1 as ->.
    destruct line as [|d line]; reflexivity.
  - cbn [nth_error] in H0, H1.
    change (S (S q) + 2)%nat with (S (S q + 2)).
    cbn [length]. rewrite <- Nat.succ_min_distr.
    cbn [Nat.sub skipn].
    change (nth_error (a :: line) (S (S q + 2)))
      with (nth_error line (S q + 2)) in *.
    replace (nth_error (a :: line) (S (S q) + 1)) with (nth_error line (S q + 1))
      by reflexivity.
    exact (IH q c0 c H0 H1).
Qed.

Lemma window_at_start (line : str) (c : ascii) :
  nth_error line 0 = Some c ->
  sub line 0 (Nat.min 2 (length line)) = c :: option_text (nth_error line 1).
Proof.
  intros H. destruct line as [|a line]; [discriminate H|].
  cbn in H. injection H as ->. destruct line as [|b line]; reflexivity.
Qed.

(** On a character of the line, [assignment_at] is the test that
    [__align_line_continuations] makes. *)
Lemma assignment_at_test (line : str) (pos : nat) (char : ascii) :
  nth_error line pos = Some char ->
  assignment_at line (pos, char)
  = (ch_eqb char "="
     && negb (matches REL_OP_RE
                      (sub line (pos - 1) (Nat.min (pos + 2) (length line)))))%bool.
Proof.
  intros V. unfold assignment_at. cbn [fst snd].
  destruct (ch_eqb char "=") eqn:E; [|reflexivity]. cbn [andb]. f_equal.
  unfold ch_eqb in E. apply Ascii.eqb_eq in E. subst char.
  destruct pos as [|q].
  - cbn [Nat.sub Nat.add char_before]. rewrite (window_at_start line _ V).
    symmetry. exact (relational_test None (nth_error line 1)).
  - cbn [char_before]. rewrite Nat.sub_succ, Nat.sub_0_r.
    destruct (nth_error line q) as [c0|] eqn:Q.
    + rewrite (window_behind line q c0 _ Q V).
      symmetry. exact (relational_test (Some c0) (nth_error line (S q + 1))).
    + apply nth_error_None in Q.
      assert (L : (S q < length line)%nat) by (apply nth_error_Some; congruence).
      lia.
Qed.

Lemma alignment_target_cases line pos char base li nr lv (v : scan)
      (a : F90Aligner) :
  nth_error line pos = Some char ->
  targets base li nr lv (sc_level v) a ->
  let r := alignment_target line false pos char v a in
  if ((sc_level v =? 0) && assignment_at line (pos, char))%bool
  then if 0 <? sc_pos_eq v
       then out r = Raise more_than_one_assignment
       else forall next, nth_error line (pos + 1) = Some next ->
            exists v', out r = Ok v'
                       /\ targets base li nr lv (sc_level v') (post r)
                       /\ sc_level v' = sc_level v
                       /\ sc_end_of_delim v' = sc_end_of_delim v
                       /\ 0 < sc_pos_eq v'
  else out r = Ok v /\ post r = a.
Proof.
  intros V T. rewrite (assignment_at_test line pos char V).
  unfold alignment_target, truthy. cbv zeta.
  cbn [fst snd negb andb].
  destruct (sc_level v =? 0); cbn [negb andb]; [|msimp; split; reflexivity].
  destruct (ch_eqb char "="); cbn [andb]; [|msimp; split; reflexivity].
  destruct (matches REL_OP_RE
              (sub line (pos - 1) (Nat.min (pos + 2) (length line))));
    cbn [negb]; [msimp; split; reflexivity|].
  destruct (0 <? sc_pos_eq v); [reflexivity|].
  intros next Hn. unfold index. rewrite Hn. msimp.
  destruct (negb (search ASSIGN_BREAK_RE line)).
  - destruct (targets_top _ _ _ _ _ _ T) as (top & Et).
    unfold br_top, br_append. msimp. rewrite Et. msimp.
    eexists. split; [reflexivity|]. cbn. repeat split; try lia.
    now apply (proj2 (targets_push _ _ _ _ _ _ _ T)).
  - msimp. eexists. split; [reflexivity|]. cbn. repeat split; try lia. exact T.
Qed.

(** One turn of the scan outside declarations: the nesting depth moves
    as [depth_step] says; at an assignment operator at depth 0 the turn
    raises the internal-defect error when an assignment operator has been
    seen, and notes this one otherwise. *)
Lemma align_char_depth line rel base li nr lv (v : scan) p c (a : F90Aligner) :
  nth_error line p = Some c ->
  targets base li nr lv (sc_level v) a ->
  let d := depth_step line (sc_level v, sc_end_of_delim v) (p, c) in
  let r := align_char line false rel v (p, c) a in
  if ((fst d =? 0) && assignment_at line (p, c))%bool
  then if 0 <? sc_pos_eq v
       then out r = Raise more_than_one_assignment
       else forall next, nth_error line (p + 1) = Some next ->
            exists v', out r = Ok v'
                       /\ targets base li nr lv (sc_level v') (post r)
                       /\ (sc_level v', sc_end_of_delim v') = d
                       /\ 0 < sc_pos_eq v'
  else exists v', out r = Ok v'
                  /\ targets base li nr lv (sc_level v') (post r)
                  /\ (sc_level v', sc_end_of_delim v') = d
                  /\ sc_pos_eq v' = sc_pos_eq v.
Proof.
  intros V T. unfold depth_step, align_char. cbv zeta. cbn [fst snd].
  set (window := sub line p (p + 2)).
  set (wopen := if Z.of_nat p =? sc_end_of_delim v
                then None else match_m DEL_OPEN_RE window).
  set (wclose := if Z.of_nat p =? sc_end_of_delim v
                 then None else match_m DEL_CLOSE_RE window).
  destruct (open_delimiter_returns window p rel wopen base li nr lv v a T)
    as (v1 & O1 & T1 & D1 & Q1).
  destruct (close_delimiter_returns window p wclose base li nr lv v1 _ T1)
    as (v2 & O2 & T2 & D2 & Q2).
  rewrite <- D1, <- D2. cbn [fst].
  match goal with
  | |- context [out (bind ?m ?k a)] =>
      destruct (bind_out_post m k a v1 O1) as [E1 E2]
  end.
  rewrite E1, E2. clear E1 E2.
  match goal with
  | |- context [out (bind ?m ?k ?s)] =>
      destruct (bind_out_post m k s v2 O2) as [E1 E2]
  end.
  rewrite E1, E2. clear E1 E2.
  pose proof (alignment_target_cases line p c base li nr lv v2 _ V T2) as C.
  cbv zeta in C. rewrite <- Q1, <- Q2.
  destruct ((sc_level v2 =? 0) && assignment_at line (p, c))%bool.
  - destruct (0 <? sc_pos_eq v2); [exact C|].
    intros next Hn. destruct (C next Hn) as (v' & O & T' & L & D & Q).
    exists v'. repeat split; try assumption. now rewrite L, D.
  - destruct C as [O P]. exists v2. rewrite O, P. repeat split. exact T2.
Qed.

Lemma tops_in line :
  forall items v q,
    In q (top_level_assignments_from line items v) -> exists c, In (q, c) items.
Proof.
  induction items as [|[p c] rest IH]; intros v q H; [contradiction|].
  cbn [top_level_assignments_from] in H. apply in_app_or in H.
  destruct H as [H|H].
  - destruct (_ && _)%bool in H; [|contradiction].
    destruct H as [<-|[]]. exists c. left. reflexivity.
  - destruct (IH _ _ H) as (c' & I). exists c'. right. exact I.
Qed.

(** The scan of a fragment raises the internal-defect error when it
    meets a second assignment operator at depth 0. *)
Lemma scan_raises (line : str) rel base li nr lv :
  forall items (v : scan) (a : F90Aligner),
    (forall p c, In (p, c) items -> nth_error line p = Some c) ->
    StronglySorted pos_lt items ->
    targets base li nr lv (sc_level v) a ->
    let tops := top_level_assignments_from line items
                                           (sc_level v, sc_end_of_delim v) in
    (0 < sc_pos_eq v /\ tops <> []) \/ (2 <= length tops)%nat ->
    out (foldM (align_char line false rel) items v a)
    = Raise more_than_one_assignment.
Proof.
  induction items as [|[p c] rest IH]; intros v a V S T tops H.
  - cbn in tops. subst tops. destruct H as [[_ H]|H]; [contradiction|cbn in H; lia].
  - cbn [foldM].
    inversion S as [|? ? Srest Fp]; subst.
    assert (Vrest : forall p0 c0, In (p0, c0) rest -> nth_error line p0 = Some c0)
      by (intros; apply V; right; assumption).
    pose proof (align_char_depth line rel base li nr lv v p c a
                  (V p c (or_introl eq_refl)) T) as E.
    cbv zeta in E. cbn [top_level_assignments_from] in tops.
    set (d := depth_step line (sc_level v, sc_end_of_delim v) (p, c)) in *.
    set (r := align_char line false rel v (p, c) a) in *.
    destruct ((fst d =? 0) && assignment_at line (p, c))%bool eqn:Top.
    + destruct (0 <? sc_pos_eq v) eqn:Q.
      * apply out_bind_raise. exact E.
      * assert (N : top_level_assignments_from line rest d <> []).
        { subst tops. destruct H as [[H _]|H]; [apply Z.ltb_ge in Q; lia|].
          cbn in H. intros Z. rewrite Z in H. cbn in H. lia. }
        assert (Next : exists next, nth_error line (p + 1) = Some next).
        { destruct (top_level_assignments_from line rest d) as [|q tl] eqn:F;
            [contradiction|].
          destruct (tops_in line rest d q) as (c' & I);
            [rewrite F; left; reflexivity|].
          rewrite Forall_forall in Fp. pose proof (Fp _ I) as Lt.
          unfold pos_lt in Lt. cbn in Lt.
          pose proof (Vrest _ _ I) as Vq.
          assert (Len : (q < length line)%nat)
            by (apply nth_error_Some; rewrite Vq; discriminate).
          destruct (nth_error line (p + 1)) as [n|] eqn:G; [now exists n|].
          apply nth_error_None in G. lia. }
        destruct Next as (next & G).
        destruct (E next G) as (v' & O & T' & D & P').
        match goal with
        | |- out (bind ?m ?k ?s) = _ =>
            destruct (bind_out_post m k s v' O) as [B _]; rewrite B
        end.
        apply (IH v' _ Vrest Srest T'). cbv zeta. rewrite D.
        left. split; [exact P'|exact N].
    + destruct E as (v' & O & T' & D & Q').
      match goal with
      | |- out (bind ?m ?k ?s) = _ =>
          destruct (bind_out_post m k s v' O) as [B _]; rewrite B
      end.
      apply (IH v' _ Vrest Srest T'). cbv zeta. rewrite Q', D.
      subst tops. cbn [app] in H. exact H.
Qed.

(* ================================================================= *)
(** ** The exceptions of the token formatter *)

Lemma raises_only_ret {S A} P (a : A) : raises_only P (@ret S A a).
Proof. intros s e H. discriminate H. Qed.

Lemma raises_only_raise {S A} (P : exn -> Prop) (e : exn) :
  P e -> raises_only P (@raise S A e).
Proof. intros H s e' E. cbn in E. injection E as <-. exact H. Qed.

Lemma raises_only_lift {S A} (P : exn -> Prop) (o : outcome A) :
  (forall e, o = Raise e -> P e) -> raises_only P (@lift S A o).
Proof. intros H s e E. apply H. exact E. Qed.

Lemma raises_only_gets {S A} P (f : S -> A) : raises_only P (gets f).
Proof. intros s e H. discriminate H. Qed.

Lemma raises_only_modify {S} P (f : S -> S) : raises_only P (modify f).
Proof. intros s e H. discriminate H. Qed.

Lemma raises_only_logger {S} P l msg : raises_only P (@logger S l msg).
Proof. intros s e H. discriminate H. Qed.

Lemma raises_only_bind {S A B} P (m : M S A) (k : A -> M S B) :
  raises_only P m -> (forall a, raises_only P (k a)) -> raises_only P (bind m k).
Proof.
  intros Hm Hk s e. unfold bind.
  destruct (out (m s)) as [a|e'] eqn:O; cbn [out].
  - apply Hk.
  - intros E. injection E as <-. exact (Hm s e' O).
Qed.

Lemma raises_only_foldM {S A B} P (body : A -> B -> M S A) :
  (forall a x, raises_only P (body a x)) ->
  forall l a, raises_only P (foldM body l a).
Proof.
  intros Hb. induction l as [|x l IH]; intros a; cbn [foldM].
  - apply raises_only_ret.
  - apply raises_only_bind; [apply Hb|]. intros a'. apply IH.
Qed.

Lemma raises_only_when {S} P (b : bool) (m : M S unit) :
  raises_only P m -> raises_only P (when b m).
Proof. intros H. destruct b; [exact H|apply raises_only_ret]. Qed.

Lemma raises_only_zoom {S T A} P (proj : S -> T) (upd : T -> S -> S) (m : M T A) :
  raises_only P m -> raises_only P (zoom proj upd m).
Proof. intros H s e E. exact (H (proj s) e E). Qed.

Lemma raises_only_weaken {S A} (P Q : exn -> Prop) (m : M S A) :
  (forall e, P e -> Q e) -> raises_only P m -> raises_only Q m.
Proof. intros PQ H s e E. apply PQ. exact (H s e E). Qed.

Lemma index_raise {A} (l : list A) i e : index l i = Raise e -> e = IndexError.
Proof. unfold index. destruct (nth_error l i); congruence. Qed.

Lemma set_nth_raise {A} (v : A) :
  forall (l : list A) i e, set_nth l i v = Raise e -> e = IndexError.
Proof.
  induction l as [|a l IH]; intros i e H; [cbn in H; congruence|].
  destruct i as [|i]; cbn in H; [discriminate H|].
  destruct (set_nth l i v) as [r|e'] eqn:E; [discriminate H|].
  injection H as <-. exact (IH _ _ E).
Qed.

Ltac raises_step :=
  first
    [ apply raises_only_ret | apply raises_only_logger
    | apply raises_only_gets | apply raises_only_modify
    | apply raises_only_lift; intros ? ?; unfold index_error;
      first [ eapply index_raise; eassumption
            | eapply set_nth_raise; eassumption
            | eapply index_m1_raise; eassumption ]
    | apply raises_only_when
    | apply raises_only_foldM; intros
    | apply raises_only_bind; [|intros]
    | match goal with
      | |- raises_only _ (if ?c then _ else _) => destruct c
      | |- raises_only _ (match ?x with _ => _ end) => destruct x
      end ].

Lemma format_char_raises line spacey (v : fmt) pc :
  raises_only index_error (format_char line spacey v pc).
Proof.
  destruct pc as [pos char]. unfold format_char. cbv zeta.
  repeat raises_step.
Qed.

Lemma format_assignment_raises line spacey line_ftd pos :
  raises_only index_error (format_assignment line spacey line_ftd pos).
Proof. unfold format_assignment. cbv zeta. repeat raises_step. Qed.

Lemma two_sided_raises spacey line_parts :
  raises_only index_error (two_sided spacey line_parts).
Proof.
  unfold two_sided. apply raises_only_foldM. intros lp [n_op lr_re].
  apply raises_only_foldM. intros lp' [pos part]. repeat raises_step.
Qed.

Lemma shift_loop_raises line line_orig :
  forall fuel pos_new pos_old linebreak_pos acc e,
    shift_loop fuel line line_orig pos_new pos_old linebreak_pos acc = Raise e ->
    e = failed_break.
Proof.
  induction fuel as [|fuel IH]; intros pn po lbp acc e H; [discriminate H|].
  cbn [shift_loop] in H.
  destruct (nth_error line pn) as [a|]; [|discriminate H].
  destruct (nth_error line_orig po) as [b|]; [|discriminate H].
  destruct (negb (ch_eqb a b)); [congruence|].
  cbv zeta in H.
  destruct (match pop_last lbp with
            | Ok (lb, rest) => if lb <? Z.of_nat po then Some rest else None
            | Raise _ => None
            end) as [rest|]; [exact (IH _ _ _ _ _ H)|].
  destruct (same_object a b); [exact (IH _ _ _ _ _ H)|].
  destruct (is_blank a); [exact (IH _ _ _ _ _ H)|].
  destruct (is_blank b); [exact (IH _ _ _ _ _ H)|congruence].
Qed.

Lemma shift_linebreaks_raises line line_orig linebreak_pos e :
  shift_linebreaks line line_orig linebreak_pos = Raise e -> e = failed_break.
Proof.
  unfold shift_linebreaks.
  destruct (shift_loop _ line line_orig 0 0 (sort_desc linebreak_pos) []) as [l|e']
    eqn:E; [discriminate|].
  intros H. injection H as <-. exact (shift_loop_raises _ _ _ _ _ _ _ _ E).
Qed.

Lemma break_lines_raises line ftd seps e :
  break_lines line ftd seps = Raise e -> e = IndexError.
Proof.
  unfold break_lines.
  match goal with
  | |- context [?g (enumerate ?l)] => set (go := g); generalize (enumerate l)
  end.
  intros l.
  assert (G : forall e', go l = Raise e' -> e' = IndexError).
  { induction l as [|[pos [l0 r0]] l IH]; intros e' H; [discriminate H|].
    cbn in H. destruct (index seps pos) as [sep|e1] eqn:I1.
    - fold go in H. destruct (go l) as [rest|e2]; [discriminate H|].
      injection H as <-. now apply IH.
    - injection H as <-. exact (index_raise _ _ _ I1). }
  destruct (go l) as [lines_out|e1].
  - destruct (index_m1 ftd) as [lastpos|e2] eqn:I2; [discriminate|].
    intros H. injection H as <-. exact (index_m1_raise _ _ I2).
  - intros H. injection H as <-. now apply G.
Qed.

Lemma spacey_supported (whitespace : Z) :
  supported whitespace -> exists spacey, spacey_of whitespace = Ok spacey.
Proof. intros [-> | [-> | ->]]; eexists; reflexivity. Qed.

Lemma spacey_unsupported (whitespace : Z) :
  ~ supported whitespace -> spacey_of whitespace = Raise unknown_whitespace.
Proof.
  intros N. unfold spacey_of.
  destruct (whitespace =? 0) eqn:E0; [apply Z.eqb_eq in E0; exfalso; apply N; now left|].
  destruct (whitespace =? 1) eqn:E1;
    [apply Z.eqb_eq in E1; exfalso; apply N; right; now left|].
  destruct (whitespace =? 2) eqn:E2;
    [apply Z.eqb_eq in E2; exfalso; apply N; right; now right|].
  reflexivity.
Qed.

(** The exceptions of [format_single_fline]. *)
Lemma format_single_fline_raises (f_line : str) (whitespace : Z)
      (linebreak_pos ampersand_sep : list Z) (auto_format : bool) :
  raises_only (fun e => e = unknown_whitespace \/ formatter_error e)
              (format_single_fline f_line whitespace linebreak_pos ampersand_sep
                                   auto_format).
Proof.
  unfold format_single_fline. cbv zeta.
  apply raises_only_bind.
  { apply raises_only_lift. intros e H. left. unfold spacey_of in H.
    destruct (whitespace =? 0); [discriminate H|].
    destruct (whitespace =? 1); [discriminate H|].
    destruct (whitespace =? 2); [discriminate H|]. now injection H as <-. }
  intros spacey.
  apply (raises_only_weaken formatter_error); [intros e H; now right|].
  apply raises_only_bind.
  { apply (raises_only_weaken index_error); [intros e ->; now left|].
    apply raises_only_foldM. intros. apply format_char_raises. }
  intros v. apply raises_only_bind.
  { apply (raises_only_weaken index_error); [intros e ->; now left|].
    apply raises_only_foldM. intros. apply format_assignment_raises. }
  intros line_ftd. apply raises_only_bind.
  { apply (raises_only_weaken index_error); [intros e ->; now left|].
    apply two_sided_raises. }
  intros line_parts. apply raises_only_bind.
  { apply raises_only_lift. intros e H. right.
    exact (shift_linebreaks_raises _ _ _ _ H). }
  intros ftd. apply raises_only_bind.
  { apply raises_only_lift. intros e H. left.
    exact (break_lines_raises _ _ _ _ H). }
  intros lines_out. repeat raises_step.
Qed.

Section Assignment.

Variable VAR_DECL_RE_match : str -> bool.

(** C2, as amended: the check sits in the Continuation Aligner and works
    on one physical fragment at a time, outside declarations.  When a
    fragment holds two top-level assignment operators (each an equals
    sign at nesting depth 0, outside strings and comments, that the code
    does not take for part of a relational operator: it does not follow
    [=], [/], [<] or [>], and is not followed by [=] at the start of the
    fragment or behind whitespace), scanning the fragment from nesting
    depth 0 raises the internal-defect error; so does the Scope/Indent
    Tracker for a logical line made of this one fragment, when it is no
    declaration and no override offsets are given.  The Token Formatter
    never raises this error. *)
Theorem second_assignment_is_internal_defect (line : str) :
  (2 <= length (top_level_assignments line 0))%nat ->
  (forall indent_size nr (a : F90Aligner),
      al_level a = 0 -> al_br_indent_list a <> [] ->
      out (align_line_continuations line false indent_size nr a)
      = Raise more_than_one_assignment)
  /\ (forall f_line rel_ind rel_ind_con line_nr (s : F90Indenter),
         VAR_DECL_RE_match f_line = false -> matches PUBLIC_RE f_line = false ->
         out (process_lines_of_fline VAR_DECL_RE_match f_line [line] rel_ind
                                     rel_ind_con line_nr [] s)
         = Raise more_than_one_assignment)
  /\ (forall f_line whitespace linebreak_pos ampersand_sep auto_format s,
         out (format_single_fline f_line whitespace linebreak_pos ampersand_sep
                                  auto_format s)
         <> Raise more_than_one_assignment).
Proof.
  intros Two.
  assert (Frag : forall indent_size nr (a : F90Aligner),
             al_level a = 0 -> al_br_indent_list a <> [] ->
             out (align_line_continuations line false indent_size nr a)
             = Raise more_than_one_assignment).
  { intros indent_size nr a L B. unfold align_line_continuations.
    rewrite bind_gets. unfold br_top. rewrite bind_assoc, bind_gets.
    destruct (snoc_cases (al_br_indent_list a)) as [Z|(l0 & top & Z)];
      [contradiction|].
    rewrite Z, index_m1_snoc, bind_lift_ok.
    apply out_bind_raise.
    destruct (al_br_indent_list a) as [|base rest] eqn:Eb; [contradiction|].
    apply (scan_raises line top base (al_line_indents a) (al_line_nr a)
                       (al_level a)).
    - intros p c. apply CharFilter_valid.
    - apply CharFilter_sorted.
    - cbn [sc_level]. exists rest. rewrite L. repeat split; try assumption;
        try lia. apply zlen_nonneg.
    - cbv zeta. cbn [sc_level sc_end_of_delim]. right. rewrite L. exact Two. }
  split; [exact Frag|]. split.
  2:{ intros f_line whitespace linebreak_pos ampersand_sep auto_format s H.
      apply (format_single_fline_raises f_line whitespace linebreak_pos
               ampersand_sep auto_format) in H.
      destruct H as [H|[H|H]]; discriminate H. }
  intros f_line rel_ind rel_ind_con line_nr s D P.
  destruct (process_run VAR_DECL_RE_match f_line [line] rel_ind rel_ind_con
                        line_nr [] s) as (logs & _ & R).
  cbv zeta in R.
  match type of R with
  | _ = match out ?r1 with _ => _ end => assert (O : out r1 = Raise more_than_one_assignment)
  end.
  { unfold deal_with_line_breaks. apply out_bind_raise. apply out_bind_raise.
    unfold zoom. cbn [out]. unfold aligner_process_lines_of_fline.
    rewrite bind_modify. apply out_bind_raise. unfold forM, enumerate.
    cbn [length seq combine foldM]. apply out_bind_raise.
    rewrite bind_gets. apply out_bind_raise. rewrite D, P. cbn [orb].
    apply Frag; [reflexivity|discriminate]. }
  rewrite O in R. rewrite R. reflexivity.
Qed.

End Assignment.

(** ** Assertions on stateful code *)

Lemma hoare_bind {S A B} (P : S -> Prop) (R : A -> S -> Prop)
      (Q : B -> S -> Prop) (m : M S A) (k : A -> M S B) :
  hoare P m R -> (forall a, hoare (R a) (k a) Q) -> hoare P (bind m k) Q.
Proof.
  intros Hm Hk s Ps b. unfold bind.
  specialize (Hm s Ps). destruct (m s) as [[a|e] s1 e1]; cbn in *.
  - intros O. apply (Hk a s1); [now apply Hm|exact O].
  - discriminate.
Qed.

Lemma hoare_ret {S A} (a : A) (Q : A -> S -> Prop) :
  hoare (Q a) (ret a) Q.
Proof. intros s Ps b [= <-]. exact Ps. Qed.

Lemma hoare_ret_weak {S A} (P : S -> Prop) (a : A) (Q : A -> S -> Prop) :
  (forall s, P s -> Q a s) -> hoare P (ret a) Q.
Proof. intros H s Ps b [= <-]. now apply H. Qed.

Lemma hoare_raise {S A} (P : S -> Prop) (e : exn) (Q : A -> S -> Prop) :
  hoare P (raise e) Q.
Proof. intros s _ b O. discriminate O. Qed.

Lemma hoare_conseq {S A} (P P' : S -> Prop) (Q Q' : A -> S -> Prop) (m : M S A) :
  (forall s, P s -> P' s) -> (forall a s, Q' a s -> Q a s) ->
  hoare P' m Q' -> hoare P m Q.
Proof. intros H1 H2 H s Ps a O. apply H2. apply H; auto. Qed.

Lemma hoare_foldM {S A B} (I : A -> S -> Prop) (body : A -> B -> M S A) :
  (forall a x, hoare (I a) (body a x) I) ->
  forall l a, hoare (I a) (foldM body l a) I.
Proof.
  intros Hb l. induction l as [|x l IH]; intros a; cbn [foldM].
  - apply hoare_ret.
  - eapply hoare_bind; [apply Hb|]. intros a'. apply IH.
Qed.

(** ** The targets are kept by every turn of the scan *)

Lemma align_char_targets line is_decl rel base li nr lv (v : scan) pc :
  hoare (targets base li nr lv (sc_level v))
        (align_char line is_decl rel v pc)
        (fun v' a' => targets base li nr lv (sc_level v') a').
Proof.
  destruct pc as [pos char].
  unfold align_char, open_delimiter, close_delimiter, alignment_target. cbv zeta.
  generalize (if Z.of_nat pos =? sc_end_of_delim v
              then None else match_m DEL_OPEN_RE (sub line pos (pos + 2))).
  generalize (if Z.of_nat pos =? sc_end_of_delim v
              then None else match_m DEL_CLOSE_RE (sub line pos (pos + 2))).
  intros wclose wopen.
  apply hoare_bind with (R := fun v' a' => targets base li nr lv (sc_level v') a').
  { destruct wopen as [m|]; [|(apply hoare_ret_weak; intros ? H; exact H)].
    intros s T v' O. revert O. unfold br_append. msimp. intros [= <-].
    cbn [sc_level]. now apply (proj1 (targets_push _ _ _ _ _ _ _ T)). }
  intros v1.
  apply hoare_bind with (R := fun v' a' => targets base li nr lv (sc_level v') a').
  { destruct wclose as [m|]; [|(apply hoare_ret_weak; intros ? H; exact H)].
    cbv iota.
    intros s T v' O. revert O.
    destruct (0 <? sc_level v1) eqn:P.
    - apply Z.ltb_lt in P.
      destruct (targets_pop _ _ _ _ _ _ T P) as (r0 & x & Ep & T').
      unfold br_pop. msimp. rewrite Ep. msimp. cbn [snd].
      destruct (pop_last (sc_pos_ldelim v1)) as [[? ?]|?];
        [destruct (pop_last (sc_ldelim v1)) as [[? ?]|?]|];
        msimp;
        try match goal with
            | |- context [when ?b _] => destruct b; cbn [when]
            end;
        msimp; intros [= <-]; exact T'.
    - msimp.
      destruct (pop_last (sc_pos_ldelim v1)) as [[? ?]|?];
        [destruct (pop_last (sc_ldelim v1)) as [[? ?]|?]|];
        msimp;
        try match goal with
            | |- context [when ?b _] => destruct b; cbn [when]
            end;
        msimp; intros [= <-]; exact T. }
  intros v2. cbn [negb andb].
  destruct (negb (truthy (sc_level v2))); [|(apply hoare_ret_weak; intros ? H; exact H)].
  destruct (negb is_decl && ch_eqb char "=")%bool.
  - destruct (negb (matches REL_OP_RE
                            (sub line (pos - 1) (Nat.min (pos + 2) (length line)))));
      [|(apply hoare_ret_weak; intros ? H; exact H)].
    destruct (0 <? sc_pos_eq v2); [apply hoare_raise|].
    intros s T v' O. revert O.
    destruct (index line (pos + 1)) as [next|e]; msimp; [|discriminate].
    destruct (negb (search ASSIGN_BREAK_RE line)).
    + destruct (targets_top _ _ _ _ _ _ T) as (top & Et).
      unfold br_top, br_append. msimp. rewrite Et. msimp.
      intros [= <-]. cbn [sc_level]. now apply (proj2 (targets_push _ _ _ _ _ _ _ T)).
    + msimp. intros [= <-]. exact T.
  - destruct (is_decl && str_eqb (sub line pos (pos + 2)) (s_ "::"))%bool;
      [|(apply hoare_ret_weak; intros ? H; exact H)].
    destruct (negb (search DECL_BREAK_RE line)); [|(apply hoare_ret_weak; intros ? H; exact H)].
    intros s T v' O. revert O.
    destruct (targets_top _ _ _ _ _ _ T) as (top & Et).
    unfold br_top, br_append. msimp. rewrite Et. msimp.
    intros [= <-]. now apply (proj2 (targets_push _ _ _ _ _ _ _ T)).
Qed.

Lemma set_m1_snoc {A} (l : list A) (x v : A) : set_m1 (l ++ [x]) v = Ok (l ++ [v]).
Proof. unfold set_m1. rewrite rev_app_distr. cbn. now rewrite rev_involutive. Qed.

Lemma index_m2_cons_snoc {A} (b : A) (r0 : list A) (x : A) :
  exists y, index_m2 (b :: r0 ++ [x]) = Ok y.
Proof.
  destruct (snoc_cases (b :: r0)) as [Z|(pre & y & Z)]; [discriminate|].
  exists y. change (b :: r0 ++ [x]) with ((b :: r0) ++ [x]). rewrite Z.
  rewrite <- app_assoc. apply index_m2_snoc.
Qed.

Lemma br_set_top_run (a : F90Aligner) l x v :
  al_br_indent_list a = l ++ [x] ->
  br_set_top v a = mk_result (Ok tt) (set_br (fun _ => l ++ [v]) a) [].
Proof.
  intros E. unfold br_set_top. msimp. rewrite E, set_m1_snoc. msimp. reflexivity.
Qed.

Lemma br_top_run (a : F90Aligner) l x :
  al_br_indent_list a = l ++ [x] -> br_top a = mk_result (Ok x) a [].
Proof.
  intros E. unfold br_top. msimp. rewrite E, index_m1_snoc. reflexivity.
Qed.

Lemma bind_ok_nil {S A B} (m : M S A) (f : A -> M S B) s a s1 :
  m s = mk_result (Ok a) s1 [] -> bind m f s = f a s1.
Proof.
  intros H. rewrite (bind_ok _ _ _ _ _ _ H). cbn. apply result_nil_l.
Qed.

(** What scanning one fragment does to the aligner: the base entry of the
    list of targets stays below the entries of open delimiters and pending
    targets; when none of those is left at the end of the fragment, the
    list is its base entry alone, which is the fallback step once it was
    set. *)
Lemma align_line_continuations_targets line is_decl indent_size nr0
      (a : F90Aligner) base rest :
  al_br_indent_list a = base :: rest ->
  0 <= al_level a <= zlen rest ->
  let r := align_line_continuations line is_decl indent_size nr0 a in
  out r = Ok tt ->
  exists base' rest',
    al_br_indent_list (post r) = base' :: rest'
    /\ 0 <= al_level (post r) <= zlen rest'
    /\ al_line_indents (post r) = al_line_indents a
    /\ al_line_nr (post r) = al_line_nr a
    /\ (rest' = [] -> base' = if base =? 0 then indent_size else base)
    /\ (rest' <> [] -> base' = base).
Proof.
  intros E L. cbv zeta.
  remember (align_line_continuations line is_decl indent_size nr0 a) as res
    eqn:Hres.
  symmetry in Hres.
  unfold align_line_continuations in Hres.
  rewrite bind_gets in Hres.
  assert (T : targets base (al_line_indents a) (al_line_nr a) (al_level a)
                      (al_level a) a)
    by (exists rest; repeat split; try assumption; lia).
  destruct (targets_top _ _ _ _ _ _ T) as (top0 & Et).
  unfold br_top at 1 in Hres.
  rewrite bind_assoc, bind_gets, Et, bind_lift_ok in Hres.
  set (v0 := mk_scan (al_level a) 0 [] [] [] [] (-1)) in *.
  pose proof (hoare_foldM
                (fun (v : scan) a' =>
                   targets base (al_line_indents a) (al_line_nr a) (al_level a)
                           (sc_level v) a')
                (align_char line is_decl top0)
                (fun v x => align_char_targets line is_decl top0 base
                              (al_line_indents a) (al_line_nr a) (al_level a) v x)
                (CharFilter (enumerate line)) v0 a T) as HF.
  destruct (foldM (align_char line is_decl top0) (CharFilter (enumerate line)) v0 a)
    as [[v|e] a1 e1] eqn:Ef.
  2:{ rewrite (bind_raise _ _ _ _ _ _ Ef) in Hres. subst res. discriminate. }
  rewrite (bind_ok _ _ _ _ _ _ Ef) in Hres. cbn [out post emitted] in Hres.
  specialize (HF v eq_refl). cbn [post] in HF.
  destruct HF as (rest1 & E1 & L1 & F1 & F2 & F3).
  (* the opener directly before the line break *)
  assert (Step1 : exists rest2 a2,
    zlen rest2 = zlen rest1
    /\ al_br_indent_list a2 = base :: rest2
    /\ al_line_indents a2 = al_line_indents a1
    /\ al_line_nr a2 = al_line_nr a1
    /\ when (truthy (sc_level v) && search OPEN_BREAK_RE line)%bool
            (let* l := gets al_br_indent_list in
             if 1 <? zlen l
             then let* below := lift (index_m2 l) in br_set_top below
             else br_set_top 0) a1
       = mk_result (Ok tt) a2 []).
  { destruct (truthy (sc_level v) && search OPEN_BREAK_RE line)%bool eqn:C;
      cbn [when].
    - apply andb_prop in C. destruct C as [C _].
      destruct (snoc_cases rest1) as [Z|(r0 & x & Z)].
      + subst rest1. cbn in L1. assert (sc_level v = 0) by lia.
        unfold truthy in C. rewrite H in C. discriminate.
      + destruct (index_m2_cons_snoc base r0 x) as (y & Ey).
        assert (E1' : al_br_indent_list a1 = (base :: r0) ++ [x])
          by (rewrite E1, Z; reflexivity).
        exists (r0 ++ [y]), (set_br (fun _ => (base :: r0) ++ [y]) a1).
        split; [subst rest1; now rewrite !zlen_snoc|].
        split; [reflexivity|]. split; [reflexivity|]. split; [reflexivity|].
        rewrite bind_gets, E1, Z.
        assert (G : (1 <? zlen (base :: r0 ++ [x])) = true).
        { apply Z.ltb_lt. change (base :: r0 ++ [x]) with ((base :: r0) ++ [x]).
          rewrite zlen_snoc. pose proof (zlen_nonneg r0). unfold zlen in *.
          cbn [length]. lia. }
        rewrite G, Ey, bind_lift_ok. apply (br_set_top_run _ _ _ _ E1').
    - exists rest1, a1. repeat split. exact E1. }
  destruct Step1 as (rest2 & a2 & Z2 & E2 & G1 & G2 & R1).
  rewrite (bind_ok_nil _ _ _ _ _ R1) in Hres.
  destruct (snoc_cases rest2) as [Z|(r0 & x & Z)]; subst rest2.
  - assert (E2' : al_br_indent_list a2 = [] ++ [base]) by exact E2.
    rewrite (bind_ok_nil _ _ _ _ _ (br_top_run _ _ _ E2')) in Hres.
    assert (L0 : sc_level v = 0).
    { cbn in Z2. unfold zlen in *. cbn in *. lia. }
    unfold truthy in Hres. destruct (base =? 0) eqn:B; cbn [negb when] in Hres.
    + rewrite (bind_ok_nil _ _ _ _ _ (br_set_top_run _ _ _ indent_size E2'))
        in Hres.
      subst res. intros _. exists indent_size, []. cbn. rewrite L0.
      repeat split; try lia; try congruence;
        try (intros N; now contradiction N).
    + rewrite bind_ret in Hres. subst res. intros _. exists base, []. cbn.
      rewrite L0. repeat split; try lia; try congruence;
        try (intros N; now contradiction N).
  - assert (E2' : al_br_indent_list a2 = (base :: r0) ++ [x]) by exact E2.
    rewrite (bind_ok_nil _ _ _ _ _ (br_top_run _ _ _ E2')) in Hres.
    destruct (negb (truthy x)); cbn [when] in Hres.
    + rewrite (bind_ok_nil _ _ _ _ _ (br_set_top_run _ _ _ indent_size E2'))
        in Hres.
      subst res. intros _. exists base, (r0 ++ [indent_size]). cbn.
      rewrite zlen_snoc in *. repeat split; try lia; try congruence;
        try (intros N; apply app_eq_nil in N; destruct N as [_ N]; discriminate).
    + rewrite bind_ret in Hres. subst res. intros _.
      exists base, (r0 ++ [x]). cbn.
      repeat split; try lia; try congruence;
        try (intros N; apply app_eq_nil in N; destruct N as [_ N]; discriminate).
Qed.

(** C7, as amended: the fallback offset is the fallback step itself, not
    the step added to the previous fragment's offset.  The base entry of
    the aligner's list of targets is 0 after [__init_line] and is either 0
    or the fallback step from then on, below the entries of open
    delimiters and pending targets; for every fragment whose scan returns
    and at whose end no delimiter frame is open and no assignment or
    declaration target is pending (the list holds its base entry alone),
    the offset handed to the next fragment is the fallback step, whatever
    the offsets of the fragments before. *)
Theorem fallback_offset_is_the_step
        line is_decl (indent_size nr0 : Z) (a : F90Aligner) base rest :
  al_br_indent_list a = base :: rest ->
  0 <= al_level a <= zlen rest ->
  base = 0 \/ base = indent_size ->
  let r := align_line_continuations line is_decl indent_size nr0 a in
  out r = Ok tt ->
  (exists base' rest',
      al_br_indent_list (post r) = base' :: rest'
      /\ 0 <= al_level (post r) <= zlen rest'
      /\ (base' = 0 \/ base' = indent_size))
  /\ (length (al_br_indent_list (post r)) = 1%nat ->
      al_level (post r) = 0
      /\ index_m1 (al_br_indent_list (post r)) = Ok indent_size).
Proof.
  intros E L B r O. subst r.
  destruct (align_line_continuations_targets line is_decl indent_size nr0 a
              base rest E L O) as (base' & rest' & E' & L' & _ & _ & N & C).
  assert (B' : base' = 0 \/ base' = indent_size).
  { destruct rest' as [|x rest'].
    - rewrite (N eq_refl). destruct (base =? 0) eqn:Z; [right; reflexivity|].
      destruct B as [B|B]; [rewrite B in Z; discriminate|right; exact B].
    - rewrite C by discriminate. exact B. }
  split.
  - exists base', rest'. repeat split; try assumption; apply L'.
  - intros Len. rewrite E' in Len. destruct rest' as [|x rest']; [|discriminate].
    rewrite E'. unfold zlen in L'. cbn [length Z.of_nat] in L'. split; [lia|].
    rewrite (N eq_refl). cbn. destruct (base =? 0) eqn:Z; [reflexivity|].
    destruct B as [B|B]; [rewrite B in Z; discriminate|now rewrite B].
Qed.

(** ** The Token Formatter on the conditional header *)

(** C6: at density level 2 the Token Formatter turns the one-fragment
    line [if(a.gt.b)then] into [if (a .gt. b) then], and does not touch
    the letter case: the same line in upper case keeps its upper case. *)
Theorem format_conditional_header :
  format_single_fline (s_ "if(a.gt.b)then") 2 [] [] true tt
  = mk_result (Ok [s_ "if (a .gt. b) then"]) tt []
  /\ format_single_fline (s_ "IF(A.GT.B)THEN") 2 [] [] true tt
     = mk_result (Ok [s_ "IF (A .GT. B) THEN"]) tt [].
Proof. split; vm_compute; reflexivity. Qed.

(** ** The output guard *)

Lemma CharFilter_code (l : str) : forall k,
  forallb code_char l = true ->
  CharFilter_from None (combine (seq k (length l)) l)
  = combine (seq k (length l)) l.
Proof.
  induction l as [|c l IH]; intros k H; [reflexivity|].
  cbn [forallb] in H. apply andb_prop in H. destruct H as [Hc Hl].
  cbn [length seq combine CharFilter_from].
  unfold code_char in Hc. apply negb_true_iff in Hc.
  apply orb_false_iff in Hc. destruct Hc as [Hc Hs].
  apply orb_false_iff in Hc. destruct Hc as [Hb Hd].
  rewrite Hb, Hd, Hs. cbn [orb]. now rewrite IH.
Qed.

Lemma last_position {A} (l : list A) : forall k d,
  l <> [] ->
  fold_left (fun (_ : nat) (pc : nat * A) => fst pc)
            (combine (seq k (length l)) l) d
  = (k + length l - 1)%nat.
Proof.
  induction l as [|c l IH]; intros k d H; [contradiction|].
  cbn [length seq combine fold_left fst].
  destruct l as [|c' l].
  - cbn. lia.
  - rewrite IH by discriminate. cbn [length]. lia.
Qed.

(** The measured length of a line of code that ends in a newline, with no
    comment and no string literal, is the length of its content plus one. *)
Lemma line_length_code (content : str) :
  forallb code_char content = true ->
  line_length_of (content ++ [nl]) = len content + 1.
Proof.
  intros H. unfold line_length_of, CharFilter, enumerate.
  rewrite CharFilter_code.
  - rewrite last_position by (destruct content; discriminate).
    unfold len. rewrite length_app. cbn [length]. lia.
  - rewrite forallb_app, H. reflexivity.
Qed.

Lemma len_app (a b : str) : len (a ++ b) = len a + len b.
Proof. unfold len. rewrite length_app. lia. Qed.

Lemma len_spaces (n : Z) : 0 <= n -> len (spaces n) = n.
Proof.
  intros H. unfold spaces, times, len.
  rewrite <- (Z2Nat.id n) at 2 by exact H.
  f_equal. induction (Z.to_nat n) as [|k IH]; [reflexivity|].
  cbn. now rewrite IH.
Qed.

Lemma len_mark (b : bool) : len (times (s_ "!$") (bool_Z b)) = 2 * bool_Z b.
Proof. destruct b; reflexivity. Qed.

(** C5, as amended: the guard measures the line up to its last character
    outside string literals and before a trailing comment, plus one (for
    a line of code that ends in a newline and has no comment and no
    string literal: its content length plus one for the newline).  With
    this length [L]: if indent plus [L] is at most 133 the line is written
    with its computed indent; otherwise, if [L] is at most 133, the line
    without its leading blanks is written after as many blanks as make it
    end in column 132 (none if it is longer than that), and the warning is
    logged; otherwise the original physical line is written and the
    warning is logged.  What is written is the original line or ends with
    the whole line without its leading blanks: nothing is truncated. *)
Theorem output_guard_cases
        (ind_use : Z) (is_omp_conditional : bool) (line orig_line : str) :
  let L := line_length_of line in
  let r := guarded_line ind_use is_omp_conditional line orig_line in
  let stripped := lstrip_blank line in
  let omp := bool_Z is_omp_conditional in
  let mark := times (s_ "!$") omp in
  (ind_use + L <= 133 ->
   r = (mark ++ spaces (ind_use - 2 * omp + leading_blanks line) ++ stripped,
        false))
  /\ (133 < ind_use + L -> L <= 133 ->
      r = (mark ++ spaces (133 - 2 * omp - len stripped) ++ stripped, true)
      /\ (2 * omp + len stripped <= 133 -> len (fst r) = 133))
  /\ (133 < ind_use + L -> 133 < L -> r = (orig_line, true))
  /\ (fst r = orig_line \/ exists pad, fst r = pad ++ stripped)
  /\ (forall content,
         line = content ++ [nl] -> forallb code_char content = true ->
         L = len content + 1).
Proof.
  intros L r stripped omp mark. unfold r, guarded_line. fold L omp stripped mark.
  split; [|split; [|split; [|split]]].
  - intros H. apply Z.leb_le in H. rewrite H. unfold leading_blanks.
    fold stripped. f_equal. f_equal. f_equal. f_equal. lia.
  - intros H1 H2. apply Z.leb_gt in H1. apply Z.leb_le in H2.
    rewrite H1, H2. split; [reflexivity|]. intros H3.
    cbn [fst]. rewrite !len_app, len_spaces by lia. subst mark omp.
    rewrite len_mark. lia.
  - intros H1 H2. apply Z.leb_gt in H1. apply Z.leb_gt in H2.
    rewrite H1, H2. reflexivity.
  - destruct (ind_use + L <=? 133); [|destruct (L <=? 133)]; cbn [fst].
    + right. eexists. rewrite app_assoc. reflexivity.
    + right. eexists. rewrite app_assoc. reflexivity.
    + left. reflexivity.
  - intros content E C. unfold L. rewrite E. now apply line_length_code.
Qed.

(** ** Components of the state that a computation leaves alone *)

Lemma preserves_ret {S T A} (f : S -> T) (a : A) : preserves f (@ret S A a).
Proof. intros s. reflexivity. Qed.

Lemma preserves_raise {S T A} (f : S -> T) (e : exn) : preserves f (@raise S A e).
Proof. intros s. reflexivity. Qed.

Lemma preserves_lift {S T A} (f : S -> T) (o : outcome A) : preserves f (@lift S A o).
Proof. intros s. reflexivity. Qed.

Lemma preserves_logger {S T} (f : S -> T) l msg : preserves f (@logger S l msg).
Proof. intros s. reflexivity. Qed.

Lemma preserves_gets {S T A} (f : S -> T) (g : S -> A) : preserves f (gets g).
Proof. intros s. reflexivity. Qed.

Lemma preserves_modify {S T} (f : S -> T) (g : S -> S) :
  (forall s, f (g s) = f s) -> preserves f (modify g).
Proof. intros H s. apply H. Qed.

Lemma preserves_bind {S T A B} (f : S -> T) (m : M S A) (k : A -> M S B) :
  preserves f m -> (forall a, preserves f (k a)) -> preserves f (bind m k).
Proof.
  intros Hm Hk s. unfold bind. specialize (Hm s).
  destruct (m s) as [[a|e] s1 e1]; cbn in *.
  - now rewrite Hk.
  - exact Hm.
Qed.

Lemma preserves_zoom {S U T A} (f : S -> T) (proj : S -> U) (upd : U -> S -> S)
      (m : M U A) :
  (forall u s, f (upd u s) = f s) -> preserves f (zoom proj upd m).
Proof. intros H s. apply H. Qed.

Lemma preserves_foldM {S T A B} (f : S -> T) (body : A -> B -> M S A) :
  (forall a x, preserves f (body a x)) ->
  forall l a, preserves f (foldM body l a).
Proof.
  intros Hb l. induction l as [|x l IH]; intros a; cbn [foldM].
  - apply preserves_ret.
  - apply preserves_bind; [apply Hb|apply IH].
Qed.

Ltac preserves_step :=
  first
    [ apply preserves_ret | apply preserves_raise | apply preserves_lift
    | apply preserves_logger | apply preserves_gets
    | apply preserves_modify; intros; reflexivity
    | apply preserves_zoom; intros; reflexivity
    | apply preserves_foldM; intros
    | apply preserves_bind; [|intros]
    | match goal with
      | |- preserves _ (if ?c then _ else _) => destruct c
      | |- preserves _ (match ?x with _ => _ end) => destruct x
      end ].

Lemma bind_ext {S A B} (m : M S A) (f g : A -> M S B) s :
  (forall a s', f a s' = g a s') -> bind m f s = bind m g s.
Proof. intros H. unfold bind. destruct (m s) as [[a|e] s1 e1]; cbn; now rewrite ?H. Qed.

Lemma foldM_app {S A B} (body : A -> B -> M S A) (l1 l2 : list B) :
  forall a s,
    foldM body (l1 ++ l2) a s = bind (foldM body l1 a) (foldM body l2) s.
Proof.
  induction l1 as [|x l1 IH]; intros a s; cbn [app foldM].
  - now rewrite bind_ret.
  - rewrite bind_assoc. apply bind_ext. intros a' s'. apply IH.
Qed.

Lemma startswith_exclusive (s : str) :
  opens_manual s = true -> closes_manual s = false.
Proof.
  unfold opens_manual, closes_manual.
  destruct (strip s) as [|a [|b [|c t]]]; unfold s_;
    cbn [list_ascii_of_string startswith]; intros H;
    try discriminate H;
    apply andb_prop in H; destruct H as [Ha H]; try discriminate H;
    apply andb_prop in H; destruct H as [Hb H]; try discriminate H.
  apply andb_prop in H. destruct H as [Hc _].
  unfold ch_eqb in *. apply Ascii.eqb_eq in Hc. subst c.
  rewrite Ha, Hb. reflexivity.
Qed.

Lemma check_directive_run (p : pipeline) (line0 : str) :
  check_directive [line0] p
  = if opens_manual line0
    then if in_manual_block p
         then mk_result (Raise directive_error) p []
         else mk_result (Ok tt) (set_in_manual_block true p) []
    else if closes_manual line0
         then if in_manual_block p
              then mk_result (Ok tt) (set_in_manual_block false p) []
              else mk_result (Raise directive_error) p []
         else mk_result (Ok tt) p [].
Proof.
  unfold check_directive. fold (opens_manual line0) (closes_manual line0).
  rewrite bind_gets.
  destruct (opens_manual line0) eqn:O.
  - rewrite (startswith_exclusive _ O).
    destruct (in_manual_block p) eqn:B; msimp; reflexivity.
  - msimp. destruct (closes_manual line0);
      destruct (in_manual_block p) eqn:B; cbn [negb]; msimp; reflexivity.
Qed.

Section Pipeline.

Variable VAR_DECL_RE_match : str -> bool.
Variable USE_PARSE_RE_match : str -> bool.
Variable OMP_RE_match : str -> bool.
Variable OMP_RE_sub : str -> str -> str.
Variable OMP_DIR_RE_match : str -> bool.
Variable OMP_DIR_RE_sub : str -> str -> str.

Variable req_indents : list Z.
Variable first_indent indent_size whitespace : Z.

Let body : fortran_line -> M pipeline unit :=
  reformat_fline VAR_DECL_RE_match USE_PARSE_RE_match OMP_RE_match OMP_RE_sub
                 OMP_DIR_RE_match OMP_DIR_RE_sub req_indents first_indent
                 indent_size whitespace.

Lemma reformat_statement_manual f_line lines comment_lines auto_align auto_format
      line_nr :
  preserves in_manual_block
            (reformat_statement VAR_DECL_RE_match f_line lines comment_lines
                                auto_align auto_format req_indents indent_size
                                whitespace line_nr).
Proof.
  unfold reformat_statement. cbv zeta. repeat preserves_step.
Qed.

Lemma write_line_manual omp ilo :
  preserves in_manual_block (write_line first_indent omp ilo).
Proof.
  unfold write_line. destruct ilo as [ind [line orig]].
  unfold when. repeat preserves_step.
Qed.

(** The loop body after the directive test leaves the manual-block flag
    alone; a mismatched directive ends the body at once. *)
Lemma reformat_fline_directive (fl : fortran_line) (line0 : str) (p : pipeline) :
  fl_lines fl = [line0] ->
  let p' := set_nfl (S (nfl p)) p in
  let d := check_directive [line0] p' in
  let r := body fl p in
  match out d with
  | Ok _ => in_manual_block (post r) = in_manual_block (post d)
  | Raise e => r = mk_result (Raise e) (post d) (emitted d)
  end.
Proof.
  intros E p' d r. subst r. unfold body, reformat_fline. cbv zeta.
  rewrite bind_modify, bind_gets. fold p'. rewrite E. fold d.
  destruct (out d) as [[]|e] eqn:Od.
  - assert (R : d = mk_result (Ok tt) (post d) (emitted d))
      by (rewrite <- Od; apply result_eta).
    rewrite (bind_ok _ _ _ _ _ _ R). cbn [post].
    match goal with
    | |- in_manual_block (post (?m (post d))) = _ =>
        assert (P : preserves in_manual_block m); [|apply P]
    end.
    apply preserves_bind.
    + repeat first
        [ apply reformat_statement_manual
        | preserves_step ].
    + intros [[lines indent]|]; [|apply preserves_ret].
      apply preserves_bind.
      * unfold forM. apply preserves_foldM. intros _ x. apply write_line_manual.
      * intros _. repeat preserves_step.
  - assert (R : d = mk_result (Raise e) (post d) (emitted d))
      by (rewrite <- Od; apply result_eta).
    now rewrite (bind_raise _ _ _ _ _ _ R).
Qed.

(** C8: on a statement made of one line, an opening directive met inside
    a manual block and a closing directive met outside of one raise the
    parse error, and the loop over the file's statements stops there:
    whatever statements follow, the loop raises the same error and nothing
    more is written.  An opening directive outside a manual block and a
    closing directive inside one pass the test and set the manual-block
    state to inside and to outside; when the loop body returns, that is
    the state it leaves. *)
Theorem manual_directives_toggle_or_abort
        (fl : fortran_line) (line0 : str) (p : pipeline) :
  fl_lines fl = [line0] ->
  let r := body fl p in
  ((opens_manual line0 = true /\ in_manual_block p = true)
   \/ (closes_manual line0 = true /\ in_manual_block p = false) ->
   out r = Raise directive_error
   /\ outfile (post r) = outfile p
   /\ forall pre rest s0,
       forM body pre s0 = mk_result (Ok tt) p (emitted (forM body pre s0)) ->
       out (forM body (pre ++ fl :: rest) s0) = Raise directive_error
       /\ outfile (post (forM body (pre ++ fl :: rest) s0)) = outfile p)
  /\ (opens_manual line0 = true -> in_manual_block p = false ->
      out (check_directive [line0] p) = Ok tt
      /\ in_manual_block (post (check_directive [line0] p)) = true
      /\ (out r = Ok tt -> in_manual_block (post r) = true))
  /\ (closes_manual line0 = true -> in_manual_block p = true ->
      out (check_directive [line0] p) = Ok tt
      /\ in_manual_block (post (check_directive [line0] p)) = false
      /\ (out r = Ok tt -> in_manual_block (post r) = false)).
Proof.
  intros E r.
  pose proof (reformat_fline_directive fl line0 p E) as D. cbv zeta in D.
  fold r in D. rewrite check_directive_run in D.
  rewrite check_directive_run.
  assert (Bp : in_manual_block (set_nfl (S (nfl p)) p) = in_manual_block p)
    by reflexivity.
  rewrite Bp in D.
  split; [|split].
  - intros M.
    assert (R : r = mk_result (Raise directive_error) (set_nfl (S (nfl p)) p) []).
    { destruct M as [[O B]|[C B]].
      - rewrite O, B in D. exact D.
      - destruct (opens_manual line0) eqn:O.
        + rewrite (startswith_exclusive _ O) in C. discriminate.
        + rewrite C, B in D. exact D. }
    rewrite R. cbn [out post]. split; [reflexivity|]. split; [reflexivity|].
    intros pre rest s0 Hpre. unfold forM in *. rewrite foldM_app.
    rewrite (bind_ok _ _ _ _ _ _ Hpre). cbn [foldM out post].
    fold r. assert (R' : body fl p = r) by reflexivity.
    rewrite (bind_raise _ _ _ _ _ _ (eq_trans R' R)). cbn. split; reflexivity.
  - intros O B. rewrite O, B in *. cbn [out post] in *.
    split; [reflexivity|]. split; [reflexivity|]. intros _. exact D.
  - intros C B.
    destruct (opens_manual line0) eqn:O.
    + rewrite (startswith_exclusive _ O) in C. discriminate.
    + rewrite C, B in *. cbn [out post] in *.
      split; [reflexivity|]. split; [reflexivity|]. intros _. exact D.
Qed.

End Pipeline.

(** ** The properties at concrete inputs *)

(** C10 at the assignment [x = 1] inside a conditional: the line matches
    no opening and no closing pattern and both stacks stay as they are. *)
Lemma stacks_change_only_on_open_and_close_witness :
  new_matches (s_ "x = 1") = []
  /\ end_matches (s_ "x = 1") = []
  /\ scope_storage
       (post (process_lines_of_fline not_a_declaration (s_ "x = 1")
                                     [line_of "x = 1"] 3 3 1 [] in_conditional))
     = [0%nat]
  /\ indent_storage
       (post (process_lines_of_fline not_a_declaration (s_ "x = 1")
                                     [line_of "x = 1"] 3 3 1 [] in_conditional))
     = [0; 3].
Proof.
  assert (H1 : new_matches (s_ "x = 1") = []) by (vm_compute; reflexivity).
  assert (H2 : end_matches (s_ "x = 1") = []) by (vm_compute; reflexivity).
  split; [exact H1|]. split; [exact H2|].
  exact (proj1 (stacks_change_only_on_open_and_close
                  not_a_declaration (s_ "x = 1") [line_of "x = 1"] 3 3 1 []
                  in_conditional) H1 H2).
Defined.

(** C1 fails at [end function interface], the end of a function named
    [interface]: the line matches the closing pattern of a function (kind
    4) and also the opening pattern of an interface (kind 7).  Inside the
    function, what is popped is the kind 7 just pushed, which differs from
    4; yet nothing is logged as invalid, the IndentStack gets a new entry,
    and the fragment is shifted by 3 away from its raw offset 0. *)
Lemma closing_line_with_opening_match_counterexample :
  let f_line := s_ "end function interface" in
  let lines := [line_of "end function interface"] in
  let r := process_lines_of_fline not_a_declaration f_line lines 3 3 1 []
                                  in_function in
  let raw :=
    line_indents
      (post (deal_with_line_breaks not_a_declaration f_line lines 3 1 []
               (set_line_indents (repeat 0 (length lines)) in_function))) in
  end_matches f_line = [4%nat]
  /\ new_matches f_line = [7%nat]
  /\ scope_storage in_function = [4%nat]
  /\ out r = Ok tt
  /\ ~ In invalid_end (emitted r)
  /\ indent_storage (post r) = [0; 3; 6]
  /\ indent_storage (post r) <> indent_storage in_function
  /\ raw = [0]
  /\ line_indents (post r) = [3].
Proof.
  vm_compute. repeat split; try discriminate.
  intros [H|[]]. discriminate H.
Qed.

(** C1 at [end if] inside a conditional: the close is valid, both stacks
    are popped and the line goes to the indent of the header. *)
Lemma closing_line_pops_scope_witness :
  new_matches (s_ "end if") = []
  /\ In 0%nat (end_matches (s_ "end if"))
  /\ let r := process_lines_of_fline not_a_declaration (s_ "end if")
                                     [line_of "end if"] 3 3 1 [] in_conditional in
     scope_storage (post r) = []
     /\ out r = Ok tt
     /\ indent_storage (post r) = [0]
     /\ line_indents (post r) = [0].
Proof.
  assert (H1 : new_matches (s_ "end if") = []) by (vm_compute; reflexivity).
  assert (H2 : In 0%nat (end_matches (s_ "end if")))
    by (vm_compute; left; reflexivity).
  split; [exact H1|]. split; [exact H2|].
  destruct (closing_line_pops_scope
              not_a_declaration (s_ "end if") [line_of "end if"] 3 3 1 []
              in_conditional 0%nat 0%nat [] H1 H2 eq_refl
              ltac:(vm_compute; reflexivity)) as (A & _ & B).
  destruct (B eq_refl [] 0 3 eq_refl) as (B1 & B2 & B3).
  cbv zeta. split; [exact A|]. split; [exact B1|]. split; [exact B2|].
  rewrite B3. vm_compute. reflexivity.
Defined.

(** C4 fails at [case ( function f (x))] inside a SELECT CASE construct:
    the line continues the kind on top of the ScopeStack (kind 2), but it
    also matches the opening pattern of a function (kind 4), and the
    branch of an opening line is taken: the fragment gets its raw offset
    plus the top of the IndentStack, 3, not plus the value below it, 0,
    and the IndentStack gets a new entry.  And at [else] inside a loop,
    where the kinds differ, the record that is logged has the level
    INFO, not the level of a warning. *)
Lemma continuation_with_opening_match_counterexample :
  let f_line := s_ "case ( function f (x))" in
  let lines := [line_of "case ( function f (x))"] in
  let r := process_lines_of_fline not_a_declaration f_line lines 3 3 1 []
                                  in_select in
  let raw :=
    line_indents
      (post (deal_with_line_breaks not_a_declaration f_line lines 3 1 []
               (set_line_indents (repeat 0 (length lines)) in_select))) in
  let r' := process_lines_of_fline not_a_declaration (s_ "else")
                                   [line_of "else"] 3 3 1 [] in_loop in
  con_matches f_line = [2%nat]
  /\ new_matches f_line = [4%nat]
  /\ scope_storage in_select = [2%nat]
  /\ indent_storage in_select = [0; 3]
  /\ out r = Ok tt
  /\ raw = [0]
  /\ line_indents (post r) = [3]
  /\ line_indents (post r) <> map (fun ind => ind + 0) raw
  /\ indent_storage (post r) = [0; 3; 6]
  /\ con_matches (s_ "else") = [0%nat]
  /\ scope_storage in_loop = [1%nat]
  /\ emitted r' = [invalid_con]
  /\ fst invalid_con = INFO.
Proof. vm_compute. repeat split; discriminate. Qed.

(** C4 at [else] inside a conditional: the fragment gets the indent of the
    header, 0, not the indent 3 of the body. *)
Lemma continuation_aligns_with_header_witness :
  new_matches (s_ "else") = []
  /\ In 0%nat (con_matches (s_ "else"))
  /\ out (process_lines_of_fline not_a_declaration (s_ "else") [line_of "else"]
                                 3 3 1 [] in_conditional) = Ok tt
  /\ line_indents
       (post (process_lines_of_fline not_a_declaration (s_ "else")
                                     [line_of "else"] 3 3 1 [] in_conditional))
     = map (fun ind => ind + 0) [0].
Proof.
  assert (H1 : new_matches (s_ "else") = []) by (vm_compute; reflexivity).
  assert (H2 : In 0%nat (con_matches (s_ "else"))) by (vm_compute; left; reflexivity).
  assert (H3 : out (deal_with_line_breaks not_a_declaration (s_ "else")
                      [line_of "else"] 3 1 []
                      (set_line_indents (repeat 0 1) in_conditional)) = Ok tt)
    by (vm_compute; reflexivity).
  split; [exact H1|]. split; [exact H2|].
  exact (proj1 (continuation_aligns_with_header
                  not_a_declaration (s_ "else") [line_of "else"] 3 3 1 []
                  in_conditional 0%nat 0%nat [] H1 H2 eq_refl H3)
               eq_refl [] 0 3 eq_refl).
Defined.

(** C9 fails on both counts.  With the one fragment [a = b = c] the call
    raises the aligner's internal-defect error; with zero fragments it
    returns normally. *)
Lemma tracker_fatal_counterexample :
  out (process_lines_of_fline not_a_declaration (s_ "a = b = c")
                              [line_of "a = b = c"] 3 3 1 [] F90Indenter_init)
  = Raise more_than_one_assignment
  /\ out (process_lines_of_fline not_a_declaration (s_ "") [] 3 3 1 []
                                 F90Indenter_init)
     = Ok tt.
Proof. split; vm_compute; reflexivity. Qed.

(** C9 at the invalid close [end do] inside a conditional: the call
    returns. *)
Lemma tracker_fatal_conditions_witness :
  out (deal_with_line_breaks not_a_declaration (s_ "end do") [line_of "end do"]
                             3 1 []
                             (set_line_indents (repeat 0 1) in_conditional))
  = Ok tt
  /\ indent_storage in_conditional <> []
  /\ out (process_lines_of_fline not_a_declaration (s_ "end do")
                                 [line_of "end do"] 3 3 1 [] in_conditional)
     = Ok tt.
Proof.
  assert (H1 : out (deal_with_line_breaks not_a_declaration (s_ "end do")
                      [line_of "end do"] 3 1 []
                      (set_line_indents (repeat 0 1) in_conditional)) = Ok tt)
    by (vm_compute; reflexivity).
  assert (H2 : indent_storage in_conditional <> []) by discriminate.
  split; [exact H1|]. split; [exact H2|].
  refine (proj1 (tracker_fatal_conditions
                   not_a_declaration (s_ "end do") [line_of "end do"] 3 3 1 []
                   in_conditional) H1 H2 _).
  intros _. cbn. lia.
Defined.

(** C2 fails.  The Token Formatter formats both operators of [a=b=c] and
    returns; when the two operators of a logical line stand on two
    fragments, neither the aligner nor the tracker raises; and a
    declaration with two initialisations passes the tracker. *)
Lemma two_assignments_counterexample :
  format_single_fline (s_ "a=b=c") 2 [] [] true tt
  = mk_result (Ok [s_ "a = b = c"]) tt []
  /\ out (aligner_process_lines_of_fline
            not_a_declaration (s_ "a = b = c")
            [line_of "a = b &"; line_of "= c"] 3 1 (init_line 0))
     = Ok tt
  /\ out (process_lines_of_fline
            not_a_declaration (s_ "a = b = c")
            [line_of "a = b &"; line_of "= c"] 3 3 1 [] F90Indenter_init)
     = Ok tt
  /\ out (process_lines_of_fline
            a_declaration (s_ "integer :: a = 1, b = 2")
            [line_of "integer :: a = 1, b = 2"] 3 3 1 [] F90Indenter_init)
     = Ok tt.
Proof. repeat split; vm_compute; reflexivity. Qed.

(** C2, as amended, at the fragment [a(1) = b = c(2)]: both operators
    stand outside the brackets. *)
Lemma second_assignment_is_internal_defect_witness :
  top_level_assignments (line_of "a(1) = b = c(2)") 0 = [5%nat; 9%nat]
  /\ (2 <= length (top_level_assignments (line_of "a(1) = b = c(2)") 0))%nat
  /\ out (align_line_continuations (line_of "a(1) = b = c(2)") false 3 1
                                   (init_line 1))
     = Raise more_than_one_assignment
  /\ out (process_lines_of_fline not_a_declaration (s_ "a(1) = b = c(2)")
                                 [line_of "a(1) = b = c(2)"] 3 3 1 []
                                 F90Indenter_init)
     = Raise more_than_one_assignment.
Proof.
  assert (H0 : top_level_assignments (line_of "a(1) = b = c(2)") 0
               = [5%nat; 9%nat]) by (vm_compute; reflexivity).
  assert (H : (2 <= length (top_level_assignments (line_of "a(1) = b = c(2)") 0))%nat)
    by (rewrite H0; cbn; lia).
  split; [exact H0|]. split; [exact H|].
  destruct (second_assignment_is_internal_defect
              not_a_declaration (line_of "a(1) = b = c(2)") H) as (A & B & _).
  split.
  - apply A; [reflexivity|discriminate].
  - apply B; reflexivity.
Defined.

(** C5 fails at a short statement followed by a long comment: with indent
    3 the text is 147 characters long without its newline, so neither the
    indented line nor the content alone fits into 132 columns; yet the
    reformatted line is written with its indent, not the original line,
    and no warning is logged. *)
Lemma output_guard_counterexample :
  132 < 3 + content_length long_comment_line
  /\ 132 < content_length long_comment_line
  /\ guarded_line 3 false long_comment_line long_comment_orig
     = (spaces 3 ++ long_comment_line, false)
  /\ spaces 3 ++ long_comment_line <> long_comment_orig.
Proof.
  split; [vm_compute; reflexivity|]. split; [vm_compute; reflexivity|].
  split; [vm_compute; reflexivity|]. vm_compute. discriminate.
Qed.

(** C5, as amended, at the line [x = 1] with indent 3. *)
Lemma output_guard_cases_witness :
  3 + line_length_of (line_of "x = 1") <= 133
  /\ guarded_line 3 false (line_of "x = 1") (line_of "x=1")
     = (times (s_ "!$") (bool_Z false)
          ++ spaces (3 - 2 * bool_Z false + leading_blanks (line_of "x = 1"))
          ++ lstrip_blank (line_of "x = 1"), false).
Proof.
  assert (H : 3 + line_length_of (line_of "x = 1") <= 133)
    by (vm_compute; discriminate).
  split; [exact H|].
  exact (proj1 (output_guard_cases 3 false (line_of "x = 1") (line_of "x=1")) H).
Defined.

(** C7 fails at a call broken twice outside delimiters: with the fallback
    step 3 the offsets are 0, 3 and 3.  At the end of the second fragment
    no frame is open and no target is pending, and the third fragment's
    offset is 3, not 3 added to the second fragment's offset 3. *)
Lemma fallback_offset_counterexample :
  let lines := [line_of "call foo &"; line_of "bar &"; line_of "baz"] in
  let r := aligner_process_lines_of_fline
             not_a_declaration (s_ "call foo bar baz") lines 3 1 (init_line 0) in
  let r2 := aligner_process_lines_of_fline
              not_a_declaration (s_ "call foo bar baz") (firstn 2 lines) 3 1
              (init_line 0) in
  out r = Ok tt
  /\ al_level (post r2) = 0
  /\ al_br_indent_list (post r2) = [3]
  /\ aligner_get_lines_indent (post r) = [0; 3; 3]
  /\ nth 2 (aligner_get_lines_indent (post r)) 0
     <> 3 + nth 1 (aligner_get_lines_indent (post r)) 0.
Proof. vm_compute. repeat split; discriminate. Qed.

(** C7, as amended, at the fragment [call foo &] scanned first. *)
Lemma fallback_offset_is_the_step_witness :
  out (align_line_continuations (line_of "call foo &") false 3 1 (init_line 1))
  = Ok tt
  /\ index_m1 (al_br_indent_list
                 (post (align_line_continuations (line_of "call foo &") false 3 1
                                                 (init_line 1))))
     = Ok 3.
Proof.
  assert (H : out (align_line_continuations (line_of "call foo &") false 3 1
                                            (init_line 1)) = Ok tt)
    by (vm_compute; reflexivity).
  split; [exact H|].
  refine (proj2 (proj2 (fallback_offset_is_the_step
                          (line_of "call foo &") false 3 1 (init_line 1) 0 []
                          eq_refl _ (or_introl eq_refl) H) _)).
  - cbn. lia.
  - vm_compute. reflexivity.
Defined.

(** C8 at an opening directive met inside a manual block. *)
Lemma manual_directives_toggle_or_abort_witness :
  opens_manual (line_of "!&<") = true
  /\ in_manual_block inside_manual_block = true
  /\ out (reformat_fline no_match no_match no_match nothing_substituted no_match
                         nothing_substituted [] 0 3 2 (comment_statement "!&<")
                         inside_manual_block)
     = Raise directive_error.
Proof.
  assert (H1 : opens_manual (line_of "!&<") = true) by (vm_compute; reflexivity).
  split; [exact H1|]. split; [reflexivity|].
  exact (proj1 (proj1 (manual_directives_toggle_or_abort
                         no_match no_match no_match nothing_substituted no_match
                         nothing_substituted [] 0 3 2 (comment_statement "!&<")
                         (line_of "!&<") inside_manual_block eq_refl)
                      (or_introl (conj H1 eq_refl)))).
Defined.

(** ** Two passes over a file

    A file of two statements indented by 100 blanks, the first of them
    too long for this indent.  The first pass moves the first line to the
    right (it now starts after 92 blanks) and leaves the second one after
    100 blanks; a pass over this output takes its base indent from the
    first line and writes the second line after 92 blanks. *)
Lemma second_pass_moves_a_line :
  let file := [indented 100 long_statement; indented 100 "y = 1"] in
  reformat_plain file = [indented 92 long_statement; indented 100 "y = 1"]
  /\ reformat_plain (reformat_plain file)
     = [indented 92 long_statement; indented 92 "y = 1"].
Proof. vm_compute. split; reflexivity. Qed.


(* ================================================================= *)
(** * Further properties of the code *)

(** ** The records a computation sends to the logger *)

Lemma emits_ret {S A} P (a : A) : emits P (@ret S A a).
Proof. intros s. constructor. Qed.

Lemma emits_raise {S A} P (e : exn) : emits P (@raise S A e).
Proof. intros s. constructor. Qed.

Lemma emits_lift {S A} P (o : outcome A) : emits P (@lift S A o).
Proof. intros s. constructor. Qed.

Lemma emits_gets {S A} P (f : S -> A) : emits P (gets f).
Proof. intros s. constructor. Qed.

Lemma emits_modify {S} P (f : S -> S) : emits P (modify f).
Proof. intros s. constructor. Qed.

Lemma emits_logger {S} (P : record -> Prop) l msg :
  P (l, msg) -> emits P (@logger S l msg).
Proof. intros H s. cbn. constructor; [exact H|constructor]. Qed.

Lemma emits_bind {S A B} P (m : M S A) (k : A -> M S B) :
  emits P m -> (forall a, emits P (k a)) -> emits P (bind m k).
Proof.
  intros Hm Hk s. unfold bind. specialize (Hm s).
  destruct (out (m s)) as [a|e]; cbn [emitted]; [|exact Hm].
  apply Forall_app. split; [exact Hm|apply Hk].
Qed.

Lemma emits_foldM {S A B} P (body : A -> B -> M S A) :
  (forall a x, emits P (body a x)) -> forall l a, emits P (foldM body l a).
Proof.
  intros Hb. induction l as [|x l IH]; intros a; cbn [foldM].
  - apply emits_ret.
  - apply emits_bind; [apply Hb|]. intros a'. apply IH.
Qed.

Lemma emits_zoom {S T A} P (proj : S -> T) (upd : T -> S -> S) (m : M T A) :
  emits P m -> emits P (zoom proj upd m).
Proof. intros H s. unfold zoom. cbn. apply H. Qed.

Lemma emits_when {S} P (b : bool) (m : M S unit) :
  emits P m -> emits P (when b m).
Proof. intros H. destruct b; [exact H|apply emits_ret]. Qed.

Lemma emits_weaken {S A} (P Q : record -> Prop) (m : M S A) :
  (forall r, P r -> Q r) -> emits P m -> emits Q m.
Proof. intros PQ H s. eapply Forall_impl; [exact PQ|apply H]. Qed.

Ltac emits_step :=
  first [ apply emits_ret | apply emits_raise | apply emits_lift
        | apply emits_gets | apply emits_modify
        | apply emits_logger; reflexivity
        | apply emits_when
        | apply emits_bind; [|intros ?] ].

(** The aligner only ever reports unpaired bracket delimiters. *)
Lemma align_char_emits line is_decl rel (v : scan) pc :
  emits (eq unpaired_record) (align_char line is_decl rel v pc).
Proof.
  destruct pc as [pos char].
  unfold align_char, open_delimiter, close_delimiter, alignment_target,
    br_append, br_pop, br_top. cbv zeta.
  apply emits_bind.
  { destruct (if Z.of_nat pos =? sc_end_of_delim v then None
              else match_m DEL_OPEN_RE (sub line pos (pos + 2)));
      repeat emits_step. }
  intros v1. apply emits_bind.
  { destruct (if Z.of_nat pos =? sc_end_of_delim v then None
              else match_m DEL_CLOSE_RE (sub line pos (pos + 2)));
      [|apply emits_ret].
    cbv iota. apply emits_bind.
    - destruct (0 <? sc_level v1); repeat emits_step.
    - intros lv.
      destruct (pop_last (sc_pos_ldelim v1)) as [[? ?]|?];
        [destruct (pop_last (sc_ldelim v1)) as [[? ?]|?]|];
        repeat emits_step. }
  intros v2. cbn [negb andb].
  destruct (negb (truthy (sc_level v2))); [|apply emits_ret].
  destruct (negb is_decl && ch_eqb char "=")%bool.
  - destruct (negb (matches REL_OP_RE
                            (sub line (pos - 1) (Nat.min (pos + 2) (length line)))));
      [|apply emits_ret].
    destruct (0 <? sc_pos_eq v2); [apply emits_raise|].
    apply emits_bind; [apply emits_lift|]. intros next.
    destruct (negb (search ASSIGN_BREAK_RE line)); repeat emits_step.
  - destruct (is_decl && str_eqb (sub line pos (pos + 2)) (s_ "::"))%bool;
      [|apply emits_ret].
    destruct (negb (search DECL_BREAK_RE line)); repeat emits_step.
Qed.

Lemma align_line_continuations_emits line is_decl indent_size nr :
  emits (eq unpaired_record)
        (align_line_continuations line is_decl indent_size nr).
Proof.
  unfold align_line_continuations, br_top, br_set_top.
  apply emits_bind; [apply emits_gets|]. intros lv0.
  apply emits_bind; [repeat emits_step|]. intros rel.
  apply emits_bind; [apply emits_foldM; intros; apply align_char_emits|].
  intros v.
  apply emits_bind.
  { apply emits_when. apply emits_bind; [apply emits_gets|]. intros l.
    destruct (1 <? zlen l); repeat emits_step. }
  intros _. repeat emits_step.
Qed.

Section TrackerMore.

Variable VAR_DECL_RE_match : str -> bool.

Abbreviation process := (process_lines_of_fline VAR_DECL_RE_match).
Abbreviation line_breaks := (deal_with_line_breaks VAR_DECL_RE_match).

Lemma aligner_process_emits f_line lines rel_ind line_nr :
  emits (eq unpaired_record)
        (aligner_process_lines_of_fline VAR_DECL_RE_match f_line lines rel_ind
                                        line_nr).
Proof.
  unfold aligner_process_lines_of_fline, forM, br_top.
  apply emits_bind; [apply emits_modify|]. intros _.
  apply emits_bind.
  { apply emits_foldM. intros _ [pos line].
    apply emits_bind; [apply emits_gets|]. intros nr.
    apply emits_bind; [apply align_line_continuations_emits|]. intros _.
    destruct (Z.of_nat pos + 1 <? zlen lines); repeat emits_step. }
  intros _. repeat emits_step.
Qed.

Lemma line_breaks_emits f_line lines rel_ind_con line_nr manual :
  emits (eq unpaired_record)
        (line_breaks f_line lines rel_ind_con line_nr manual).
Proof.
  unfold deal_with_line_breaks, forM.
  apply emits_bind.
  { destruct manual; [|apply emits_ret].
    apply emits_bind; [|intros; apply emits_gets].
    apply emits_zoom. apply aligner_process_emits. }
  intros br. apply emits_foldM. intros _ pos. repeat emits_step.
Qed.

Lemma combine_emits isn ic vc ie ve rel :
  emits (fun r => r = invalid_con \/ r = invalid_end)
        (combine_indents isn isn ic vc ie ve rel).
Proof.
  unfold combine_indents.
  apply emits_bind; [apply emits_gets|]. intros li.
  apply emits_bind; [apply emits_gets|]. intros ind.
  apply emits_bind; [|intros; apply emits_modify].
  destruct isn.
  - cbn [negb when]. repeat emits_step.
  - destruct ic.
    + destruct vc; cbn [negb].
      * apply emits_lift.
      * apply emits_bind; [|intros; apply emits_ret].
        apply emits_logger. left. reflexivity.
    + destruct ie; [|apply emits_lift].
      destruct ve; cbn [negb].
      * repeat emits_step.
      * apply emits_bind; [|intros; apply emits_ret].
        apply emits_logger. right. reflexivity.
Qed.

(** X1: whatever the line, the fragments, the offsets given by the caller
    and the state, every record the tracker sends to the logger is a
    debug record, the aligner's report of unpaired bracket delimiters, or
    the report of an invalid continuation or of an invalid end.  The
    report of an invalid new statement is never sent: [valid_new] is set
    wherever [is_new] is. *)
Theorem tracker_never_reports_invalid_new
        f_line lines rel_ind rel_ind_con line_nr manual (s : F90Indenter) :
  let r := process f_line lines rel_ind rel_ind_con line_nr manual s in
  Forall tracker_record (emitted r)
  /\ ~ In invalid_new (emitted r)
  /\ Forall (fun rec : record => fst rec <> WARNING) (emitted r).
Proof.
  intros r.
  assert (T : Forall tracker_record (emitted r)).
  { destruct (process_run VAR_DECL_RE_match f_line lines rel_ind rel_ind_con
                          line_nr manual s) as (logs & D & R).
    cbv zeta in R. subst r. rewrite R.
    match goal with
    | |- context [out ?x] => set (r1 := x) in *
    end.
    assert (E1 : Forall tracker_record (emitted r1)).
    { eapply Forall_impl; [|apply line_breaks_emits].
      intros rec <-. right. left. reflexivity. }
    assert (E0 : Forall tracker_record logs).
    { eapply Forall_impl; [|exact D]. intros rec H. left. exact H. }
    destruct (out r1) as [[]|e]; cbn [emitted].
    - apply Forall_app. split; [exact E0|]. apply Forall_app. split; [exact E1|].
      eapply Forall_impl; [|apply combine_emits].
      intros rec [-> | ->]; right; right; [left|right]; reflexivity.
    - apply Forall_app. split; assumption. }
  split; [exact T|]. rewrite Forall_forall in T. split.
  - intros I. destruct (T _ I) as [H|[H|[H|H]]]; discriminate H.
  - apply Forall_forall. intros rec I.
    destruct (T _ I) as [H|[H|[H|H]]]; [rewrite H|subst rec..]; discriminate.
Qed.

Lemma opening_line_run
        f_line lines rel_ind rel_ind_con line_nr manual (s : F90Indenter)
        ind0 cur :
  new_matches f_line <> [] ->
  indent_storage s = ind0 ++ [cur] ->
  let r1 := line_breaks f_line lines rel_ind_con line_nr manual
                        (set_line_indents (repeat 0 (length lines)) s) in
  out r1 = Ok tt ->
  let r := process f_line lines rel_ind rel_ind_con line_nr manual s in
  out r = Ok tt
  /\ scope_storage (post r)
     = fst (pop_ends (scope_storage s ++ new_matches f_line)
                     (end_matches f_line) false)
  /\ indent_storage (post r) = ind0 ++ [cur; rel_ind + cur]
  /\ line_indents (post r) = map (fun ind => ind + cur) (line_indents (post r1)).
Proof.
  intros Hn Hi r1 H1 r.
  destruct (process_run VAR_DECL_RE_match f_line lines rel_ind rel_ind_con
                        line_nr manual s) as (logs & _ & R).
  cbv zeta in R. fold r r1 in R. rewrite H1 in R.
  destruct (line_breaks_reset_stacks VAR_DECL_RE_match f_line lines rel_ind_con
              line_nr manual s) as [_ HI]. cbv zeta in HI. fold r1 in HI.
  assert (NE : nonempty (new_matches f_line) = true)
    by (destruct (new_matches f_line); [contradiction|reflexivity]).
  rewrite NE in R.
  match type of R with
  | context [restack ?F ?G (post r1)] => set (s3 := restack F G (post r1)) in *
  end.
  assert (I3 : indent_storage s3 = ind0 ++ [cur]) by (rewrite <- Hi; exact HI).
  rewrite (combine_new _ _ _ _ _ _ _ _ _ I3) in R. rewrite R. cbn.
  repeat split.
Qed.

Lemma closing_line_run
        f_line lines rel_ind rel_ind_con line_nr manual (s : F90Indenter)
        K sc ind0 below cur :
  new_matches f_line = [] -> In K (end_matches f_line) ->
  scope_storage s = sc ++ [K] ->
  indent_storage s = ind0 ++ [below; cur] ->
  let r1 := line_breaks f_line lines rel_ind_con line_nr manual
                        (set_line_indents (repeat 0 (length lines)) s) in
  out r1 = Ok tt ->
  let r := process f_line lines rel_ind rel_ind_con line_nr manual s in
  out r = Ok tt
  /\ scope_storage (post r) = sc
  /\ indent_storage (post r) = ind0 ++ [below]
  /\ line_indents (post r)
     = map (fun ind => ind + below) (line_indents (post r1)).
Proof.
  intros Hn HK Hs Hi r1 H1 r.
  pose proof (closing_excludes_continuation f_line K HK) as Hc.
  pose proof (closing_kind_unique f_line K HK) as He.
  destruct (process_run VAR_DECL_RE_match f_line lines rel_ind rel_ind_con
                        line_nr manual s) as (logs & _ & R).
  cbv zeta in R. fold r r1 in R. rewrite Hn, Hc, He, app_nil_r, Hs, H1 in R.
  cbn [pop_ends nonempty] in R. rewrite pop_last_snoc in R.
  cbn [pop_ends fst snd orb] in R. rewrite Nat.eqb_refl in R.
  destruct (line_breaks_reset_stacks VAR_DECL_RE_match f_line lines rel_ind_con
              line_nr manual s) as [_ HI]. cbv zeta in HI. fold r1 in HI.
  match type of R with
  | context [restack ?F ?G (post r1)] => set (s3 := restack F G (post r1)) in *
  end.
  assert (I3 : indent_storage s3 = ind0 ++ [below; cur])
    by (rewrite <- Hi; exact HI).
  rewrite (combine_end_valid _ _ _ _ _ _ _ I3) in R. rewrite R. cbn.
  repeat split.
Qed.

(** X2: a line that opens a block (it matches an opening pattern of some
    kind and not that kind's closing pattern): when the raw offsets are
    available and the IndentStack has its top frame [cur], the call
    returns, every opened kind is pushed on the ScopeStack, one frame
    [rel_ind + cur] is pushed on the IndentStack, whatever the number of
    kinds opened, and every fragment is shifted by the frame [cur] the
    statement was met in. *)
Theorem opening_line_pushes_one_frame
        f_line lines rel_ind rel_ind_con line_nr manual (s : F90Indenter)
        ind0 cur :
  new_matches f_line <> [] ->
  indent_storage s = ind0 ++ [cur] ->
  let r1 := line_breaks f_line lines rel_ind_con line_nr manual
                        (set_line_indents (repeat 0 (length lines)) s) in
  out r1 = Ok tt ->
  let r := process f_line lines rel_ind rel_ind_con line_nr manual s in
  out r = Ok tt
  /\ scope_storage (post r)
     = fst (pop_ends (scope_storage s ++ new_matches f_line)
                     (end_matches f_line) false)
  /\ indent_storage (post r) = ind0 ++ [cur; rel_ind + cur]
  /\ line_indents (post r) = map (fun ind => ind + cur) (line_indents (post r1)).
Proof. apply opening_line_run. Qed.

(** X3: a line that matches no opening, continuation or closing pattern:
    when the raw offsets are available and the IndentStack has its top
    frame [cur], the call returns, both stacks stay as they are and every
    fragment is shifted by [cur]. *)
Theorem plain_line_takes_the_top_frame
        f_line lines rel_ind rel_ind_con line_nr manual (s : F90Indenter)
        ind0 cur :
  new_matches f_line = [] -> con_matches f_line = [] ->
  end_matches f_line = [] ->
  indent_storage s = ind0 ++ [cur] ->
  let r1 := line_breaks f_line lines rel_ind_con line_nr manual
                        (set_line_indents (repeat 0 (length lines)) s) in
  out r1 = Ok tt ->
  let r := process f_line lines rel_ind rel_ind_con line_nr manual s in
  out r = Ok tt
  /\ scope_storage (post r) = scope_storage s
  /\ indent_storage (post r) = indent_storage s
  /\ line_indents (post r) = map (fun ind => ind + cur) (line_indents (post r1)).
Proof.
  intros Hn Hc He Hi r1 H1 r.
  destruct (process_run VAR_DECL_RE_match f_line lines rel_ind rel_ind_con
                        line_nr manual s) as (logs & _ & R).
  cbv zeta in R. fold r r1 in R. rewrite H1, Hn, Hc, He, app_nil_r in R.
  cbn [pop_ends nonempty fst snd] in R.
  destruct (line_breaks_reset_stacks VAR_DECL_RE_match f_line lines rel_ind_con
              line_nr manual s) as [HS HI]. cbv zeta in HS, HI. fold r1 in HS, HI.
  match type of R with
  | context [restack ?F ?G (post r1)] => set (s3 := restack F G (post r1)) in *
  end.
  assert (I3 : indent_storage s3 = ind0 ++ [cur]) by (rewrite <- Hi; exact HI).
  rewrite (combine_plain _ _ _ _ _ _ _ I3) in R. rewrite R. cbn.
  repeat split. exact HI.
Qed.

(** X4: a block closes where it opened.  Let a line open a block of the
    one kind [K] and match no closing pattern, and let later, with the
    two stacks as the opening line left them, a line close kind [K] and
    match no opening pattern; let the raw offsets of both lines be
    available (the line-break stage of each call returns).  Then both
    calls return, the two stacks are again what they were before the
    opening line, and the fragments of the closing line are shifted by
    the same frame as those of the opening line. *)
Theorem block_closes_where_it_opened
        f1 lines1 rel1 rc1 nr1 m1 f2 lines2 rel2 rc2 nr2 m2
        (s sb : F90Indenter) K ind0 cur :
  new_matches f1 = [K] -> end_matches f1 = [] ->
  new_matches f2 = [] -> In K (end_matches f2) ->
  indent_storage s = ind0 ++ [cur] ->
  let r1a := line_breaks f1 lines1 rc1 nr1 m1
                         (set_line_indents (repeat 0 (length lines1)) s) in
  out r1a = Ok tt ->
  let ra := process f1 lines1 rel1 rc1 nr1 m1 s in
  scope_storage sb = scope_storage (post ra) ->
  indent_storage sb = indent_storage (post ra) ->
  let r1b := line_breaks f2 lines2 rc2 nr2 m2
                         (set_line_indents (repeat 0 (length lines2)) sb) in
  out r1b = Ok tt ->
  let rb := process f2 lines2 rel2 rc2 nr2 m2 sb in
  out ra = Ok tt /\ out rb = Ok tt
  /\ scope_storage (post rb) = scope_storage s
  /\ indent_storage (post rb) = indent_storage s
  /\ line_indents (post ra) = map (fun ind => ind + cur) (line_indents (post r1a))
  /\ line_indents (post rb) = map (fun ind => ind + cur) (line_indents (post r1b)).
Proof.
  intros N1 E1 N2 K2 Hi r1a Ha ra Ss Si r1b Hb rb.
  assert (NE : new_matches f1 <> []) by (rewrite N1; discriminate).
  destruct (opening_line_run f1 lines1 rel1 rc1 nr1 m1 s ind0 cur NE Hi Ha)
    as (Oa & Sa & Ia & La).
  fold ra in Oa, Sa, Ia, La. rewrite N1, E1 in Sa. cbn [pop_ends fst] in Sa.
  rewrite Sa in Ss. rewrite Ia in Si.
  change (ind0 ++ [cur; rel1 + cur]) with (ind0 ++ [cur; rel1 + cur]) in Si.
  destruct (closing_line_run f2 lines2 rel2 rc2 nr2 m2 sb K (scope_storage s)
                             ind0 cur (rel1 + cur) N2 K2 Ss Si Hb)
    as (Ob & Sb & Ib & Lb).
  fold rb in Ob, Sb, Ib, Lb.
  repeat split; try assumption. now rewrite Ib, Hi.
Qed.

(** ** One indent per fragment *)

Lemma set_nth_raw n (l l' : list Z) i v :
  raw_offsets n l -> set_nth l (S i) v = Ok l' -> raw_offsets n l'.
Proof.
  intros [L H] E. destruct l as [|a l]; [discriminate|]. cbn in E.
  destruct (set_nth l i v) as [r|e] eqn:F; [|discriminate].
  injection E as <-. split.
  - rewrite <- L. cbn. f_equal. clear -F. revert i r F.
    induction l as [|b l IH]; intros i r F; [discriminate|].
    destruct i as [|i]; cbn in F.
    + injection F as <-. reflexivity.
    + destruct (set_nth l i v) as [r'|e] eqn:G; [|discriminate].
      injection F as <-. cbn. f_equal. exact (IH _ _ G).
  - exact H.
Qed.

Lemma line_breaks_raw f_line lines rel_ind_con line_nr manual (s : F90Indenter) n :
  raw_offsets n (line_indents s) ->
  raw_offsets n (line_indents
                   (post (line_breaks f_line lines rel_ind_con line_nr manual s))).
Proof.
  intros H. unfold deal_with_line_breaks.
  set (first := match manual with [] => _ | _ => _ end).
  assert (F : line_indents (post (first s)) = line_indents s).
  { subst first. destruct manual; [|reflexivity].
    unfold bind, zoom. cbn [out post].
    destruct (out _); reflexivity. }
  unfold bind at 1.
  destruct (out (first s)) as [br|e]; cbn [post]; [|rewrite F; exact H].
  assert (G : raw_offsets n (line_indents (post (first s))))
    by (rewrite F; exact H).
  revert G. generalize (post (first s)). clear F H.
  unfold forM. generalize tt.
  induction (seq 0 (length lines - 1)) as [|pos l IH]; intros u s1 G;
    cbn [foldM]; [exact G|].
  unfold bind at 1.
  match goal with
  | |- context [out (?m s1)] => set (step := m s1)
  end.
  assert (St : raw_offsets n (line_indents (post step))).
  { subst step. destruct (index br (pos + 1)) as [v|e]; msimp; [|exact G].
    destruct (set_nth (line_indents s1) (pos + 1) v) as [l'|e] eqn:E; msimp;
      [|exact G].
    cbn. rewrite Nat.add_1_r in E. exact (set_nth_raw _ _ _ _ _ G E). }
  destruct (out step) as [[]|e]; cbn [post]; [|exact St].
  apply IH. exact St.
Qed.

Lemma combine_length isn vn ic vc ie ve rel (s : F90Indenter) :
  length (line_indents (post (combine_indents isn vn ic vc ie ve rel s)))
  = length (line_indents s).
Proof.
  assert (SA : forall v l', shift_all (line_indents s) v = Ok l' ->
                            length l' = length (line_indents s)).
  { intros v l' E. unfold shift_all in E.
    destruct (line_indents s) as [|a l]; [injection E as <-; reflexivity|].
    destruct v as [x|e]; [|discriminate]. injection E as <-.
    first [apply length_map|cbn; f_equal; apply length_map]. }
  unfold combine_indents. msimp.
  destruct isn.
  - destruct (shift_all (line_indents s) (index_m1 (indent_storage s)))
      as [li|e] eqn:E;
      destruct vn; cbn [negb when]; msimp;
      destruct (index_m1 (indent_storage s)) as [old|e']; msimp; cbn;
      try reflexivity; exact (SA _ _ E).
  - destruct ic.
    + destruct vc; cbn [negb]; msimp; [|reflexivity].
      destruct (shift_all (line_indents s) (index_m2 (indent_storage s)))
        as [li|e] eqn:E; msimp; cbn; [exact (SA _ _ E)|reflexivity].
    + destruct ie.
      * destruct ve; cbn [negb]; msimp; [|reflexivity].
        destruct (shift_all (line_indents s) (index_m2 (indent_storage s)))
          as [li|e] eqn:E; msimp; [|reflexivity].
        destruct (pop_last (indent_storage s)) as [[x l0]|e]; msimp; cbn;
          [exact (SA _ _ E)|reflexivity].
      * destruct (shift_all (line_indents s) (index_m1 (indent_storage s)))
          as [li|e] eqn:E; msimp; cbn; [exact (SA _ _ E)|reflexivity].
Qed.

(** X5: after every call of the tracker, whether it returns or raises,
    [get_lines_indent] holds one indent per fragment of the statement. *)
Theorem one_indent_per_fragment
        f_line lines rel_ind rel_ind_con line_nr manual (s : F90Indenter) :
  let r := process f_line lines rel_ind rel_ind_con line_nr manual s in
  length (get_lines_indent (post r)) = length lines.
Proof.
  intros r. unfold get_lines_indent.
  destruct (process_run VAR_DECL_RE_match f_line lines rel_ind rel_ind_con
                        line_nr manual s) as (logs & _ & R).
  cbv zeta in R. fold r in R. rewrite R.
  match goal with
  | |- context [out ?x] => set (r1 := x) in *
  end.
  assert (L : length (line_indents (post r1)) = length lines).
  { apply (line_breaks_raw f_line lines rel_ind_con line_nr manual
             (set_line_indents (repeat 0 (length lines)) s) (length lines)).
    split; [apply repeat_length|].
    cbn. destruct (length lines); [contradiction|reflexivity]. }
  destruct (out r1) as [[]|e]; cbn [post].
  - rewrite combine_length. exact L.
  - exact L.
Qed.

End TrackerMore.

(** ** When the aligner returns *)

Lemma returns_bind {S A B} (P : S -> Prop) (R : A -> S -> Prop)
      (Q : B -> S -> Prop) (m : M S A) (k : A -> M S B) :
  returns P m R -> (forall a, returns (R a) (k a) Q) -> returns P (bind m k) Q.
Proof.
  intros Hm Hk s Ps. destruct (Hm s Ps) as (a & O & Ra).
  destruct (Hk a _ Ra) as (b & Ob & Qb).
  destruct (bind_out_post m k s a O) as [E1 E2].
  exists b. rewrite E1, E2. split; assumption.
Qed.

Lemma returns_ret {S A} (P : S -> Prop) (a : A) (Q : A -> S -> Prop) :
  (forall s, P s -> Q a s) -> returns P (ret a) Q.
Proof. intros H s Ps. exists a. split; [reflexivity|now apply H]. Qed.

Lemma returns_conseq {S A} (P P' : S -> Prop) (Q Q' : A -> S -> Prop) (m : M S A) :
  (forall s, P s -> P' s) -> (forall a s, Q' a s -> Q a s) ->
  returns P' m Q' -> returns P m Q.
Proof.
  intros H1 H2 H s Ps. destruct (H s (H1 s Ps)) as (a & O & Qa).
  exists a. split; [exact O|now apply H2].
Qed.

Lemma returns_foldM {S A B} (I : A -> S -> Prop) (body : A -> B -> M S A) :
  (forall a x, returns (I a) (body a x) I) ->
  forall l a, returns (I a) (foldM body l a) I.
Proof.
  intros Hb l. induction l as [|x l IH]; intros a; cbn [foldM].
  - apply returns_ret. auto.
  - eapply returns_bind; [apply Hb|]. intros a'. apply IH.
Qed.

(** In a declaration the scan of a character always returns. *)
Lemma alignment_target_decl_returns line pos char base li nr lv (v : scan) :
  returns (targets base li nr lv (sc_level v))
          (alignment_target line true pos char v)
          (fun v' a' => targets base li nr lv (sc_level v') a').
Proof.
  intros a T. unfold alignment_target. cbv zeta. cbn [negb andb].
  destruct (negb (truthy (sc_level v))); [|msimp; exists v; split; [reflexivity|exact T]].
  destruct (str_eqb (sub line pos (pos + 2)) (s_ "::"));
    [|msimp; exists v; split; [reflexivity|exact T]].
  destruct (negb (search DECL_BREAK_RE line));
    [|msimp; exists v; split; [reflexivity|exact T]].
  destruct (targets_top _ _ _ _ _ _ T) as (top & Et).
  unfold br_top, br_append. msimp. rewrite Et. msimp.
  exists v. split; [reflexivity|].
  now apply (proj2 (targets_push _ _ _ _ _ _ _ T)).
Qed.

Lemma align_char_decl_returns line rel base li nr lv (v : scan) pc :
  returns (targets base li nr lv (sc_level v))
          (align_char line true rel v pc)
          (fun v' a' => targets base li nr lv (sc_level v') a').
Proof.
  destruct pc as [pos char]. unfold align_char. cbv zeta.
  eapply returns_bind.
  { eapply returns_conseq;
      [|
       |apply (open_delimiter_returns _ pos rel _ base li nr lv v)].
    - intros s H. exact H.
    - intros a s H. exact (proj1 H). }
  intros v1. cbv beta. eapply returns_bind.
  { eapply returns_conseq;
      [|
       |apply (close_delimiter_returns _ pos _ base li nr lv v1)].
    - intros s H. exact H.
    - intros a s H. exact (proj1 H). }
  intros v2. cbv beta. apply alignment_target_decl_returns.
Qed.

(** Once the scan of the characters has returned, the rest of
    [__align_line_continuations] returns. *)
Lemma align_line_continuations_out line is_decl indent_size nr0
      (a : F90Aligner) :
  aligned a ->
  exists top0,
    index_m1 (al_br_indent_list a) = Ok top0
    /\ out (align_line_continuations line is_decl indent_size nr0 a)
       = match out (foldM (align_char line is_decl top0)
                          (CharFilter (enumerate line))
                          (scan_start (al_level a)) a) with
         | Ok _ => Ok tt
         | Raise e => Raise e
         end.
Proof.
  intros (base & rest & E & L).
  assert (T : targets base (al_line_indents a) (al_line_nr a) (al_level a)
                      (al_level a) a)
    by (exists rest; repeat split; try assumption; lia).
  destruct (targets_top _ _ _ _ _ _ T) as (top0 & Et).
  exists top0. split; [exact Et|].
  unfold align_line_continuations.
  rewrite bind_gets. unfold br_top at 1.
  rewrite bind_assoc, bind_gets, Et, bind_lift_ok.
  fold (scan_start (al_level a)).
  set (v0 := scan_start (al_level a)).
  pose proof (hoare_foldM
                (fun (v : scan) a' =>
                   targets base (al_line_indents a) (al_line_nr a) (al_level a)
                           (sc_level v) a')
                (align_char line is_decl top0)
                (fun v x => align_char_targets line is_decl top0 base
                              (al_line_indents a) (al_line_nr a) (al_level a) v x)
                (CharFilter (enumerate line)) v0 a T) as HF.
  destruct (foldM (align_char line is_decl top0) (CharFilter (enumerate line)) v0 a)
    as [[v|e] a1 e1] eqn:Ef.
  2:{ rewrite (bind_raise _ _ _ _ _ _ Ef). reflexivity. }
  rewrite (bind_ok _ _ _ _ _ _ Ef). cbn [out post emitted].
  specialize (HF v eq_refl). cbn [post] in HF.
  destruct HF as (rest1 & E1 & L1 & F1 & F2 & F3).
  assert (Step1 : exists rest2 a2,
    zlen rest2 = zlen rest1
    /\ al_br_indent_list a2 = base :: rest2
    /\ when (truthy (sc_level v) && search OPEN_BREAK_RE line)%bool
            (let* l := gets al_br_indent_list in
             if 1 <? zlen l
             then let* below := lift (index_m2 l) in br_set_top below
             else br_set_top 0) a1
       = mk_result (Ok tt) a2 []).
  { destruct (truthy (sc_level v) && search OPEN_BREAK_RE line)%bool eqn:C;
      cbn [when].
    - apply andb_prop in C. destruct C as [C _].
      destruct (snoc_cases rest1) as [Z|(r0 & x & Z)].
      + subst rest1. cbn in L1. assert (sc_level v = 0) by lia.
        unfold truthy in C. rewrite H in C. discriminate.
      + destruct (index_m2_cons_snoc base r0 x) as (y & Ey).
        assert (E1' : al_br_indent_list a1 = (base :: r0) ++ [x])
          by (rewrite E1, Z; reflexivity).
        exists (r0 ++ [y]), (set_br (fun _ => (base :: r0) ++ [y]) a1).
        split; [subst rest1; now rewrite !zlen_snoc|].
        split; [reflexivity|].
        rewrite bind_gets, E1, Z.
        assert (G : (1 <? zlen (base :: r0 ++ [x])) = true).
        { apply Z.ltb_lt. change (base :: r0 ++ [x]) with ((base :: r0) ++ [x]).
          rewrite zlen_snoc. pose proof (zlen_nonneg r0). unfold zlen in *.
          cbn [length]. lia. }
        rewrite G, Ey, bind_lift_ok. apply (br_set_top_run _ _ _ _ E1').
    - exists rest1, a1. repeat split. exact E1. }
  destruct Step1 as (rest2 & a2 & Z2 & E2 & R1).
  rewrite (bind_ok_nil _ _ _ _ _ R1).
  destruct (snoc_cases (base :: rest2)) as [Z|(l0 & x & Z)]; [discriminate|].
  rewrite Z in E2.
  rewrite (bind_ok_nil _ _ _ _ _ (br_top_run _ _ _ E2)).
  destruct (negb (truthy x)); cbn [when].
  - rewrite (bind_ok_nil _ _ _ _ _ (br_set_top_run _ _ _ indent_size E2)).
    reflexivity.
  - rewrite bind_ret. reflexivity.
Qed.

Lemma aligned_targets (a : F90Aligner) :
  aligned a ->
  exists base,
    targets base (al_line_indents a) (al_line_nr a) (al_level a) (al_level a) a.
Proof.
  intros (base & rest & E & L). exists base, rest.
  repeat split; try assumption; lia.
Qed.

(** A fragment of a declaration: the scan returns, and the aligner is
    left with a well-formed list of targets and the offsets it had. *)
Lemma align_line_continuations_decl line indent_size nr0 (a : F90Aligner) :
  aligned a ->
  let r := align_line_continuations line true indent_size nr0 a in
  out r = Ok tt /\ aligned (post r)
  /\ al_line_indents (post r) = al_line_indents a.
Proof.
  intros A r.
  assert (O : out r = Ok tt).
  { destruct (align_line_continuations_out line true indent_size nr0 a A)
      as (top0 & _ & E).
    subst r. rewrite E.
    destruct (aligned_targets a A) as (base & T).
    destruct (returns_foldM
                (fun (v : scan) a' =>
                   targets base (al_line_indents a) (al_line_nr a) (al_level a)
                           (sc_level v) a')
                (align_char line true top0)
                (fun v x => align_char_decl_returns line top0 base
                              (al_line_indents a) (al_line_nr a) (al_level a) v x)
                (CharFilter (enumerate line)) (scan_start (al_level a)) a T)
      as (v & Ov & _).
    rewrite Ov. reflexivity. }
  split; [exact O|].
  destruct A as (base & rest & E & L).
  destruct (align_line_continuations_targets line true indent_size nr0 a
              base rest E L O) as (base' & rest' & E' & L' & I' & _).
  split; [exists base', rest'; split; assumption|exact I'].
Qed.

Section AlignerMore.

Variable VAR_DECL_RE_match : str -> bool.

Abbreviation align := (aligner_process_lines_of_fline VAR_DECL_RE_match).

(** The loop of [F90Aligner.process_lines_of_fline] over the fragments
    from number [k] on, out of [n]. *)
Lemma aligner_loop_decl rel_ind (n : nat) :
  forall (ls : list str) (k : nat) (a : F90Aligner) u,
    aligned a ->
    let r := foldM (fun (_ : unit) (pl : nat * str) =>
                      let '(pos, line) := pl in
                      let* nr := gets al_line_nr in
                      let* _ := align_line_continuations line true rel_ind
                                                         (nr + Z.of_nat pos) in
                      if (Z.of_nat pos + 1 <? Z.of_nat n)
                      then let* top := br_top in
                           modify (set_al_line_indents (fun l => l ++ [top]))
                      else ret tt)
                   (combine (seq k (length ls)) ls) u a in
    out r = Ok tt /\ aligned (post r).
Proof.
  induction ls as [|line ls IH]; intros k a u A; cbn [length seq combine foldM].
  - destruct u. split; [reflexivity|exact A].
  - cbv zeta.
    destruct (align_line_continuations_decl line rel_ind
                (al_line_nr a + Z.of_nat k) a A) as (O1 & A1 & _).
    cbv zeta in O1, A1.
    set (m1 := align_line_continuations line true rel_ind
                                        (al_line_nr a + Z.of_nat k)) in *.
    assert (Step : exists a2,
               aligned a2
               /\ out ((let* nr := gets al_line_nr in
                        let* _ := align_line_continuations line true rel_ind
                                                           (nr + Z.of_nat k) in
                        if (Z.of_nat k + 1 <? Z.of_nat n)
                        then let* top := br_top in
                             modify (set_al_line_indents (fun l => l ++ [top]))
                        else ret tt) a) = Ok tt
               /\ post ((let* nr := gets al_line_nr in
                         let* _ := align_line_continuations line true rel_ind
                                                            (nr + Z.of_nat k) in
                         if (Z.of_nat k + 1 <? Z.of_nat n)
                         then let* top := br_top in
                              modify (set_al_line_indents (fun l => l ++ [top]))
                         else ret tt) a) = a2).
    { rewrite bind_gets. fold m1.
      match goal with
      | |- context [out (bind m1 ?k a)] =>
          destruct (bind_out_post m1 k a tt O1) as [E1 E2]; rewrite E1, E2
      end.
      destruct (Z.of_nat k + 1 <? Z.of_nat n).
      - destruct A1 as (base & rest & E & L).
        destruct (snoc_cases (base :: rest)) as [Z|(l0 & x & Z)]; [discriminate|].
        assert (E' : al_br_indent_list (post (m1 a)) = l0 ++ [x])
          by (rewrite E; exact Z).
        rewrite (bind_ok_nil _ _ _ _ _ (br_top_run _ _ _ E')).
        eexists. split; [|split; reflexivity].
        exists base, rest. cbn. split; assumption.
      - exists (post (m1 a)). repeat split. exact A1. }
    destruct Step as (a2 & A2 & O2 & P2).
    match goal with
    | |- context [out (bind ?m ?k a)] =>
        destruct (bind_out_post m k a tt O2) as [E1 E2]; rewrite E1, E2
    end.
    rewrite P2. apply IH. exact A2.
Qed.

(** X6: for a declaration (the statement matches [VAR_DECL_RE] or
    [PUBLIC_RE]) the aligner returns, whatever the fragments, the
    relative indent and the state it is called in: a declaration never
    makes the alignment fail. *)
Theorem declaration_alignment_never_fails
        (f_line : str) (lines : list str) (rel_ind line_nr : Z)
        (a : F90Aligner) :
  (VAR_DECL_RE_match f_line || matches PUBLIC_RE f_line)%bool = true ->
  out (align f_line lines rel_ind line_nr a) = Ok tt.
Proof.
  intros D. unfold aligner_process_lines_of_fline. rewrite bind_modify, D.
  assert (A0 : aligned (init_line line_nr)).
  { exists 0, []. cbn. split; [reflexivity|lia]. }
  destruct (aligner_loop_decl rel_ind (length lines) lines 0 (init_line line_nr)
                              tt A0) as [O _].
  cbv zeta in O. unfold forM, enumerate, zlen.
  match goal with
  | |- context [out (bind ?m ?k ?s)] =>
      destruct (bind_out_post m k s tt O) as [E1 _]; rewrite E1
  end.
  rewrite !bind_gets. unfold when.
  match goal with
  | |- context [if ?b then _ else _] => destruct b
  end; reflexivity.
Qed.

End AlignerMore.

(** ** The outcome of the scan of a fragment outside declarations *)

Lemma align_char_stages line is_decl rel base li nr lv (v : scan) p c
      (a : F90Aligner) :
  targets base li nr lv (sc_level v) a ->
  exists v2 a2,
    targets base li nr lv (sc_level v2) a2
    /\ (sc_level v2, sc_end_of_delim v2)
       = depth_step line (sc_level v, sc_end_of_delim v) (p, c)
    /\ sc_pos_eq v2 = sc_pos_eq v
    /\ out (align_char line is_decl rel v (p, c) a)
       = out (alignment_target line is_decl p c v2 a2)
    /\ post (align_char line is_decl rel v (p, c) a)
       = post (alignment_target line is_decl p c v2 a2).
Proof.
  intros T. unfold depth_step, align_char. cbv zeta. cbn [fst snd].
  set (window := sub line p (p + 2)).
  set (wopen := if Z.of_nat p =? sc_end_of_delim v
                then None else match_m DEL_OPEN_RE window).
  set (wclose := if Z.of_nat p =? sc_end_of_delim v
                 then None else match_m DEL_CLOSE_RE window).
  destruct (open_delimiter_returns window p rel wopen base li nr lv v a T)
    as (v1 & O1 & T1 & D1 & Q1).
  destruct (close_delimiter_returns window p wclose base li nr lv v1 _ T1)
    as (v2 & O2 & T2 & D2 & Q2).
  exists v2. eexists. split; [exact T2|].
  split; [now rewrite <- D1, <- D2|]. split; [now rewrite Q2, Q1|].
  match goal with
  | |- context [out (bind ?m ?k a)] =>
      destruct (bind_out_post m k a v1 O1) as [E1 E2]
  end.
  rewrite E1, E2. clear E1 E2.
  match goal with
  | |- context [out (bind ?m ?k ?s)] =>
      destruct (bind_out_post m k s v2 O2) as [E1 E2]
  end.
  rewrite E1, E2. split; reflexivity.
Qed.

(** An assignment operator at depth 0 that is the last character of the
    fragment: [line[pos + 1]] fails. *)
Lemma align_char_at_end line rel base li nr lv (v : scan) p c (a : F90Aligner) :
  nth_error line p = Some c ->
  targets base li nr lv (sc_level v) a ->
  let d := depth_step line (sc_level v, sc_end_of_delim v) (p, c) in
  ((fst d =? 0) && assignment_at line (p, c))%bool = true ->
  (0 <? sc_pos_eq v) = false ->
  nth_error line (p + 1) = None ->
  out (align_char line false rel v (p, c) a) = Raise IndexError.
Proof.
  intros V T d C Q N.
  destruct (align_char_stages line false rel base li nr lv v p c a T)
    as (v2 & a2 & _ & D & Q2 & O & _).
  rewrite O. fold d in D. apply andb_prop in C. destruct C as [C1 C2].
  rewrite (assignment_at_test line p c V) in C2.
  apply andb_prop in C2. destruct C2 as [C2 C3].
  unfold alignment_target, truthy. cbv zeta. cbn [negb andb].
  assert (L : sc_level v2 = fst d) by (rewrite <- D; reflexivity).
  rewrite L, C1, C2, C3, Q2, Q. cbn [negb andb].
  unfold index. rewrite N. msimp. reflexivity.
Qed.

Lemma scan_returns (line : str) rel base li nr lv :
  forall items (v : scan) (a : F90Aligner),
    (forall p c, In (p, c) items -> nth_error line p = Some c) ->
    targets base li nr lv (sc_level v) a ->
    top_level_assignments_from line items (sc_level v, sc_end_of_delim v) = [] ->
    exists v', out (foldM (align_char line false rel) items v a) = Ok v'.
Proof.
  induction items as [|[p c] rest IH]; intros v a V T H.
  - exists v. reflexivity.
  - cbn [foldM]. cbn [top_level_assignments_from] in H.
    assert (Vrest : forall p0 c0, In (p0, c0) rest -> nth_error line p0 = Some c0)
      by (intros; apply V; right; assumption).
    pose proof (align_char_depth line rel base li nr lv v p c a
                  (V p c (or_introl eq_refl)) T) as E.
    cbv zeta in E.
    destruct ((fst (depth_step line (sc_level v, sc_end_of_delim v) (p, c)) =? 0)
              && assignment_at line (p, c))%bool; [discriminate|].
    destruct E as (v' & O & T' & D & _).
    match goal with
    | |- context [out (bind ?m ?k ?s)] =>
        destruct (bind_out_post m k s v' O) as [B _]; rewrite B
    end.
    apply (IH v' _ Vrest T'). rewrite D. exact H.
Qed.

Lemma scan_one (line : str) rel base li nr lv q :
  forall items (v : scan) (a : F90Aligner),
    (forall p c, In (p, c) items -> nth_error line p = Some c) ->
    targets base li nr lv (sc_level v) a ->
    (0 <? sc_pos_eq v) = false ->
    top_level_assignments_from line items (sc_level v, sc_end_of_delim v) = [q] ->
    let o := out (foldM (align_char line false rel) items v a) in
    match nth_error line (q + 1) with
    | Some _ => exists v', o = Ok v'
    | None => o = Raise IndexError
    end.
Proof.
  induction items as [|[p c] rest IH]; intros v a V T Q H; [discriminate|].
  cbn [foldM]. cbn [top_level_assignments_from] in H.
  assert (Vrest : forall p0 c0, In (p0, c0) rest -> nth_error line p0 = Some c0)
    by (intros; apply V; right; assumption).
  pose proof (align_char_depth line rel base li nr lv v p c a
                (V p c (or_introl eq_refl)) T) as E.
  pose proof (align_char_at_end line rel base li nr lv v p c a
                (V p c (or_introl eq_refl)) T) as X.
  cbv zeta in E, X.
  destruct ((fst (depth_step line (sc_level v, sc_end_of_delim v) (p, c)) =? 0)
            && assignment_at line (p, c))%bool.
  - cbn [fst app] in H. injection H as <- H. rewrite Q in E. cbv zeta.
    destruct (nth_error line (p + 1)) as [next|] eqn:N.
    + destruct (E next eq_refl) as (v' & O & T' & D & _).
      match goal with
      | |- context [out (bind ?m ?k ?s)] =>
          destruct (bind_out_post m k s v' O) as [B _]; rewrite B
      end.
      apply (scan_returns line rel base li nr lv rest v' _ Vrest T').
      rewrite D. exact H.
    + apply out_bind_raise. apply X; reflexivity || assumption.
  - destruct E as (v' & O & T' & D & Q').
    cbv zeta.
    match goal with
    | |- context [out (bind ?m ?k ?s)] =>
        destruct (bind_out_post m k s v' O) as [B _]; rewrite B
    end.
    apply (IH v' _ Vrest T'); [rewrite Q'; exact Q|]. rewrite D. exact H.
Qed.

(** X7: the outcome of [__align_line_continuations] on a fragment of a
    statement that is no declaration, in an aligner with a well-formed
    list of targets.  Count the equals signs at nesting depth 0, outside
    strings and comments, that the code does not take for part of a
    relational operator: those that do not follow [=], [/], [<] or [>]
    and are not followed by [=] at the start of the fragment or behind
    whitespace (so the first sign of an [==] written directly behind a
    name is counted).  The call returns when there is none, or one that
    is not the last character of the fragment; it raises [IndexError]
    when the only one is the last character; and it raises the
    internal-defect error when there are two or more. *)
Theorem fragment_scan_outcome
        (line : str) (indent_size nr : Z) (a : F90Aligner) :
  aligned a ->
  out (align_line_continuations line false indent_size nr a)
  = match top_level_assignments line (al_level a) with
    | [] => Ok tt
    | [p] => if Nat.ltb (p + 1) (length line) then Ok tt else Raise IndexError
    | _ :: _ :: _ => Raise more_than_one_assignment
    end.
Proof.
  intros A.
  destruct (align_line_continuations_out line false indent_size nr a A)
    as (top0 & _ & E).
  rewrite E. clear E.
  destruct (aligned_targets a A) as (base & T).
  unfold top_level_assignments.
  change (al_level a, -1)
    with (sc_level (scan_start (al_level a)),
          sc_end_of_delim (scan_start (al_level a))).
  change (al_level a) with (sc_level (scan_start (al_level a))) in T at 2.
  destruct (top_level_assignments_from line (CharFilter (enumerate line)) _)
    as [|p [|p2 tl]] eqn:Tops.
  - destruct (scan_returns line top0 base _ _ _ _ _ a
                (fun p c => CharFilter_valid line p c) T Tops) as (v' & O).
    rewrite O. reflexivity.
  - pose proof (scan_one line top0 base _ _ _ p _ _ a
                  (fun p c => CharFilter_valid line p c) T eq_refl Tops) as S.
    cbv zeta in S.
    destruct (Nat.ltb (p + 1) (length line)) eqn:Lt.
    + apply Nat.ltb_lt in Lt.
      destruct (nth_error line (p + 1)) eqn:N;
        [|apply nth_error_None in N; lia].
      destruct S as (v' & O). rewrite O. reflexivity.
    + apply Nat.ltb_ge in Lt.
      assert (N : nth_error line (p + 1) = None) by (apply nth_error_None; lia).
      rewrite N in S. rewrite S. reflexivity.
  - rewrite (scan_raises line top0 base _ _ _ _ _ a
               (fun p c => CharFilter_valid line p c)
               (CharFilter_sorted line) T).
    + reflexivity.
    + cbv zeta. right. rewrite Tops. cbn. lia.
Qed.

(** ** The raw offsets of the fragments *)

Lemma bind_out_ok {S A B} (m : M S A) (k : A -> M S B) s b :
  out (bind m k s) = Ok b ->
  exists a, out (m s) = Ok a /\ out (k a (post (m s))) = Ok b.
Proof.
  unfold bind. destruct (out (m s)) as [a|e]; cbn; [|discriminate].
  intros H. now exists a.
Qed.

Lemma set_nth_ok {A} (v : A) :
  forall (l : list A) i,
    (i < length l)%nat ->
    exists l', set_nth l i v = Ok l'
               /\ length l' = length l
               /\ forall j, nth_error l' j
                            = if Nat.eqb j i then Some v else nth_error l j.
Proof.
  induction l as [|a l IH]; intros i H; [cbn in H; lia|].
  destruct i as [|i]; cbn [set_nth].
  - exists (v :: l). repeat split. intros [|j]; reflexivity.
  - destruct (IH i) as (l' & E & L & N); [cbn in H; lia|].
    rewrite E. exists (a :: l'). split; [reflexivity|].
    split; [cbn; now rewrite L|]. intros [|j]; [reflexivity|]. cbn. apply N.
Qed.

Lemma set_nth_out_of_range {A} (v : A) :
  forall (l : list A) i, (length l <= i)%nat -> set_nth l i v = Raise IndexError.
Proof.
  induction l as [|a l IH]; intros i H; [reflexivity|].
  destruct i as [|i]; [cbn in H; lia|]. cbn. rewrite IH; [reflexivity|].
  cbn in H. lia.
Qed.

(** The loop that copies the offsets [br] of the fragments after the
    first into [_line_indents], from fragment [k + 1] on. *)
Lemma copy_loop (br : list Z) :
  forall j k (s : F90Indenter) u,
    let r := foldM (fun (_ : unit) (pos : nat) =>
                      let* v := lift (index br (pos + 1)) in
                      let* l := gets line_indents in
                      let* l' := lift (set_nth l (pos + 1) v) in
                      modify (set_line_indents l'))
                   (seq k j) u s in
    (k + j < length (line_indents s))%nat \/ j = 0%nat ->
    ((k + j < length br)%nat \/ j = 0%nat ->
     out r = Ok tt
     /\ length (line_indents (post r)) = length (line_indents s)
     /\ aligner (post r) = aligner s
     /\ forall i, nth_error (line_indents (post r)) i
                  = if (Nat.ltb k i && Nat.leb i (k + j))%bool
                    then nth_error br i else nth_error (line_indents s) i)
    /\ ((k < length br)%nat -> (length br <= k + j)%nat ->
        out r = Raise IndexError).
Proof.
  induction j as [|j IH]; intros k s u r Hl.
  - subst r. cbn [seq foldM]. split.
    + intros _. destruct u. repeat split. intros i.
      destruct (Nat.ltb k i) eqn:A; [|reflexivity].
      destruct (Nat.leb i (k + 0)) eqn:B; [|reflexivity].
      apply Nat.ltb_lt in A. apply Nat.leb_le in B. lia.
    + intros A B. lia.
  - subst r. cbn [seq foldM].
    assert (Hk : (k + 1 < length (line_indents s))%nat) by lia.
    destruct (nth_error br (k + 1)) as [v|] eqn:Ev.
    + destruct (set_nth_ok v (line_indents s) (k + 1) Hk) as (l' & E & L & N).
      assert (Step : (let* v := lift (index br (k + 1)) in
                      let* l := gets line_indents in
                      let* l' := lift (set_nth l (k + 1) v) in
                      modify (set_line_indents l')) s
                     = mk_result (Ok tt) (set_line_indents l' s) []).
      { unfold index. rewrite Ev. msimp. rewrite E. msimp. reflexivity. }
      rewrite (bind_ok_nil _ _ _ _ _ Step).
      specialize (IH (S k) (set_line_indents l' s) tt). cbv zeta in IH.
      cbn [line_indents set_line_indents] in IH.
      destruct IH as [IH1 IH2]; [rewrite L; lia|].
      assert (Kb : (k + 1 < length br)%nat)
        by (apply nth_error_Some; rewrite Ev; discriminate).
      split.
      * intros Hb. destruct IH1 as (O & L2 & A2 & N2); [lia|].
        split; [exact O|]. split; [rewrite L2; exact L|]. split; [exact A2|].
        intros i. rewrite N2, N.
        destruct (Nat.eqb i (k + 1)) eqn:Q.
        -- apply Nat.eqb_eq in Q. subst i. rewrite Ev.
           replace (Nat.ltb k (k + 1)) with true by (symmetry; apply Nat.ltb_lt; lia).
           replace (Nat.leb (k + 1) (k + S j)) with true
             by (symmetry; apply Nat.leb_le; lia).
           cbn [andb].
           destruct (Nat.ltb (S k) (k + 1) && Nat.leb (k + 1) (S k + j))%bool;
             reflexivity.
        -- apply Nat.eqb_neq in Q.
           destruct (Nat.ltb (S k) i) eqn:A; destruct (Nat.leb i (S k + j)) eqn:B;
             destruct (Nat.ltb k i) eqn:C; destruct (Nat.leb i (k + S j)) eqn:D;
             cbn [andb]; try reflexivity; exfalso;
             repeat match goal with
                    | H : Nat.ltb _ _ = true |- _ => apply Nat.ltb_lt in H
                    | H : Nat.ltb _ _ = false |- _ => apply Nat.ltb_ge in H
                    | H : Nat.leb _ _ = true |- _ => apply Nat.leb_le in H
                    | H : Nat.leb _ _ = false |- _ => apply Nat.leb_gt in H
                    end; lia.
      * intros A B. apply IH2; lia.
    + split.
      * intros Hb. apply nth_error_None in Ev. lia.
      * intros A B. apply out_bind_raise. unfold index. rewrite Ev.
        msimp. reflexivity.
Qed.

Section RawOffsets.

Variable VAR_DECL_RE_match : str -> bool.

Abbreviation align := (aligner_process_lines_of_fline VAR_DECL_RE_match).
Abbreviation line_breaks := (deal_with_line_breaks VAR_DECL_RE_match).

(** The loop of [F90Aligner.process_lines_of_fline] over the fragments
    from number [k] on, out of [n]: when it returns, it has appended one
    offset per fragment but the last. *)
Lemma aligner_loop_offsets is_decl rel_ind (n : nat) :
  forall (ls : list str) (k : nat) (a : F90Aligner) u,
    aligned a -> (k + length ls = n)%nat ->
    let r := foldM (fun (_ : unit) (pl : nat * str) =>
                      let '(pos, line) := pl in
                      let* nr := gets al_line_nr in
                      let* _ := align_line_continuations line is_decl rel_ind
                                                         (nr + Z.of_nat pos) in
                      if (Z.of_nat pos + 1 <? Z.of_nat n)
                      then let* top := br_top in
                           modify (set_al_line_indents (fun l => l ++ [top]))
                      else ret tt)
                   (combine (seq k (length ls)) ls) u a in
    out r = Ok tt ->
    exists extra,
      al_line_indents (post r) = al_line_indents a ++ extra
      /\ length extra = (length ls - 1)%nat.
Proof.
  induction ls as [|line ls IH]; intros k a u A K; cbn [length seq combine foldM].
  - intros _. exists []. cbn. now rewrite app_nil_r.
  - cbv zeta. intros O.
    apply bind_out_ok in O. destruct O as ([] & O1 & O2).
    set (step := (let* nr := gets al_line_nr in
                  let* _ := align_line_continuations line is_decl rel_ind
                                                     (nr + Z.of_nat k) in
                  if (Z.of_nat k + 1 <? Z.of_nat n)
                  then let* top := br_top in
                       modify (set_al_line_indents (fun l => l ++ [top]))
                  else ret tt)) in *.
    assert (St : aligned (post (step a))
                 /\ al_line_indents (post (step a))
                    = al_line_indents a
                        ++ (if (Z.of_nat k + 1 <? Z.of_nat n)
                            then firstn 1 (rev (al_br_indent_list (post (step a))))
                            else [])).
    { subst step. revert O1. rewrite bind_gets. intros O1.
      apply bind_out_ok in O1. destruct O1 as ([] & Oa & Ob).
      match goal with
      | |- context [post (bind ?m ?k a)] =>
          destruct (bind_out_post m k a tt Oa) as [_ E2]; rewrite E2
      end.
      destruct A as (base & rest & E & L).
      destruct (align_line_continuations_targets line is_decl rel_ind
                  (al_line_nr a + Z.of_nat k) a base rest E L Oa)
        as (base' & rest' & E' & L' & I' & _).
      remember (post (align_line_continuations line is_decl rel_ind
                                               (al_line_nr a + Z.of_nat k) a))
        as a1 eqn:Ha1.
      clear Ha1.
      destruct (Z.of_nat k + 1 <? Z.of_nat n).
      - destruct (snoc_cases (base' :: rest')) as [Z|(l0 & x & Z)]; [discriminate|].
        assert (Ex : al_br_indent_list a1 = l0 ++ [x]) by (rewrite E'; exact Z).
        rewrite (bind_ok_nil _ _ _ _ _ (br_top_run _ _ _ Ex)). cbn.
        split; [exists base', rest'; split; assumption|].
        rewrite I', Ex, rev_app_distr. reflexivity.
      - cbn. split; [exists base', rest'; split; assumption|].
        rewrite I'. now rewrite app_nil_r. }
    destruct St as [A1 I1].
    match goal with
    | |- context [post (bind ?m ?k a)] =>
        destruct (bind_out_post m k a tt O1) as [_ E2]; rewrite E2
    end.
    destruct (IH (S k) (post (step a)) tt A1) as (extra & X & Lx);
      [cbn in K; lia|exact O2|].
    rewrite X, I1.
    destruct (Z.of_nat k + 1 <? Z.of_nat n) eqn:C.
    + apply Z.ltb_lt in C.
      destruct A1 as (b1 & r1 & Eb & _). rewrite Eb.
      destruct (snoc_cases (b1 :: r1)) as [Z|(l0 & x & Z)]; [discriminate|].
      rewrite Z, rev_app_distr. cbn [rev app firstn].
      exists (x :: extra). rewrite <- app_assoc. split; [reflexivity|].
      cbn [length]. rewrite Lx. cbn in K. lia.
    + apply Z.ltb_ge in C. exists extra. rewrite app_nil_r.
      split; [reflexivity|]. rewrite Lx. cbn in K. cbn [length]. lia.
Qed.

Lemma aligner_offsets f_line lines rel_ind line_nr (a : F90Aligner) :
  let r := align f_line lines rel_ind line_nr a in
  out r = Ok tt ->
  exists extra,
    al_line_indents (post r) = 0 :: extra
    /\ length extra = (length lines - 1)%nat.
Proof.
  intros r O. subst r. revert O.
  unfold aligner_process_lines_of_fline. rewrite bind_modify.
  intros O. apply bind_out_ok in O. destruct O as ([] & O1 & _).
  assert (A0 : aligned (init_line line_nr)).
  { exists 0, []. cbn. split; [reflexivity|lia]. }
  unfold forM, enumerate, zlen in *.
  destruct (aligner_loop_offsets _ rel_ind (length lines) lines 0
              (init_line line_nr) tt A0 eq_refl O1) as (extra & X & Lx).
  exists extra. split; [|exact Lx].
  match goal with
  | |- context [post (bind ?m ?k ?s)] =>
      destruct (bind_out_post m k s tt O1) as [_ E2]; rewrite E2
  end.
  rewrite !bind_gets. unfold when.
  match goal with
  | |- context [if ?b then _ else _] => destruct b
  end; exact X.
Qed.

(** X8: when the aligner returns, [get_lines_indent] holds the offset 0
    for the first fragment and one offset per further fragment: as many
    offsets as fragments, and a single 0 for a statement without
    fragments. *)
Theorem aligner_offsets_per_fragment
        f_line lines rel_ind line_nr (a : F90Aligner) :
  let r := align f_line lines rel_ind line_nr a in
  out r = Ok tt ->
  hd_error (aligner_get_lines_indent (post r)) = Some 0
  /\ length (aligner_get_lines_indent (post r)) = Nat.max 1 (length lines).
Proof.
  intros r O. destruct (aligner_offsets f_line lines rel_ind line_nr a O)
    as (extra & X & Lx).
  fold r in X. unfold aligner_get_lines_indent. rewrite X.
  split; [reflexivity|]. cbn [length]. rewrite Lx. lia.
Qed.

(** X9: offsets given by the caller.  With a non-empty list of override
    offsets the aligner is not run.  If the list has an entry for every
    fragment, the line-break stage of the tracker returns, fragment 0
    keeps the offset 0, whatever the first entry of the list, and each
    further fragment gets its entry; if the list is shorter than the
    list of fragments, the stage, and with it the call of the tracker,
    ends in an [IndexError]. *)
Theorem override_offsets
        f_line lines rel_ind rel_ind_con line_nr manual (s : F90Indenter) :
  manual <> [] ->
  let r1 := line_breaks f_line lines rel_ind_con line_nr manual
                        (set_line_indents (repeat 0 (length lines)) s) in
  ((length lines <= length manual)%nat ->
   out r1 = Ok tt
   /\ aligner (post r1) = aligner s
   /\ forall i, (i < length lines)%nat ->
                nth_error (line_indents (post r1)) i
                = if Nat.eqb i 0 then Some 0 else nth_error manual i)
  /\ ((length manual < length lines)%nat ->
      out r1 = Raise IndexError
      /\ out (process_lines_of_fline VAR_DECL_RE_match f_line lines rel_ind
                                     rel_ind_con line_nr manual s)
         = Raise IndexError).
Proof.
  intros NE r1.
  assert (R1 : r1 = foldM (fun (_ : unit) (pos : nat) =>
                             let* v := lift (index manual (pos + 1)) in
                             let* l := gets line_indents in
                             let* l' := lift (set_nth l (pos + 1) v) in
                             modify (set_line_indents l'))
                          (seq 0 (length lines - 1)) tt
                          (set_line_indents (repeat 0 (length lines)) s)).
  { subst r1. unfold deal_with_line_breaks, forM.
    destruct manual as [|m0 ms]; [contradiction|]. now rewrite bind_ret. }
  pose proof (copy_loop manual (length lines - 1) 0
                (set_line_indents (repeat 0 (length lines)) s) tt) as C.
  cbv zeta in C. rewrite <- R1 in C.
  cbn [line_indents set_line_indents] in C. rewrite repeat_length in C.
  destruct C as [C1 C2];
    [destruct (length lines); [right; reflexivity|left; lia]|].
  assert (M : (0 < length manual)%nat)
    by (destruct manual; [contradiction|cbn; lia]).
  split.
  - intros Le. destruct C1 as (O & _ & A & N);
      [destruct (length lines); [right; reflexivity|left; lia]|].
    split; [exact O|]. split; [exact A|]. intros i Hi. rewrite N.
    destruct i as [|i].
    + assert (T1 : Nat.ltb 0 0 = false) by reflexivity.
      rewrite T1. cbn [andb Nat.eqb].
      destruct (length lines); [lia|reflexivity].
    + assert (T1 : Nat.ltb 0 (S i) = true) by reflexivity.
      assert (T2 : Nat.leb (S i) (0 + (length lines - 1)) = true)
        by (apply Nat.leb_le; lia).
      rewrite T1, T2. reflexivity.
  - intros Lt. assert (O : out r1 = Raise IndexError) by (apply C2; lia).
    split; [exact O|].
    destruct (process_run VAR_DECL_RE_match f_line lines rel_ind rel_ind_con
                          line_nr manual s) as (logs & _ & R).
    cbv zeta in R. fold r1 in R. rewrite O in R. rewrite R. reflexivity.
Qed.

(** X10: without override offsets the line-break stage of the tracker
    ends as the aligner does, and leaves the aligner in the state the
    aligner's own call leaves it in; when the aligner returns, every
    fragment gets the offset the aligner holds for it. *)
Theorem line_breaks_follow_the_aligner
        f_line lines rel_ind_con line_nr (s : F90Indenter) :
  let r1 := line_breaks f_line lines rel_ind_con line_nr []
                        (set_line_indents (repeat 0 (length lines)) s) in
  let ra := align f_line lines rel_ind_con line_nr (aligner s) in
  out r1 = out ra
  /\ aligner (post r1) = post ra
  /\ (out ra = Ok tt ->
      forall i, (i < length lines)%nat ->
                nth_error (line_indents (post r1)) i
                = nth_error (aligner_get_lines_indent (post ra)) i).
Proof.
  intros r1 ra.
  set (s0 := set_line_indents (repeat 0 (length lines)) s).
  set (s1 := set_aligner (post ra) s0).
  destruct (out ra) as [[]|e] eqn:Oa.
  - assert (R1 : r1 = let r := foldM (fun (_ : unit) (pos : nat) =>
                             let* v := lift (index (al_line_indents (post ra))
                                                   (pos + 1)) in
                             let* l := gets line_indents in
                             let* l' := lift (set_nth l (pos + 1) v) in
                             modify (set_line_indents l'))
                          (seq 0 (length lines - 1)) tt s1 in
                      mk_result (out r) (post r) (emitted ra ++ emitted r)).
    { subst r1. unfold deal_with_line_breaks, forM. rewrite bind_assoc.
      assert (Z : zoom aligner set_aligner
                       (aligner_process_lines_of_fline VAR_DECL_RE_match f_line
                          lines rel_ind_con line_nr) s0
                  = mk_result (Ok tt) s1 (emitted ra)).
      { unfold zoom. change (aligner s0) with (aligner s). fold ra.
        rewrite Oa. reflexivity. }
      rewrite (bind_ok _ _ _ _ _ _ Z). rewrite bind_gets.
      cbv zeta. reflexivity. }
    destruct (aligner_offsets f_line lines rel_ind_con line_nr (aligner s) Oa)
      as (extra & X & Lx). fold ra in X.
    pose proof (copy_loop (al_line_indents (post ra)) (length lines - 1) 0
                  s1 tt) as C.
    cbv zeta in C. cbn [line_indents set_line_indents set_aligner s1 s0] in C.
    rewrite repeat_length in C.
    destruct C as [C1 _];
      [destruct (length lines); [right; reflexivity|left; lia]|].
    destruct C1 as (O & _ & A & N).
    { rewrite X. cbn [length]. rewrite Lx.
      destruct (length lines); [right; reflexivity|left; lia]. }
    rewrite R1. cbv zeta. cbn [out post].
    split; [exact O|]. split; [exact A|]. intros _ i Hi.
    unfold aligner_get_lines_indent. rewrite N.
    destruct i as [|i].
    + assert (T1 : Nat.ltb 0 0 = false) by reflexivity.
      rewrite T1. cbn [andb]. rewrite X.
      destruct (length lines); [lia|reflexivity].
    + assert (T1 : Nat.ltb 0 (S i) = true) by reflexivity.
      assert (T2 : Nat.leb (S i) (0 + (length lines - 1)) = true)
        by (apply Nat.leb_le; lia).
      rewrite T1, T2. reflexivity.
  - assert (R1 : r1 = mk_result (Raise e) s1 (emitted ra)).
    { subst r1. unfold deal_with_line_breaks. rewrite bind_assoc.
      assert (Z : zoom aligner set_aligner
                       (aligner_process_lines_of_fline VAR_DECL_RE_match f_line
                          lines rel_ind_con line_nr) s0
                  = mk_result (Raise e) s1 (emitted ra)).
      { unfold zoom. change (aligner s0) with (aligner s). fold ra.
        rewrite Oa. reflexivity. }
      rewrite (bind_raise _ _ _ _ _ _ Z). reflexivity. }
    rewrite R1. cbn. repeat split. intros H. discriminate H.
Qed.

End RawOffsets.

(* ================================================================= *)
(** ** The inspection of a file *)

Lemma lstrip_by_length (p : ascii -> bool) (s : str) :
  (length (lstrip_by p s) <= length s)%nat.
Proof.
  induction s as [|c s IH]; cbn; [lia|]. destruct (p c); cbn; lia.
Qed.

Lemma offset_of_nonneg (fl : fortran_line) : 0 <= offset_of fl.
Proof.
  unfold offset_of, leading_blanks, lstrip_blank, len.
  pose proof (lstrip_by_length is_blank (hd [] (fl_lines fl))). lia.
Qed.

Lemma offset_before_app (file : list fortran_line) (fl : fortran_line) (k : nat) :
  (k <= length file)%nat ->
  offset_before (file ++ [fl]) k = offset_before file k.
Proof.
  intros H. destruct k as [|j]; [reflexivity|]. cbn.
  rewrite nth_error_app1 by lia. reflexivity.
Qed.

Lemma offset_before_last (file : list fortran_line) (fl : fortran_line) :
  offset_before (file ++ [fl]) (S (length file)) = offset_of fl.
Proof.
  cbn. rewrite nth_error_app2 by lia. now rewrite Nat.sub_diag.
Qed.

Lemma find_snoc {A} (p : A -> bool) (l : list A) (x : A) :
  find p (l ++ [x])
  = match find p l with
    | Some y => Some y
    | None => if p x then Some x else None
    end.
Proof.
  induction l as [|a l IH]; cbn; [reflexivity|].
  destruct (p a); [reflexivity|exact IH].
Qed.

(** What the loop of [inspect_ffile_format] has computed after the
    statements of [file]. *)
Lemma inspect_fold (indent_size : Z) (file : list fortran_line) :
  let v := fold_left (inspect_line indent_size) file (mk_inspection [] (-1) 0 false) in
  length (in_indents v) = length file
  /\ in_prev_offset v = offset_before file (length file)
  /\ in_num_labels v = existsb f77_statement file
  /\ in_first_indent v = match find has_text file with
                         | Some fl => offset_of fl
                         | None => -1
                         end
  /\ forall k fl, nth_error file k = Some fl ->
       nth_error (in_indents v) k
       = Some (if (negb (indent_size <=? 0)
                   && (negb (offset_before file k =? offset_of fl)
                       || negb (blocked_header fl)))%bool
               then indent_size
               else offset_of fl - offset_before file k).
Proof.
  induction file as [|fl file IH] using rev_ind.
  - cbn. repeat split. intros [|k] fl H; discriminate H.
  - cbv zeta in *. rewrite fold_left_app. cbn [fold_left].
    destruct IH as (L & P & N & F & I).
    set (v := fold_left (inspect_line indent_size) file (mk_inspection [] (-1) 0 false)) in *.
    unfold inspect_line. cbn [in_indents in_prev_offset in_num_labels in_first_indent].
    fold (offset_of fl). repeat split.
    + rewrite !length_app, L. reflexivity.
    + rewrite length_app, Nat.add_1_r. symmetry. apply offset_before_last.
    + rewrite existsb_app, N. cbn. now rewrite orb_false_r.
    + rewrite find_snoc, F. fold (has_text fl).
      destruct (find has_text file) as [fl0|].
      * pose proof (offset_of_nonneg fl0).
        destruct (offset_of fl0 =? -1) eqn:E; [apply Z.eqb_eq in E; lia|].
        rewrite andb_false_r. reflexivity.
      * change (-1 =? -1) with true. rewrite andb_true_r.
        destruct (has_text fl); reflexivity.
    + intros k fl' H.
      assert (K : (k < length (file ++ [fl]))%nat) by (apply nth_error_Some; congruence).
      rewrite length_app in K. cbn in K.
      destruct (Nat.eq_dec k (length file)) as [->|D].
      * rewrite nth_error_app2 in H by lia. rewrite Nat.sub_diag in H.
        injection H as <-.
        rewrite nth_error_app2 by lia. rewrite L, Nat.sub_diag. cbn [nth_error].
        rewrite offset_before_app by lia. rewrite <- P.
        unfold blocked_header. rewrite negb_orb. reflexivity.
      * rewrite nth_error_app1 in H by lia.
        rewrite nth_error_app1 by lia.
        rewrite offset_before_app by lia. now apply I.
Qed.

(** X11: with a positive indent size, [inspect_ffile_format] asks for the
    indent size as the step of every statement but one kind: the header
    of a conditional or of a loop that starts in the column of the
    statement before it (column 0 before the first statement) gets the
    step 0. *)
Theorem imposed_steps (stream : list fortran_line) (indent_size : Z)
        (k : nat) (fl : fortran_line) :
  0 < indent_size ->
  nth_error (until_eof stream) k = Some fl ->
  nth_error (fst (fst (inspect_ffile_format stream indent_size))) k
  = Some (if (blocked_header fl
              && (offset_before (until_eof stream) k =? offset_of fl))%bool
          then 0 else indent_size).
Proof.
  intros Pos H. unfold inspect_ffile_format. cbn [fst].
  destruct (inspect_fold indent_size (until_eof stream)) as (_ & _ & _ & _ & I).
  rewrite (I k fl H).
  assert (A : (indent_size <=? 0) = false) by (apply Z.leb_gt; lia).
  rewrite A. cbn [negb andb].
  destruct (blocked_header fl); cbn [negb andb orb].
  - rewrite orb_false_r.
    destruct (offset_before (until_eof stream) k =? offset_of fl) eqn:E; cbn [negb].
    + apply Z.eqb_eq in E. f_equal. lia.
    + reflexivity.
  - now rewrite orb_true_r.
Qed.

(** X12: with an indent size that is not positive, the steps are the
    file's own: the step of each statement is the difference between the
    column where it starts and the column where the statement before it
    starts, so that the steps of a file add up to the column of its last
    statement. *)
Theorem adopted_steps (stream : list fortran_line) (indent_size : Z) :
  indent_size <= 0 ->
  let file := until_eof stream in
  let indents := fst (fst (inspect_ffile_format stream indent_size)) in
  (forall k fl, nth_error file k = Some fl ->
                nth_error indents k = Some (offset_of fl - offset_before file k))
  /\ fold_right Z.add 0 indents = offset_before file (length file).
Proof.
  intros Neg file indents.
  assert (A : (indent_size <=? 0) = true) by (apply Z.leb_le; lia).
  assert (I : forall k fl, nth_error file k = Some fl ->
                nth_error indents k = Some (offset_of fl - offset_before file k)).
  { intros k fl H. subst indents. unfold inspect_ffile_format. cbn [fst].
    destruct (inspect_fold indent_size file) as (_ & _ & _ & _ & I).
    fold file. rewrite (I k fl H), A. reflexivity. }
  split; [exact I|].
  assert (L : length indents = length file).
  { subst indents. unfold inspect_ffile_format. cbn [fst].
    now destruct (inspect_fold indent_size file) as (L & _). }
  clearbody indents. clear A Neg. subst file.
  revert indents I L.
  induction (until_eof stream) as [|fl file IH] using rev_ind; intros indents I L.
  - destruct indents; [reflexivity|discriminate L].
  - rewrite length_app, Nat.add_1_r in L |- *. rewrite offset_before_last.
    destruct (@exists_last _ indents) as (ind' & x & ->).
    { intros ->. discriminate L. }
    rewrite length_app, Nat.add_1_r in L. injection L as L.
    rewrite fold_right_app. cbn [fold_right].
    assert (X : x = offset_of fl - offset_before file (length file)).
    { specialize (I (length file) fl).
      rewrite nth_error_app2, Nat.sub_diag in I by lia.
      specialize (I eq_refl).
      rewrite nth_error_app2 in I by lia. rewrite L, Nat.sub_diag in I.
      rewrite offset_before_app in I by lia. now injection I. }
    assert (S0 : forall (l : list Z) a, fold_right Z.add a l = fold_right Z.add 0 l + a).
    { induction l as [|y l IHl]; intros a; cbn; [lia|]. rewrite IHl. lia. }
    rewrite S0, (IH ind'); [lia| |exact L].
    intros k fl' H.
    assert (K : (k < length file)%nat) by (apply nth_error_Some; congruence).
    specialize (I k fl').
    rewrite !nth_error_app1 in I by lia.
    rewrite offset_before_app in I by lia. now apply I.
Qed.

(** X13: the first indent that [inspect_ffile_format] reports is the
    column where the first statement with text starts, and -1 for a file
    without such a statement. *)
Theorem first_indent_is_first_text (stream : list fortran_line) (indent_size : Z) :
  snd (fst (inspect_ffile_format stream indent_size))
  = match find has_text (until_eof stream) with
    | Some fl => offset_of fl
    | None => -1
    end.
Proof.
  unfold inspect_ffile_format. cbn [fst snd].
  now destruct (inspect_fold indent_size (until_eof stream)) as (_ & _ & _ & F & _).
Qed.

Section Rejection.

Variable VAR_DECL_RE_match : str -> bool.
Variable USE_PARSE_RE_match : str -> bool.
Variable OMP_RE_match : str -> bool.
Variable OMP_RE_sub : str -> str -> str.
Variable OMP_DIR_RE_match : str -> bool.
Variable OMP_DIR_RE_sub : str -> str -> str.

(** X14: [reformat_ffile] rejects a file with a statement in the style of
    Fortran 77 before any statement is formatted: it raises the parse
    error with nothing written and nothing logged.  For any other file
    it runs the loop over the statements, with the steps and the first
    indent of the inspection. *)
Theorem f77_file_is_rejected (stream : list fortran_line)
        (indent_size whitespace : Z) (p : pipeline) :
  reformat_ffile VAR_DECL_RE_match USE_PARSE_RE_match OMP_RE_match OMP_RE_sub
                 OMP_DIR_RE_match OMP_DIR_RE_sub stream indent_size whitespace p
  = if existsb f77_statement (until_eof stream)
    then mk_result (Raise f77_error) pipeline_init []
    else forM (reformat_fline VAR_DECL_RE_match USE_PARSE_RE_match OMP_RE_match
                              OMP_RE_sub OMP_DIR_RE_match OMP_DIR_RE_sub
                              (fst (fst (inspect_ffile_format stream indent_size)))
                              (snd (fst (inspect_ffile_format stream indent_size)))
                              indent_size whitespace)
              (until_eof stream) pipeline_init.
Proof.
  unfold reformat_ffile. rewrite bind_modify.
  unfold inspect_ffile_format. cbn [fst snd].
  destruct (inspect_fold indent_size (until_eof stream)) as (_ & _ & N & _ & _).
  rewrite N.
  destruct (existsb f77_statement (until_eof stream)); reflexivity.
Qed.

End Rejection.

(* ================================================================= *)
(** ** Invariants of the tracker's stacks *)

Lemma combine_base isn vn ic vc ie ve rel (s : F90Indenter) base rest :
  line_indents s <> [] ->
  indent_storage s = base :: rest ->
  exists rest',
    indent_storage (post (combine_indents isn vn ic vc ie ve rel s)) = base :: rest'.
Proof.
  intros NL E.
  destruct (combine_stacks isn vn ic vc ie ve rel s) as [_ [H|[(_ & v & H)|H]]].
  - exists rest. now rewrite H.
  - exists (rest ++ [v]). now rewrite H, E.
  - destruct H as (-> & -> & -> & -> & _).
    unfold combine_indents. msimp. cbn [negb].
    destruct (line_indents s) as [|i0 li] eqn:EL; [contradiction|].
    destruct rest as [|r0 rest].
    + rewrite E. cbn. exists []. exact E.
    + destruct (stack_shapes (indent_storage s)) as [S0|[(x & S1)|(l0 & y & x & S2)]].
      * rewrite S0 in E. discriminate E.
      * rewrite S1 in E. discriminate E.
      * rewrite S2. rewrite index_m2_snoc. cbn [shift_all]. msimp.
        rewrite pop_last_snoc2. msimp. cbn.
        rewrite S2 in E. destruct l0 as [|b l0]; cbn in E.
        -- injection E as -> _. exists []. reflexivity.
        -- injection E as -> _. eexists. reflexivity.
Qed.

Lemma pop_ends_one scopes K v :
  (length scopes <= S (length (fst (pop_ends scopes [K] v))))%nat.
Proof.
  cbn. destruct (snoc_cases scopes) as [->|(l & x & ->)]; [cbn; lia|].
  rewrite pop_last_snoc. cbn. rewrite length_app. cbn. lia.
Qed.

Section TrackerInvariants.

Variable VAR_DECL_RE_match : str -> bool.

Abbreviation process := (process_lines_of_fline VAR_DECL_RE_match).
Abbreviation line_breaks := (deal_with_line_breaks VAR_DECL_RE_match).

(** X15: the entry at the bottom of the IndentStack is never removed or
    changed by a statement with at least one fragment, whether the call
    returns or raises; so the stack that starts as [0] is never empty
    and [get_fline_indent] always finds an entry. *)
Theorem indent_stack_keeps_its_base
        f_line lines rel_ind rel_ind_con line_nr manual (s : F90Indenter)
        (base : Z) (rest : list Z) :
  lines <> [] ->
  indent_storage s = base :: rest ->
  let r := process f_line lines rel_ind rel_ind_con line_nr manual s in
  (exists rest', indent_storage (post r) = base :: rest')
  /\ exists top, get_fline_indent (post r) = Ok top.
Proof.
  intros NL E r.
  assert (B : exists rest', indent_storage (post r) = base :: rest').
  { destruct (process_run VAR_DECL_RE_match f_line lines rel_ind rel_ind_con
                          line_nr manual s) as (logs & _ & R).
    cbv zeta in R. fold r in R. rewrite R.
    destruct (line_breaks_reset_stacks VAR_DECL_RE_match f_line lines rel_ind_con
                line_nr manual s) as [_ HI]. cbv zeta in HI.
    match goal with
    | |- context [out ?x] => set (r1 := x) in *
    end.
    assert (L : length (line_indents (post r1)) = length lines).
    { apply (line_breaks_raw VAR_DECL_RE_match f_line lines rel_ind_con line_nr
               manual (set_line_indents (repeat 0 (length lines)) s)
               (length lines)).
      split; [apply repeat_length|].
      cbn. destruct (length lines); [contradiction|reflexivity]. }
    destruct (out r1) as [[]|e]; cbn [post].
    - apply (combine_base _ _ _ _ _ _ _ _ base rest).
      + cbn. intros N. rewrite N in L. destruct lines; [contradiction|discriminate L].
      + cbn. rewrite HI. exact E.
    - exists rest. cbn. rewrite HI. exact E. }
  split; [exact B|].
  destruct B as (rest' & B). unfold get_fline_indent. rewrite B.
  destruct (snoc_cases (base :: rest')) as [N|(l & x & N)]; [discriminate N|].
  rewrite N, index_m1_snoc. now exists x.
Qed.

(** X16: a statement matches the closing pattern of at most one kind,
    and then no continuation pattern; so the tracker takes at most one
    kind off the ScopeStack per statement, whether the call returns or
    raises. *)
Theorem at_most_one_scope_closes
        f_line lines rel_ind rel_ind_con line_nr manual (s : F90Indenter) :
  let r := process f_line lines rel_ind rel_ind_con line_nr manual s in
  (length (end_matches f_line) <= 1)%nat
  /\ (end_matches f_line <> [] -> con_matches f_line = [])
  /\ (length (scope_storage s) <= S (length (scope_storage (post r))))%nat.
Proof.
  intros r.
  assert (U : end_matches f_line = [] \/ exists K, end_matches f_line = [K]).
  { destruct (end_matches f_line) as [|K l] eqn:E; [now left|right].
    exists K. rewrite <- E. apply closing_kind_unique. rewrite E. now left. }
  split; [|split].
  - destruct U as [->|(K & ->)]; cbn; lia.
  - intros NE. destruct U as [N|(K & EK)]; [contradiction|].
    apply (closing_excludes_continuation f_line K). rewrite EK. now left.
  - destruct (process_run VAR_DECL_RE_match f_line lines rel_ind rel_ind_con
                          line_nr manual s) as (logs & _ & R).
    cbv zeta in R. fold r in R.
    assert (P : scope_storage (post r)
                = fst (pop_ends (scope_storage s ++ new_matches f_line)
                                (end_matches f_line) false)).
    { rewrite R.
      match goal with
      | |- context [out ?x] => destruct (out x) as [[]|e]
      end; cbn [post].
      - match goal with
        | |- context [combine_indents ?a ?b ?c ?d ?e ?f ?g ?h] =>
            destruct (combine_stacks a b c d e f g h) as [Q _]
        end.
        rewrite Q. reflexivity.
      - reflexivity. }
    rewrite P.
    destruct U as [->|(K & ->)].
    + cbn. rewrite length_app. lia.
    + pose proof (pop_ends_one (scope_storage s ++ new_matches f_line) K false) as Q.
      rewrite length_app in Q. lia.
Qed.

End TrackerInvariants.

(* ================================================================= *)
(** ** The records and the exceptions of the token formatter *)

Lemma format_char_emits line spacey (v : fmt) pc :
  emits (eq unpaired_record) (format_char line spacey v pc).
Proof.
  destruct pc as [pos char]. unfold format_char. cbv zeta.
  repeat first
    [ emits_step
    | match goal with
      | |- emits _ (if ?c then _ else _) => destruct c
      | |- emits _ (match ?x with _ => _ end) => destruct x
      end ].
Qed.

(** X17: at a whitespace level other than 0, 1 and 2
    [format_single_fline] raises [NotImplementedError] at once, with
    nothing logged; at a supported level its only exceptions are
    [IndexError] and the internal exception for a line break position
    that was not found, and at any level the only record it logs is the
    one for unpaired bracket delimiters. *)
Theorem formatter_errors (f_line : str) (whitespace : Z)
        (linebreak_pos ampersand_sep : list Z) (auto_format : bool) :
  let format := format_single_fline f_line whitespace linebreak_pos ampersand_sep
                                    auto_format in
  (~ supported whitespace ->
   forall s, format s = mk_result (Raise unknown_whitespace) s [])
  /\ (supported whitespace -> raises_only formatter_error format)
  /\ emits (eq unpaired_record) format.
Proof.
  intros format. split; [|split].
  - intros N s. subst format. unfold format_single_fline.
    rewrite (spacey_unsupported _ N). reflexivity.
  - intros Sp. subst format. unfold format_single_fline.
    destruct (spacey_supported _ Sp) as (spacey & ->).
    intros s. rewrite bind_lift_ok. revert s.
    match goal with |- forall s e, out (?m s) = _ -> _ => change (raises_only formatter_error m) end.
    cbv zeta.
    apply raises_only_bind.
    { apply (raises_only_weaken index_error); [intros e ->; now left|].
      apply raises_only_foldM. intros. apply format_char_raises. }
    intros v. apply raises_only_bind.
    { apply (raises_only_weaken index_error); [intros e ->; now left|].
      apply raises_only_foldM. intros. apply format_assignment_raises. }
    intros line_ftd. apply raises_only_bind.
    { apply (raises_only_weaken index_error); [intros e ->; now left|].
      apply two_sided_raises. }
    intros line_parts. apply raises_only_bind.
    { apply raises_only_lift. intros e H. right.
      exact (shift_linebreaks_raises _ _ _ _ H). }
    intros ftd. apply raises_only_bind.
    { apply raises_only_lift. intros e H. left.
      exact (break_lines_raises _ _ _ _ H). }
    intros lines_out. repeat raises_step.
  - subst format. unfold format_single_fline. cbv zeta.
    apply emits_bind; [apply emits_lift|]. intros spacey.
    apply emits_bind; [apply emits_foldM; intros; apply format_char_emits|].
    intros v.
    apply emits_bind.
    { apply emits_foldM. intros. unfold format_assignment. cbv zeta.
      repeat emits_step. }
    intros line_ftd. apply emits_bind.
    { unfold two_sided. apply emits_foldM. intros lp [n_op lr_re].
      apply emits_foldM. intros lp' [pos part].
      destruct (negb (matches QUOTE_BANG_RE part)); repeat emits_step. }
    intros line_parts. repeat emits_step.
Qed.

(* ================================================================= *)
(** ** The lines that the token formatter returns *)

Lemma pop_last_length {A} (l : list A) x r :
  pop_last l = Ok (x, r) -> length l = S (length r).
Proof.
  destruct (snoc_cases l) as [->|(l' & y & ->)]; [discriminate|].
  rewrite pop_last_snoc. intros H. injection H as <- <-.
  rewrite length_app. cbn. lia.
Qed.

Lemma insert_desc_length x l : length (insert_desc x l) = S (length l).
Proof.
  induction l as [|y l IH]; cbn; [reflexivity|].
  destruct (y <? x); cbn; [reflexivity|now rewrite IH].
Qed.

Lemma sort_desc_length l : length (sort_desc l) = length l.
Proof.
  induction l as [|x l IH]; cbn; [reflexivity|].
  fold (sort_desc l). now rewrite insert_desc_length, IH.
Qed.

Lemma interned_all (c : ascii) : interned c = true.
Proof.
  unfold interned, code. apply Nat.ltb_lt. apply nat_ascii_bounded.
Qed.

Lemma same_object_refl (c : ascii) : same_object c c = true.
Proof.
  unfold same_object, ch_eqb. now rewrite Ascii.eqb_refl, interned_all.
Qed.

Lemma shift_loop_length line line_orig :
  forall fuel pos_new pos_old linebreak_pos acc l,
    shift_loop fuel line line_orig pos_new pos_old linebreak_pos acc = Ok l ->
    (length l <= length acc + length linebreak_pos)%nat.
Proof.
  induction fuel as [|fuel IH]; intros pn po lbp acc l H.
  - injection H as <-. lia.
  - cbn [shift_loop] in H.
    destruct (nth_error line pn) as [a|]; [|injection H as <-; lia].
    destruct (nth_error line_orig po) as [b|]; [|injection H as <-; lia].
    destruct (negb (ch_eqb a b)); [discriminate H|].
    cbv zeta in H.
    assert (C : forall r,
               (if same_object a b
                then shift_loop fuel line line_orig (skip_blanks line (S pn))
                                (skip_blanks line_orig (S po)) lbp acc
                else if is_blank a
                     then shift_loop fuel line line_orig (S pn) po lbp acc
                     else if is_blank b
                          then shift_loop fuel line line_orig pn (S po) lbp acc
                          else Raise failed_break) = Ok r ->
               (length r <= length acc + length lbp)%nat).
    { intros r G. destruct (same_object a b); [exact (IH _ _ _ _ _ G)|].
      destruct (is_blank a); [exact (IH _ _ _ _ _ G)|].
      destruct (is_blank b); [exact (IH _ _ _ _ _ G)|discriminate G]. }
    destruct (pop_last lbp) as [[lb rest]|e'] eqn:P; [|exact (C _ H)].
    apply pop_last_length in P.
    destruct (lb <? Z.of_nat po); [|exact (C _ H)].
    apply IH in H. rewrite length_app in H. cbn in H. lia.
Qed.

Lemma shift_linebreaks_length line line_orig linebreak_pos ftd :
  shift_linebreaks line line_orig linebreak_pos = Ok ftd ->
  exists l, ftd = 0%nat :: l /\ (length l <= length linebreak_pos)%nat.
Proof.
  unfold shift_linebreaks.
  destruct (shift_loop _ line line_orig 0 0 (sort_desc linebreak_pos) []) as [l|e]
    eqn:E; [|discriminate].
  intros H. injection H as <-. exists l. split; [reflexivity|].
  apply shift_loop_length in E. rewrite sort_desc_length in E. exact E.
Qed.

Lemma break_lines_length line first l seps lines :
  break_lines line (first :: l) seps = Ok lines -> length lines = S (length l).
Proof.
  unfold break_lines.
  match goal with
  | |- context [?g (enumerate ?x)] =>
      set (go := g);
      assert (L : length (enumerate x) = length l); [|revert L; generalize (enumerate x)]
  end.
  { unfold enumerate. rewrite length_combine, length_seq, Nat.min_id.
    rewrite length_combine. cbn [tl].
    assert (R : length (removelast (first :: l)) = length l).
    { clear. revert first. induction l as [|a l IH]; intros first; [reflexivity|].
      change (removelast (first :: a :: l)) with (first :: removelast (a :: l)).
      cbn [length]. now rewrite IH. }
    rewrite R. apply Nat.min_id. }
  intros el L.
  assert (G : forall el out, go el = Ok out -> length out = length el).
  { clear. induction el as [|[pos [l0 r0]] el IH]; intros out H.
    - injection H as <-. reflexivity.
    - cbn in H. destruct (index seps pos) as [sep|e1]; [|discriminate H].
      fold go in H. destruct (go el) as [rest|e2] eqn:E; [|discriminate H].
      injection H as <-. cbn. f_equal. now apply IH. }
  destruct (go el) as [lines_out|e1] eqn:E.
  - destruct (index_m1 (first :: l)) as [lastpos|e2]; [|discriminate].
    intros H. injection H as <-. rewrite length_app, (G _ _ E), L. cbn. lia.
  - destruct (index_m1 (first :: l)); discriminate.
Qed.

(** X18: when [format_single_fline] returns, it returns at least one
    line and at most one line more than there are line break
    positions. *)
Theorem formatter_returns_lines (f_line : str) (whitespace : Z)
        (linebreak_pos ampersand_sep : list Z) (auto_format : bool) (s : unit)
        (lines : list str) :
  out (format_single_fline f_line whitespace linebreak_pos ampersand_sep
                           auto_format s) = Ok lines ->
  lines <> [] /\ (length lines <= S (length linebreak_pos))%nat.
Proof.
  unfold format_single_fline. cbv zeta. intros H.
  apply bind_out_ok in H. destruct H as (spacey & _ & H).
  apply bind_out_ok in H. destruct H as (v & _ & H).
  apply bind_out_ok in H. destruct H as (line_ftd & _ & H).
  apply bind_out_ok in H. destruct H as (line_parts & _ & H).
  apply bind_out_ok in H. destruct H as (ftd & F & H).
  apply bind_out_ok in H. destruct H as (lines_out & B & H).
  apply bind_out_ok in H. destruct H as (u & _ & H).
  cbn in H. injection H as <-.
  cbn [lift out] in F, B.
  destruct (shift_linebreaks_length _ _ _ _ F) as (l & -> & L).
  apply break_lines_length in B.
  split; [|lia]. intros ->. discriminate B.
Qed.

Lemma shift_loop_same (line : str) :
  forall fuel pos acc, shift_loop fuel line line pos pos [] acc = Ok acc.
Proof.
  induction fuel as [|fuel IH]; intros pos acc; [reflexivity|].
  cbn [shift_loop]. destruct (nth_error line pos) as [a|]; [|reflexivity].
  unfold ch_eqb at 1. rewrite Ascii.eqb_refl. cbn [negb]. rewrite pop_last_nil.
  cbv zeta. rewrite same_object_refl. apply IH.
Qed.

(** With the line compared with itself the loop never raises. *)
Lemma shift_loop_manual (line : str) :
  forall fuel pos linebreak_pos acc,
    exists l, shift_loop fuel line line pos pos linebreak_pos acc = Ok l.
Proof.
  induction fuel as [|fuel IH]; intros pos lbp acc; [now eexists|].
  cbn [shift_loop]. destruct (nth_error line pos) as [a|]; [|now eexists].
  unfold ch_eqb at 1. rewrite Ascii.eqb_refl. cbn [negb]. cbv zeta.
  rewrite same_object_refl.
  destruct (pop_last lbp) as [[lb rest]|e]; [|apply IH].
  destruct (lb <? Z.of_nat pos); apply IH.
Qed.

Lemma stage_index {S A B} (m : M S A) (k : A -> M S B) (X : B) s :
  raises_only index_error m ->
  (forall a s', out (k a s') = Ok X \/ out (k a s') = Raise IndexError) ->
  out (bind m k s) = Ok X \/ out (bind m k s) = Raise IndexError.
Proof.
  intros Hm Hk. destruct (out (m s)) as [a|e] eqn:O.
  - destruct (bind_out_post m k s a O) as [-> _]. apply Hk.
  - right. rewrite (out_bind_raise m k s e O). f_equal. exact (Hm s e O).
Qed.

(** X19: for a statement of characters with code points below 256, which
    are the characters that a [str] holds (a character above that range
    fails the identity test of the loop over the line break positions,
    and the call raises the internal exception): with automatic
    formatting switched off, as it is inside a manual block,
    [format_single_fline] at a supported whitespace level never fails
    with the internal exception for a line break position, its only
    exception is [IndexError]; and a statement without line breaks is
    handed back as it is. *)
Theorem manual_statement_is_kept (f_line : str) (whitespace : Z)
        (linebreak_pos ampersand_sep : list Z) (s : unit) :
  supported whitespace ->
  let format lbp := format_single_fline f_line whitespace lbp ampersand_sep false in
  raises_only index_error (format linebreak_pos)
  /\ (out (format [] s) = Ok [f_line] \/ out (format [] s) = Raise IndexError).
Proof.
  intros Sp format. subst format. cbv beta. split.
  - unfold format_single_fline.
    destruct (spacey_supported _ Sp) as (spacey & ->).
    intros s0. rewrite bind_lift_ok. revert s0.
    match goal with
    | |- forall s e, out (?m s) = _ -> _ => change (raises_only index_error m)
    end.
    cbv zeta.
    apply raises_only_bind;
      [apply raises_only_foldM; intros; apply format_char_raises|].
    intros v. apply raises_only_bind;
      [apply raises_only_foldM; intros; apply format_assignment_raises|].
    intros line_ftd. apply raises_only_bind; [apply two_sided_raises|].
    intros line_parts. cbn [negb]. apply raises_only_bind.
    { apply raises_only_lift. intros e H. exfalso.
      unfold shift_linebreaks in H.
      match type of H with
      | context [shift_loop ?f _ _ _ _ ?l ?a] =>
          destruct (shift_loop_manual f_line f 0 l a) as (l' & Q)
      end.
      rewrite Q in H. discriminate H. }
    intros ftd. apply raises_only_bind.
    { apply raises_only_lift. intros e H.
      exact (break_lines_raises _ _ _ _ H). }
    intros lines_out. repeat raises_step.
  - unfold format_single_fline.
    destruct (spacey_supported _ Sp) as (spacey & ->).
    rewrite bind_lift_ok. cbv zeta.
    apply stage_index.
    { apply raises_only_foldM. intros. apply format_char_raises. }
    intros v s1. apply stage_index.
    { apply raises_only_foldM. intros. apply format_assignment_raises. }
    intros line_ftd s2. apply stage_index; [apply two_sided_raises|].
    intros line_parts s3. left. cbn [negb].
    assert (F : shift_linebreaks f_line f_line [] = Ok [0%nat]).
    { unfold shift_linebreaks. cbn [sort_desc fold_right].
      now rewrite shift_loop_same. }
    rewrite F, bind_lift_ok.
    assert (B : break_lines f_line [0%nat] ampersand_sep = Ok [f_line]) by reflexivity.
    rewrite B, bind_lift_ok.
    unfold when. destruct (negb (f_level v =? 0)); reflexivity.
Qed.

(* ================================================================= *)
(** ** Statements that [reformat_ffile] does not format *)

Lemma spaces_succ (n : Z) : 0 <= n -> spaces (1 + n) = blank :: spaces n.
Proof.
  intros H. unfold spaces, times.
  replace (Z.to_nat (1 + n)) with (S (Z.to_nat n)) by lia. reflexivity.
Qed.

Lemma spaces_lstrip (l : str) :
  spaces (len l - len (lstrip_blank l)) ++ lstrip_blank l = l.
Proof.
  induction l as [|c l IH].
  - reflexivity.
  - unfold lstrip_blank in *. cbn [lstrip_by].
    destruct (is_blank c) eqn:B.
    + unfold is_blank, ch_eqb in B. apply Ascii.eqb_eq in B. subst c.
      pose proof (lstrip_by_length is_blank l) as L.
      replace (len (blank :: l) - len (lstrip_by is_blank l))
        with (1 + (len l - len (lstrip_by is_blank l)))
        by (unfold len; cbn [length]; lia).
      rewrite spaces_succ by (unfold len; lia).
      cbn [app]. now rewrite IH.
    + rewrite Z.sub_diag. reflexivity.
Qed.

Lemma write_line_copy (first_indent ind : Z) (line orig_line : str) (p : pipeline) :
  do_indent p = false -> use_same_line p = false ->
  write_line first_indent false (ind, (line, orig_line)) p
  = mk_result (Ok tt) (write (copied line orig_line) p)
              (if line_length_of line <=? 133 then [] else [(WARNING, limit_warning)]).
Proof.
  intros D U. unfold write_line. rewrite !bind_gets, D, U.
  unfold guarded_line, copied. cbn [bool_Z].
  rewrite Z.add_0_l.
  destruct (line_length_of line <=? 133).
  - rewrite bind_modify. cbn [when]. rewrite ret_run.
    do 2 f_equal. cbn [times repeat concat Z.to_nat app].
    replace (0 - 2 * 0 + len line - len (lstrip_blank line))
      with (len line - len (lstrip_blank line)) by lia.
    apply spaces_lstrip.
  - rewrite bind_modify. cbn [when]. rewrite logger_run. reflexivity.
Qed.

Lemma copy_all (first_indent : Z) :
  forall (l : list (Z * (str * str))) (p : pipeline),
    do_indent p = false -> use_same_line p = false ->
    let r := forM (write_line first_indent false) l p in
    out r = Ok tt
    /\ post r = mk_pipeline (indenter p) (nfl p) false false (skip_blank p)
                            (in_manual_block p)
                            (outfile p ++ map (fun x => copied (fst (snd x)) (snd (snd x))) l)
    /\ Forall (eq (WARNING, limit_warning)) (emitted r).
Proof.
  unfold forM. induction l as [|[ind [line orig]] l IH]; intros p D U; cbn [foldM].
  - cbn. rewrite app_nil_r. repeat split; [|constructor].
    destruct p; cbn in *; now subst.
  - pose proof (write_line_copy first_indent ind line orig p D U) as W.
    rewrite (bind_ok _ _ _ _ _ _ W). cbn [out post emitted].
    destruct (IH (write (copied line orig) p) D U) as (O & P & E).
    split; [exact O|]. split.
    + rewrite P. cbn [map fst snd]. cbn -[copied]. now rewrite <- app_assoc.
    + apply Forall_app. split; [|exact E].
      destruct (line_length_of line <=? 133); repeat constructor.
Qed.

Lemma copied_lines (lines : list str) :
  map (fun x : Z * (str * str) => copied (fst (snd x)) (snd (snd x)))
      (combine (repeat 0 (length lines)) (combine (map tidy lines) lines))
  = map (fun l => copied (tidy l) l) lines.
Proof.
  induction lines as [|l lines IH]; [reflexivity|].
  cbn [length repeat map combine fst snd]. now rewrite IH.
Qed.

Lemma check_directive_pass (lines : list str) (p : pipeline) :
  Forall no_directive lines -> check_directive lines p = mk_result (Ok tt) p [].
Proof.
  intros F. destruct lines as [|l0 [|l1 ls]]; [reflexivity| |reflexivity].
  inversion F as [|? ? [O C] _]; subst.
  rewrite check_directive_run, O, C. reflexivity.
Qed.

Section Unformatted.

Variable VAR_DECL_RE_match : str -> bool.
Variable USE_PARSE_RE_match : str -> bool.
Variable OMP_RE_match : str -> bool.
Variable OMP_RE_sub : str -> str -> str.
Variable OMP_DIR_RE_match : str -> bool.
Variable OMP_DIR_RE_sub : str -> str -> str.

Variable req_indents : list Z.
Variable first_indent indent_size whitespace : Z.

Let body : fortran_line -> M pipeline unit :=
  reformat_fline VAR_DECL_RE_match USE_PARSE_RE_match OMP_RE_match OMP_RE_sub
                 OMP_DIR_RE_match OMP_DIR_RE_sub req_indents first_indent
                 indent_size whitespace.

(** X20: a USE statement outside OpenMP conditionals, none of whose
    lines is a manual-region directive, is not formatted: after a
    statement that did not end with a semicolon, each of its lines is
    written as it is, with its own indentation, apart from the
    whitespace at its end; a line whose code part is longer than 132
    characters is written untouched, with a warning. *)
Theorem use_statement_is_copied (fl : fortran_line) (p : pipeline) :
  USE_PARSE_RE_match (fl_f_line fl) = true ->
  OMP_RE_match (fl_f_line fl) = false ->
  Forall no_directive (fl_lines fl) ->
  use_same_line p = false ->
  let r := body fl p in
  out r = Ok tt
  /\ outfile (post r) = outfile p ++ map (fun l => copied (tidy l) l) (fl_lines fl)
  /\ Forall (eq (WARNING, limit_warning)) (emitted r).
Proof.
  intros U O F Sm r. subst r. unfold body, reformat_fline. cbv zeta.
  rewrite bind_modify, bind_gets.
  rewrite (bind_ok _ _ _ _ _ _ (check_directive_pass _ _ F)).
  cbn [out post emitted app]. rewrite O. cbn [andb]. rewrite U.
  rewrite bind_assoc, bind_modify, bind_ret.
  match goal with
  | |- context [bind (forM ?w ?l) ?k ?s] =>
      destruct (copy_all first_indent l s eq_refl Sm) as (Ow & Pw & Ew);
      set (loop := forM w l) in *; set (rest := k)
  end.
  destruct (bind_out_post loop rest _ tt Ow) as [E1 E2].
  rewrite E1, E2. subst rest. cbv beta.
  split; [|split].
  - destruct (search SEMICOLON_END_RE (fl_f_line fl)); reflexivity.
  - assert (Q : forall (m : M pipeline unit) q,
                outfile (post (bind m (fun _ => modify (set_skip_blank
                   (search EMPTY_RE (fl_f_line fl)
                    && negb (any_nonempty (fl_comments fl)))%bool)) q))
                = outfile (post (m q))).
    { intros m q. unfold bind. destruct (out (m q)); reflexivity. }
    rewrite Q.
    destruct (search SEMICOLON_END_RE (fl_f_line fl));
      rewrite !bind_modify; cbn [modify post]; cbn [outfile set_use_same_line set_do_indent];
      rewrite Pw; cbn [outfile set_nfl]; now rewrite copied_lines.
  - unfold bind at 1. rewrite Ow. cbn [emitted].
    apply Forall_app. split; [exact Ew|].
    destruct (search SEMICOLON_END_RE (fl_f_line fl)); repeat constructor.
Qed.

(** The first character of a line outlives [strip] when it is no
    whitespace. *)
Lemma lstrip_by_snoc (p : ascii -> bool) (l : str) (c : ascii) :
  p c = false -> lstrip_by p (l ++ [c]) = lstrip_by p l ++ [c].
Proof.
  intros H. induction l as [|a l IH]; cbn; [now rewrite H|].
  destruct (p a); [exact IH|reflexivity].
Qed.

Lemma strip_by_head (p : ascii -> bool) (c : ascii) (t : str) :
  p c = false -> exists t', strip_by p (c :: t) = c :: t'.
Proof.
  intros H. unfold strip_by, rstrip_by. cbn [lstrip_by]. rewrite H.
  cbn [rev]. rewrite (lstrip_by_snoc p (rev t) c H), rev_app_distr.
  cbn. eexists. reflexivity.
Qed.

Lemma startswith_nil (s : str) : startswith s [] = true.
Proof. destruct s; reflexivity. Qed.

Lemma hash_no_directive (l : str) :
  startswith l (s_ "#") = true -> no_directive l.
Proof.
  destruct l as [|c t]; [discriminate|].
  unfold s_. cbn [list_ascii_of_string startswith].
  rewrite startswith_nil, andb_true_r.
  intros H. unfold ch_eqb in H. apply Ascii.eqb_eq in H. subst c.
  unfold no_directive, opens_manual, closes_manual, strip.
  destruct (strip_by_head is_space "#" t eq_refl) as (t' & ->).
  split; reflexivity.
Qed.

Lemma blank_no_hash (l : str) :
  strip l = [] -> startswith l (s_ "#") = false /\ no_directive l.
Proof.
  intros H. split.
  - destruct l as [|c t]; [reflexivity|].
    unfold s_. cbn [list_ascii_of_string startswith].
    rewrite startswith_nil, andb_true_r.
    destruct (ch_eqb "#" c) eqn:E; [|reflexivity].
    unfold ch_eqb in E. apply Ascii.eqb_eq in E. subst c.
    unfold strip in H.
    destruct (strip_by_head is_space "#" t eq_refl) as (t' & Q).
    rewrite Q in H. discriminate H.
  - unfold no_directive, opens_manual, closes_manual. rewrite H. split; reflexivity.
Qed.

Lemma write_line_run (omp : bool) (ind : Z) (line orig_line : str) (p : pipeline) :
  let ind_use := if do_indent p then ind + first_indent
                 else if use_same_line p then 1 else 0 in
  let g := guarded_line ind_use omp line orig_line in
  write_line first_indent omp (ind, (line, orig_line)) p
  = mk_result (Ok tt) (write (fst g) p)
              (if snd g then [(WARNING, limit_warning)] else []).
Proof.
  cbv zeta. unfold write_line. rewrite !bind_gets.
  destruct (guarded_line _ omp line orig_line) as [text warn].
  rewrite bind_modify. cbn [fst snd].
  destruct warn; cbn [when]; [rewrite logger_run|rewrite ret_run]; reflexivity.
Qed.

Lemma finish_statement (f_line : str) (b : bool) (q : pipeline) :
  bind (if search SEMICOLON_END_RE f_line
        then let* _ := modify (set_do_indent false) in modify (set_use_same_line true)
        else let* _ := modify (set_do_indent true) in modify (set_use_same_line false))
       (fun _ => modify (set_skip_blank b)) q
  = mk_result (Ok tt) (after_statement f_line b q) [].
Proof.
  unfold after_statement.
  destruct (search SEMICOLON_END_RE f_line); reflexivity.
Qed.

Lemma outfile_after_statement (f_line : str) (b : bool) (q : pipeline) :
  outfile (after_statement f_line b q) = outfile q.
Proof.
  unfold after_statement. destruct (search SEMICOLON_END_RE f_line); reflexivity.
Qed.

(** X21: a preprocessor line (a statement of one line that starts with
    [#]) is not formatted: after a statement that did not end with a
    semicolon it is written as it is, apart from the whitespace at its
    end, or untouched with a warning when longer than 132 characters. *)
Theorem preprocessor_line_is_copied (fl : fortran_line) (line0 : str) (p : pipeline) :
  fl_lines fl = [line0] ->
  startswith line0 (s_ "#") = true ->
  USE_PARSE_RE_match (fl_f_line fl) = false ->
  OMP_DIR_RE_match (fl_f_line fl) = false ->
  OMP_RE_match (fl_f_line fl) = false ->
  use_same_line p = false ->
  let r := body fl p in
  out r = Ok tt /\ outfile (post r) = outfile p ++ [copied (tidy line0) line0].
Proof.
  intros L H U D O Sm r. subst r. unfold body, reformat_fline. cbv zeta.
  rewrite bind_modify, bind_gets. rewrite L.
  assert (F : Forall no_directive [line0])
    by (constructor; [now apply hash_no_directive|constructor]).
  rewrite (bind_ok _ _ _ _ _ _ (check_directive_pass _ _ F)).
  cbn [out post emitted app]. rewrite O. cbn [andb]. rewrite U, D.
  cbn [hd length Nat.eqb negb]. rewrite H.
  rewrite bind_assoc, bind_modify, bind_ret.
  cbn [map repeat combine]. unfold forM. cbn [foldM].
  rewrite bind_assoc.
  match goal with
  | |- context [bind (write_line _ _ (?i, (?l, ?ol))) _ ?s] =>
      rewrite (bind_ok _ _ _ _ _ _ (write_line_copy first_indent i l ol s eq_refl Sm))
  end.
  cbn [out post emitted]. rewrite bind_ret.
  fold (tidy line0). rewrite finish_statement. cbn [out post].
  rewrite outfile_after_statement. split; reflexivity.
Qed.

(** X22: a preprocessor statement and a blank or comment statement that
    come with any number of lines other than one are fatal: the loop
    body raises the internal exception with nothing written, whatever
    the state. *)
Theorem continuation_outside_code_is_fatal (fl : fortran_line) (p : pipeline) :
  length (fl_lines fl) <> 1%nat ->
  USE_PARSE_RE_match (fl_f_line fl) = false ->
  OMP_DIR_RE_match (fl_f_line fl) = false ->
  OMP_RE_match (fl_f_line fl) = false ->
  (startswith (hd [] (fl_lines fl)) (s_ "#") = true ->
   body fl p = mk_result (Raise preprocessor_continuation)
                         (set_nfl (S (nfl p)) p) [])
  /\ (startswith (hd [] (fl_lines fl)) (s_ "#") = false ->
      search EMPTY_RE (fl_f_line fl) = true ->
      body fl p = mk_result (Raise comment_continuation)
                            (set_nfl (S (nfl p)) p) []).
Proof.
  intros L U D O.
  assert (C : forall q, check_directive (fl_lines fl) q = mk_result (Ok tt) q []).
  { intros q. destruct (fl_lines fl) as [|l0 [|l1 ls]];
      [reflexivity|cbn in L; contradiction|reflexivity]. }
  assert (N : negb (Nat.eqb (length (fl_lines fl)) 1) = true).
  { apply negb_true_iff. now apply Nat.eqb_neq. }
  split.
  - intros H. unfold body, reformat_fline. cbv zeta.
    rewrite bind_modify, bind_gets.
    rewrite (bind_ok _ _ _ _ _ _ (C _)).
    cbn [out post emitted app]. rewrite O. cbn [andb]. rewrite U, D, H, N.
    reflexivity.
  - intros H E. unfold body, reformat_fline. cbv zeta.
    rewrite bind_modify, bind_gets.
    rewrite (bind_ok _ _ _ _ _ _ (C _)).
    cbn [out post emitted app]. rewrite O. cbn [andb]. rewrite U, D, H, E, N.
    reflexivity.
Qed.

(** X23: blank lines are collapsed.  A blank statement (one blank line
    without comment) that follows a blank statement writes nothing and
    changes nothing but the statement counter; after any other
    statement it writes exactly one line and sets the flag that
    suppresses the blank statements after it. *)
Theorem blank_lines_collapse (fl : fortran_line) (line0 : str) (p : pipeline) :
  fl_lines fl = [line0] ->
  strip line0 = [] ->
  search EMPTY_RE (fl_f_line fl) = true ->
  any_nonempty (fl_comments fl) = false ->
  USE_PARSE_RE_match (fl_f_line fl) = false ->
  OMP_DIR_RE_match (fl_f_line fl) = false ->
  OMP_RE_match (fl_f_line fl) = false ->
  let r := body fl p in
  if skip_blank p
  then r = mk_result (Ok tt) (set_nfl (S (nfl p)) p) []
  else out r = Ok tt
       /\ (exists text, outfile (post r) = outfile p ++ [text])
       /\ skip_blank (post r) = true.
Proof.
  intros L B E A U D O r. subst r. unfold body, reformat_fline. cbv zeta.
  rewrite bind_modify, bind_gets. rewrite L.
  destruct (blank_no_hash line0 B) as [H Nd].
  assert (F : Forall no_directive [line0]) by (constructor; [exact Nd|constructor]).
  rewrite (bind_ok _ _ _ _ _ _ (check_directive_pass _ _ F)).
  cbn [out post emitted app]. rewrite O. cbn [andb]. rewrite U, D.
  cbn [hd length Nat.eqb negb]. rewrite H, E, A.
  rewrite bind_assoc, bind_gets. cbn [skip_blank set_nfl].
  destruct (skip_blank p) eqn:Sk.
  - rewrite bind_ret. reflexivity.
  - rewrite bind_assoc, bind_modify, bind_ret.
    cbn [map repeat combine]. unfold forM. cbn [foldM].
    rewrite bind_assoc.
    rewrite (bind_ok _ _ _ _ _ _ (write_line_run false 0 _ line0 _)).
    cbn [out post emitted]. rewrite bind_ret.
    rewrite finish_statement. cbn [out post]. split; [reflexivity|].
    split; [rewrite outfile_after_statement; eexists; reflexivity|].
    unfold after_statement.
    destruct (search SEMICOLON_END_RE (fl_f_line fl)); reflexivity.
Qed.

(** X24: a comment statement of one line, which is no manual-region
    directive and does not start with [#], is written without the
    blanks around it: at the indent of the current scope (the top of the
    IndentStack, plus the first indent of the file) when the line does
    not start with the exclamation mark, and as an unindented comment it
    keeps column 0 after a statement that did not end with a
    semicolon. *)
Theorem comment_line_indent (fl : fortran_line) (line0 : str) (p : pipeline) :
  fl_lines fl = [line0] ->
  no_directive line0 ->
  startswith line0 (s_ "#") = false ->
  search EMPTY_RE (fl_f_line fl) = true ->
  any_nonempty (fl_comments fl) = true ->
  USE_PARSE_RE_match (fl_f_line fl) = false ->
  OMP_DIR_RE_match (fl_f_line fl) = false ->
  OMP_RE_match (fl_f_line fl) = false ->
  let r := body fl p in
  let text := tidy (strip_blank line0) in
  (startswith line0 [bang] = true -> use_same_line p = false ->
   out r = Ok tt /\ outfile (post r) = outfile p ++ [copied text line0])
  /\ (startswith line0 [bang] = false -> do_indent p = true ->
      forall top, get_fline_indent (indenter p) = Ok top ->
      out r = Ok tt
      /\ outfile (post r)
         = outfile p ++ [fst (guarded_line (top + first_indent) false text line0)]).
Proof.
  intros L Nd H E A U D O r text.
  assert (F : Forall no_directive [line0]) by (constructor; [exact Nd|constructor]).
  split.
  - intros Bg Sm. subst r. unfold body, reformat_fline. cbv zeta.
    rewrite bind_modify, bind_gets, L.
    rewrite (bind_ok _ _ _ _ _ _ (check_directive_pass _ _ F)).
    cbn [out post emitted app]. rewrite O. cbn [andb].
    rewrite U, D. cbn [hd length Nat.eqb negb]. rewrite H, E, A, Bg.
    rewrite bind_assoc, bind_modify, bind_ret.
    cbn [map repeat combine]. unfold forM. cbn [foldM].
    rewrite bind_assoc.
    match goal with
    | |- context [bind (write_line _ _ (?i, (?l, ?ol))) _ ?s] =>
        rewrite (bind_ok _ _ _ _ _ _ (write_line_copy first_indent i l ol s eq_refl Sm))
    end.
    cbn [out post emitted]. rewrite bind_ret.
    fold (tidy (strip_blank line0)). fold text.
    rewrite finish_statement. cbn [out post].
    rewrite outfile_after_statement. split; reflexivity.
  - intros Bg Di top G. subst r. unfold body, reformat_fline. cbv zeta.
    rewrite bind_modify, bind_gets, L.
    rewrite (bind_ok _ _ _ _ _ _ (check_directive_pass _ _ F)).
    cbn [out post emitted app]. rewrite O. cbn [andb].
    rewrite U, D. cbn [hd length Nat.eqb negb]. rewrite H, E, A, Bg.
    rewrite bind_assoc, bind_gets. cbn [indenter set_nfl].
    rewrite G, bind_assoc, bind_lift_ok. cbn [repeat set_nth].
    rewrite bind_assoc, bind_lift_ok, bind_ret.
    cbn [map combine]. unfold forM. cbn [foldM].
    rewrite bind_assoc.
    rewrite (bind_ok _ _ _ _ _ _ (write_line_run false top _ line0 _)).
    cbn [out post emitted do_indent set_nfl]. rewrite Di.
    rewrite bind_ret.
    fold (tidy (strip_blank line0)). fold text.
    rewrite finish_statement. cbn [out post].
    rewrite outfile_after_statement. split; reflexivity.
Qed.

Lemma bind_out_raise {S A B} (m : M S A) (k : A -> M S B) s e :
  out (m s) = Raise e ->
  out (bind m k s) = Raise e /\ post (bind m k s) = post (m s).
Proof. intros H. unfold bind. rewrite H. split; reflexivity. Qed.

Lemma write_all (omp : bool) :
  forall (l : list (Z * (str * str))) (q : pipeline),
    let r := forM (write_line first_indent omp) l q in
    out r = Ok tt
    /\ exists written, outfile (post r) = outfile q ++ written
                       /\ length written = length l.
Proof.
  unfold forM. induction l as [|[ind [line orig]] l IH]; intros q; cbn [foldM].
  - split; [reflexivity|]. exists []. now rewrite app_nil_r.
  - rewrite (bind_ok _ _ _ _ _ _ (write_line_run omp ind line orig q)).
    cbn [out post]. destruct (IH (write (fst (guarded_line
      (if do_indent q then ind + first_indent else if use_same_line q then 1 else 0)
      omp line orig)) q)) as (O & written & E & L).
    split; [exact O|].
    eexists (_ :: written). rewrite E. cbn [outfile write length].
    rewrite <- app_assoc. split; [reflexivity|]. now rewrite L.
Qed.

Lemma check_directive_outfile (lines : list str) :
  preserves outfile (check_directive lines).
Proof.
  unfold check_directive. destruct lines as [|l0 [|l1 ls]]; repeat preserves_step.
Qed.

Lemma reformat_statement_outfile f_line lines comment_lines auto_align auto_format
      line_nr :
  preserves outfile
            (reformat_statement VAR_DECL_RE_match f_line lines comment_lines
                                auto_align auto_format req_indents indent_size
                                whitespace line_nr).
Proof.
  unfold reformat_statement. cbv zeta. repeat preserves_step.
Qed.

(** X26: a statement is written whole or not at all.  When the loop body
    raises, nothing of the statement has been written; when it returns,
    it has appended at most one line per physical line of the statement
    to the output; in both cases what was written before stays as it
    was. *)
Theorem statement_is_written_whole_or_not (fl : fortran_line) (p : pipeline) :
  let r := body fl p in
  exists written,
    outfile (post r) = outfile p ++ written
    /\ (length written <= length (fl_lines fl))%nat
    /\ (forall e, out r = Raise e -> written = []).
Proof.
  intros r. subst r. unfold body, reformat_fline. cbv zeta.
  rewrite bind_modify, bind_gets.
  match goal with
  | |- context [bind (check_directive ?l) ?k ?s] =>
      pose proof (check_directive_outfile l s) as Pc;
      set (chk := check_directive l) in *; set (rest := k); set (s0 := s) in *
  end.
  assert (S0 : outfile s0 = outfile p) by reflexivity.
  destruct (out (chk s0)) as [[]|e0] eqn:Oc.
  2:{ destruct (bind_out_raise chk rest s0 e0 Oc) as [_ E2]. rewrite E2.
      exists []. rewrite app_nil_r, Pc, S0. repeat split. cbn. lia. }
  destruct (bind_out_post chk rest s0 tt Oc) as [E1 E2]. rewrite E1, E2.
  subst rest. cbv beta.
  match goal with
  | |- context [bind ?m ?k (post (chk s0))] =>
      assert (Pt : preserves outfile m);
      [|set (todo := m) in *; set (fin := k)]
  end.
  { repeat first [ apply reformat_statement_outfile | preserves_step ]. }
  specialize (Pt (post (chk s0))). rewrite Pc, S0 in Pt.
  destruct (out (todo (post (chk s0)))) as [[[lines indent]|]|e1] eqn:Ot.
  - destruct (bind_out_post todo fin _ _ Ot) as [E3 E4]. rewrite E3, E4.
    subst fin. cbv beta iota.
    match goal with
    | |- context [bind (forM ?w ?l) ?k ?s] =>
        destruct (write_all (OMP_RE_match (fl_f_line fl)
                             && negb (OMP_DIR_RE_match (fl_f_line fl))) l s)
          as (Ow & written & Ew & Lw);
        set (loop := forM w l) in *; set (k1 := k)
    end.
    destruct (bind_out_post loop k1 _ tt Ow) as [E5 E6].
    rewrite E5, E6. subst k1. cbv beta.
    rewrite finish_statement. cbn [out post].
    rewrite outfile_after_statement, Ew, Pt.
    exists written. split; [reflexivity|]. split; [|discriminate].
    rewrite Lw, length_combine, length_combine. lia.
  - destruct (bind_out_post todo fin _ _ Ot) as [E3 E4]. rewrite E3, E4.
    exists []. rewrite app_nil_r. subst fin. cbn. rewrite Pt.
    repeat split. lia.
  - destruct (bind_out_raise todo fin _ e1 Ot) as [_ E4]. rewrite E4.
    exists []. rewrite app_nil_r, Pt. repeat split. cbn. lia.
Qed.

End Unformatted.

(* ================================================================= *)
(** ** Ampersands at the start of a line *)

Lemma enumerate_positions {A} (l : list A) p c :
  In (p, c) (enumerate l) -> (p < length l)%nat.
Proof.
  intros H. apply in_enumerate in H. apply nth_error_Some. congruence.
Qed.

Lemma index_before_ok {A} (l : list A) p :
  (p < length l)%nat -> exists prev, index_before l p = Ok prev.
Proof.
  intros H. destruct p as [|j]; cbn.
  - destruct (snoc_cases l) as [->|(l' & x & ->)]; [cbn in H; lia|].
    rewrite index_m1_snoc. now eexists.
  - unfold index. destruct (nth_error l j) eqn:E; [now eexists|].
    apply nth_error_None in E. lia.
Qed.

Lemma later_have_separator {A} (f : nat * A -> bool) (l : list A) :
  (forall pl, (0 < fst pl)%nat -> f pl = true) ->
  forall k, (0 < k)%nat -> length (filter f (combine (seq k (length l)) l)) = length l.
Proof.
  intros H. induction l as [|a l IH]; intros k K; [reflexivity|].
  cbn [length seq combine filter]. rewrite (H (k, a)) by exact K.
  cbn [length]. f_equal. apply IH. lia.
Qed.

(** X25: the loop of [reformat_ffile] that remembers the ampersands at
    the start of the lines raises the parse error for a bad continuation
    exactly when some line of the statement starts with an ampersand
    while the line before it (for the first line: the last line) does
    not end with one.  Otherwise it remembers one leading ampersand,
    possibly empty, per line, and one separator width per line, the
    first line excepted unless it starts with an ampersand. *)
Theorem ampersands_outcome (lines : list str) :
  if existsb (bad_continuation_at lines) (enumerate lines)
  then ampersands lines = Raise bad_continuation
  else exists pre_ampersand ampersand_sep,
      ampersands lines = Ok (pre_ampersand, ampersand_sep)
      /\ length pre_ampersand = length lines
      /\ length ampersand_sep
         = (length lines - (if search PRE_AMP_RE (hd [] lines) then 0 else 1))%nat.
Proof.
  unfold ampersands.
  match goal with
  | |- context [fold_left ?f _ _] => set (step := f)
  end.
  assert (R : forall el e, fold_left step el (Raise e) = Raise e).
  { induction el as [|[pos line] el IH]; intros e; [reflexivity|]. cbn. apply IH. }
  assert (G : forall el pre seps,
             (forall p l, In (p, l) el -> (p < length lines)%nat) ->
             if existsb (bad_continuation_at lines) el
             then fold_left step el (Ok (pre, seps)) = Raise bad_continuation
             else exists pre' seps',
                 fold_left step el (Ok (pre, seps)) = Ok (pre ++ pre', seps ++ seps')
                 /\ length pre' = length el
                 /\ length seps' = length (filter has_separator el)).
  { induction el as [|[pos line] el IH]; intros pre seps V.
    - cbn. exists [], []. rewrite !app_nil_r. repeat split.
    - cbn [existsb fold_left filter].
      unfold bad_continuation_at at 1, has_separator at 1. cbn [fst snd].
      unfold search at 1 3.
      destruct (index_before_ok lines pos (V pos line (or_introl eq_refl)))
        as (prev & P).
      assert (V' : forall p l, In (p, l) el -> (p < length lines)%nat)
        by (intros p l H; apply (V p l); now right).
      assert (St : step (Ok (pre, seps)) (pos, line)
                   = match search_m PRE_AMP_RE line with
                     | Some m =>
                         match search_m AMP_SEP_RE prev with
                         | Some m' => Ok (pre ++ [group line m 1],
                                          seps ++ [len (group prev m' 1)])
                         | None => Raise bad_continuation
                         end
                     | None => Ok (pre ++ [[]],
                                   if Nat.ltb 0 pos then seps ++ [1] else seps)
                     end)
        by (unfold step; rewrite P; reflexivity).
      rewrite St, P. clear St.
      destruct (search_m PRE_AMP_RE line) as [m|] eqn:Em; cbn [is_some andb orb].
      + unfold search. destruct (search_m AMP_SEP_RE prev) as [m'|] eqn:Es;
          cbn [is_some negb orb].
        * specialize (IH (pre ++ [group line m 1]) (seps ++ [len (group prev m' 1)]) V').
          destruct (existsb (bad_continuation_at lines) el); [exact IH|].
          destruct IH as (pre' & seps' & E & L1 & L2).
          exists (group line m 1 :: pre'), (len (group prev m' 1) :: seps').
          rewrite E, <- !app_assoc. cbn [app length]. repeat split; congruence.
        * apply R.
      + specialize (IH (pre ++ [[]])
                       (if Nat.ltb 0 pos then seps ++ [1] else seps) V').
        destruct (existsb (bad_continuation_at lines) el); [exact IH|].
        destruct IH as (pre' & seps' & E & L1 & L2).
        destruct (Nat.ltb 0 pos).
        * exists ([] :: pre'), (1 :: seps').
          rewrite E, <- !app_assoc. cbn [app length]. repeat split; congruence.
        * exists ([] :: pre'), seps'.
          rewrite E, <- !app_assoc. cbn [app length]. repeat split; congruence. }
  specialize (G (enumerate lines) [] [] (enumerate_positions lines)).
  destruct (existsb (bad_continuation_at lines) (enumerate lines)); [exact G|].
  destruct G as (pre' & seps' & E & L1 & L2).
  exists pre', seps'. split; [exact E|]. split.
  - rewrite L1. unfold enumerate. rewrite length_combine, length_seq. apply Nat.min_id.
  - rewrite L2. unfold enumerate. destruct lines as [|l0 lines]; [reflexivity|].
    cbn [length seq combine filter hd]. unfold has_separator at 1. cbn [fst snd].
    assert (Q : length (filter has_separator (combine (seq 1 (length lines)) lines))
                = length lines).
    { apply later_have_separator; [|lia].
      intros [p l] H. unfold has_separator. cbn [fst] in *.
      assert (T : Nat.ltb 0 p = true) by (apply Nat.ltb_lt; exact H).
      rewrite T. apply orb_true_r. }
    destruct (search PRE_AMP_RE l0); cbn [orb Nat.ltb Nat.leb length]; rewrite Q; lia.
Qed.

(* ================================================================= *)
(** ** What the token formatter may change *)

Lemma run_blank (t : str) :
  (run is_blank t <= length t)%nat /\ squeeze (firstn (run is_blank t) t) = [].
Proof.
  induction t as [|c t [IH1 IH2]]; cbn [run]; [split; [cbn; lia|reflexivity]|].
  destruct (is_blank c) eqn:E.
  - split; [cbn; lia|]. cbn [firstn squeeze filter]. rewrite E. exact IH2.
  - split; [cbn; lia|reflexivity].
Qed.

Lemma firstn_add {A} (s : list A) :
  forall p n, firstn (p + n) s = firstn p s ++ firstn n (skipn p s).
Proof.
  induction s as [|a s IH]; intros p n.
  - now rewrite !firstn_nil, skipn_nil, firstn_nil.
  - destruct p as [|p]; [reflexivity|]. cbn. now rewrite IH.
Qed.

Lemma firstn_snoc_nth {A} (s : list A) :
  forall p a, nth_error s p = Some a -> firstn (S p) s = firstn p s ++ [a].
Proof.
  induction s as [|b s IH]; intros p a H; [destruct p; discriminate H|].
  destruct p as [|p]; [cbn in H; now injection H as <-|].
  cbn [nth_error] in H. cbn [firstn app]. f_equal. now apply IH.
Qed.

Lemma squeeze_app (a b : str) : squeeze (a ++ b) = squeeze a ++ squeeze b.
Proof. apply filter_app. Qed.

Lemma skip_blanks_step (s : str) (p : nat) (a : ascii) :
  nth_error s p = Some a ->
  squeeze (firstn (skip_blanks s (S p)) s) = squeeze (firstn p s) ++ squeeze [a]
  /\ (p < skip_blanks s (S p) <= length s)%nat.
Proof.
  intros H. unfold skip_blanks.
  destruct (run_blank (skipn (S p) s)) as [B1 B2].
  assert (L : (p < length s)%nat) by (apply nth_error_Some; congruence).
  split.
  - rewrite firstn_add, squeeze_app, B2, app_nil_r.
    rewrite (firstn_snoc_nth s p a H). apply squeeze_app.
  - rewrite length_skipn in B1. lia.
Qed.

Lemma squeeze_prefix (s : str) (p : nat) :
  exists t, squeeze s = squeeze (firstn p s) ++ t.
Proof.
  exists (squeeze (skipn p s)). now rewrite <- squeeze_app, firstn_skipn.
Qed.

(** The loop that shifts the line break positions compares the two lines
    character by character, blanks apart, until one of them ends. *)
Lemma shift_loop_compares (line line_orig : str) :
  forall fuel pos_new pos_old linebreak_pos acc l,
    ((length line - pos_new) + (length line_orig - pos_old) + length linebreak_pos
     < fuel)%nat ->
    squeeze (firstn pos_new line) = squeeze (firstn pos_old line_orig) ->
    shift_loop fuel line line_orig pos_new pos_old linebreak_pos acc = Ok l ->
    prefix_related (squeeze line) (squeeze line_orig).
Proof.
  induction fuel as [|fuel IH]; intros pn po lbp acc l Fu I H; [lia|].
  cbn [shift_loop] in H.
  destruct (nth_error line pn) as [a|] eqn:Ea.
  - destruct (nth_error line_orig po) as [b|] eqn:Eb.
    + destruct (ch_eqb a b) eqn:E; cbn [negb] in H; [|discriminate H].
      cbv zeta in H.
      assert (La : (pn < length line)%nat) by (apply nth_error_Some; congruence).
      assert (Lb : (po < length line_orig)%nat)
        by (apply nth_error_Some; congruence).
      assert (C : forall r,
                 (if same_object a b
                  then shift_loop fuel line line_orig (skip_blanks line (S pn))
                                  (skip_blanks line_orig (S po)) lbp acc
                  else if is_blank a
                       then shift_loop fuel line line_orig (S pn) po lbp acc
                       else if is_blank b
                            then shift_loop fuel line line_orig pn (S po) lbp acc
                            else Raise failed_break) = Ok r ->
                 prefix_related (squeeze line) (squeeze line_orig)).
      { intros r G. destruct (same_object a b).
        - unfold ch_eqb in E. apply Ascii.eqb_eq in E. subst b.
          destruct (skip_blanks_step line pn a Ea) as [Sa Ba].
          destruct (skip_blanks_step line_orig po a Eb) as [Sb Bb].
          eapply (IH _ _ lbp); [|rewrite Sa, Sb, I; reflexivity|exact G]. lia.
        - destruct (is_blank a) eqn:Xa.
          + eapply (IH _ _ lbp); [| |exact G]; [lia|].
            rewrite (firstn_snoc_nth line pn a Ea), squeeze_app.
            cbn [squeeze filter]. rewrite Xa. cbn [negb]. now rewrite app_nil_r.
          + destruct (is_blank b) eqn:Xb; [|discriminate G].
            eapply (IH _ _ lbp); [| |exact G]; [lia|].
            rewrite (firstn_snoc_nth line_orig po b Eb), squeeze_app.
            cbn [squeeze filter]. rewrite Xb. cbn [negb]. now rewrite app_nil_r. }
      destruct (pop_last lbp) as [[lb rest]|e] eqn:P; [|exact (C _ H)].
      apply pop_last_length in P.
      destruct (lb <? Z.of_nat po); [|exact (C _ H)].
      eapply (IH pn po rest); [lia|exact I|exact H].
    + apply nth_error_None in Eb.
      rewrite (firstn_all2 line_orig Eb) in I.
      destruct (squeeze_prefix line pn) as (t & T).
      exists t. right. now rewrite T, I.
  - apply nth_error_None in Ea.
    rewrite (firstn_all2 line Ea) in I.
    destruct (squeeze_prefix line_orig po) as (t & T).
    exists t. left. now rewrite T, I.
Qed.

Lemma shift_loop_no_breaks (line line_orig : str) :
  forall fuel pos_new pos_old acc l,
    shift_loop fuel line line_orig pos_new pos_old [] acc = Ok l -> l = acc.
Proof.
  induction fuel as [|fuel IH]; intros pn po acc l H.
  - now injection H as <-.
  - cbn [shift_loop] in H.
    destruct (nth_error line pn) as [a|]; [|now injection H as <-].
    destruct (nth_error line_orig po) as [b|]; [|now injection H as <-].
    destruct (negb (ch_eqb a b)); [discriminate H|].
    rewrite pop_last_nil in H. cbv zeta in H.
    destruct (same_object a b); [exact (IH _ _ _ _ H)|].
    destruct (is_blank a); [exact (IH _ _ _ _ H)|].
    destruct (is_blank b); [exact (IH _ _ _ _ H)|discriminate H].
Qed.

(** X27: what [format_single_fline] returns never differs from the
    statement in a character that is no blank.  When the call returns
    for a statement without line break positions, it returns one line,
    and this line and the statement, both taken without their blanks,
    agree up to the end of the shorter of the two: before that point no
    other character is changed, added, dropped or moved.  Text can be
    missing at the end; the comment of [x = 1 ! note] is. *)
Theorem returned_line_agrees_with_statement (f_line : str) (whitespace : Z)
        (ampersand_sep : list Z) (auto_format : bool) (s : unit)
        (lines : list str) :
  out (format_single_fline f_line whitespace [] ampersand_sep auto_format s)
  = Ok lines ->
  exists line,
    lines = [line] /\ prefix_related (squeeze line) (squeeze f_line).
Proof.
  unfold format_single_fline. cbv zeta. intros H.
  apply bind_out_ok in H. destruct H as (spacey & _ & H).
  apply bind_out_ok in H. destruct H as (v & _ & H).
  apply bind_out_ok in H. destruct H as (line_ftd & _ & H).
  apply bind_out_ok in H. destruct H as (line_parts & _ & H).
  apply bind_out_ok in H. destruct H as (ftd & F & H).
  apply bind_out_ok in H. destruct H as (lines_out & B & H).
  apply bind_out_ok in H. destruct H as (u & _ & H).
  cbn in H. injection H as <-.
  cbn [lift out] in F, B.
  match type of F with
  | shift_linebreaks ?l _ _ = _ => set (line := l) in *
  end.
  exists line.
  unfold shift_linebreaks in F. cbn [sort_desc fold_right length] in F.
  destruct (shift_loop _ line f_line 0 0 [] []) as [l|e] eqn:E; [|discriminate F].
  injection F as <-.
  pose proof (shift_loop_no_breaks _ _ _ _ _ _ _ E) as ->.
  split.
  - cbn in B. now injection B as <-.
  - refine (shift_loop_compares line f_line _ 0%nat 0%nat [] [] [] _ eq_refl E).
    cbn [length]. lia.
Qed.

(* ================================================================= *)
(** ** The further properties at concrete inputs *)

(** X2 at the header [if (a > b) then] met at the top of a file. *)
Lemma opening_line_pushes_one_frame_witness :
  new_matches (s_ "if (a > b) then") <> []
  /\ (let r := process_lines_of_fline not_a_declaration (s_ "if (a > b) then")
                                     [line_of "if (a > b) then"] 3 3 1 []
                                     F90Indenter_init in
      out r = Ok tt
      /\ scope_storage (post r) = [0%nat]
      /\ indent_storage (post r) = [0; 3]
      /\ line_indents (post r) = [0]).
Proof.
  assert (H : new_matches (s_ "if (a > b) then") <> [])
    by (vm_compute; discriminate).
  split; [exact H|].
  destruct (opening_line_pushes_one_frame
              not_a_declaration (s_ "if (a > b) then")
              [line_of "if (a > b) then"] 3 3 1 [] F90Indenter_init [] 0
              H eq_refl ltac:(vm_compute; reflexivity)) as (A & B & C & D).
  cbv zeta. split; [exact A|]. split; [rewrite B; vm_compute; reflexivity|].
  split; [exact C|]. rewrite D. vm_compute. reflexivity.
Defined.

(** X3 at the statement [x = 1] inside a conditional. *)
Lemma plain_line_takes_the_top_frame_witness :
  new_matches (s_ "x = 1") = [] /\ con_matches (s_ "x = 1") = []
  /\ end_matches (s_ "x = 1") = []
  /\ (let r := process_lines_of_fline not_a_declaration (s_ "x = 1")
                                     [line_of "x = 1"] 3 3 1 [] in_conditional in
      out r = Ok tt /\ line_indents (post r) = [3]).
Proof.
  assert (H1 : new_matches (s_ "x = 1") = []) by (vm_compute; reflexivity).
  assert (H2 : con_matches (s_ "x = 1") = []) by (vm_compute; reflexivity).
  assert (H3 : end_matches (s_ "x = 1") = []) by (vm_compute; reflexivity).
  split; [exact H1|]. split; [exact H2|]. split; [exact H3|].
  destruct (plain_line_takes_the_top_frame
              not_a_declaration (s_ "x = 1") [line_of "x = 1"] 3 3 1 []
              in_conditional [0] 3 H1 H2 H3 eq_refl
              ltac:(vm_compute; reflexivity)) as (A & _ & _ & D).
  cbv zeta. split; [exact A|]. rewrite D. vm_compute. reflexivity.
Defined.

(** X4 at [if (a > b) then] and [end if], met at the top of a file. *)
Lemma block_closes_where_it_opened_witness :
  let s := F90Indenter_init in
  let ra := process_lines_of_fline not_a_declaration (s_ "if (a > b) then")
                                   [line_of "if (a > b) then"] 3 3 1 [] s in
  let rb := process_lines_of_fline not_a_declaration (s_ "end if")
                                   [line_of "end if"] 3 3 2 [] (post ra) in
  new_matches (s_ "if (a > b) then") = [0%nat]
  /\ In 0%nat (end_matches (s_ "end if"))
  /\ out rb = Ok tt
  /\ scope_storage (post rb) = scope_storage s
  /\ indent_storage (post rb) = indent_storage s.
Proof.
  cbv zeta.
  assert (H1 : new_matches (s_ "if (a > b) then") = [0%nat])
    by (vm_compute; reflexivity).
  assert (H2 : In 0%nat (end_matches (s_ "end if")))
    by (vm_compute; left; reflexivity).
  split; [exact H1|]. split; [exact H2|].
  destruct (block_closes_where_it_opened
              not_a_declaration
              (s_ "if (a > b) then") [line_of "if (a > b) then"] 3 3 1 []
              (s_ "end if") [line_of "end if"] 3 3 2 []
              F90Indenter_init
              (post (process_lines_of_fline
                       not_a_declaration (s_ "if (a > b) then")
                       [line_of "if (a > b) then"] 3 3 1 [] F90Indenter_init))
              0%nat [] 0 H1
              ltac:(vm_compute; reflexivity)
              ltac:(vm_compute; reflexivity) H2 eq_refl
              ltac:(vm_compute; reflexivity) eq_refl eq_refl
              ltac:(vm_compute; reflexivity)) as (_ & B & C & D & _).
  split; [exact B|]. split; [exact C|exact D].
Defined.

(** X1 at an [end do] met inside a conditional: the record of the invalid
    end is sent, none of an invalid new statement. *)
Lemma tracker_never_reports_invalid_new_witness :
  let r := process_lines_of_fline not_a_declaration (s_ "end do")
                                  [line_of "end do"] 3 3 1 [] in_conditional in
  In invalid_end (emitted r) /\ ~ In invalid_new (emitted r).
Proof.
  cbv zeta. split; [vm_compute; tauto|].
  exact (proj1 (proj2 (tracker_never_reports_invalid_new
                         not_a_declaration (s_ "end do") [line_of "end do"]
                         3 3 1 [] in_conditional))).
Defined.

(** X5 at a statement of two fragments whose scan fails (two assignment
    operators on the first fragment). *)
Lemma one_indent_per_fragment_witness :
  let r := process_lines_of_fline not_a_declaration (s_ "a = b = c + d")
                                  [line_of "a = b = c &"; line_of "+ d"]
                                  3 3 1 [] F90Indenter_init in
  out r = Raise more_than_one_assignment
  /\ length (get_lines_indent (post r)) = 2%nat.
Proof.
  cbv zeta. split; [vm_compute; reflexivity|].
  exact (one_indent_per_fragment
           not_a_declaration (s_ "a = b = c + d")
           [line_of "a = b = c &"; line_of "+ d"] 3 3 1 [] F90Indenter_init).
Defined.

(** X6 at the declaration [public :: a = 1, b = 2], which holds two
    equals signs. *)
Lemma declaration_alignment_never_fails_witness :
  (not_a_declaration (s_ "public :: a = 1, b = 2")
   || matches PUBLIC_RE (s_ "public :: a = 1, b = 2"))%bool = true
  /\ out (aligner_process_lines_of_fline
            not_a_declaration (s_ "public :: a = 1, b = 2")
            [line_of "public :: a = 1, &"; line_of "b = 2"] 3 1 (init_line 0))
     = Ok tt.
Proof.
  assert (H : (not_a_declaration (s_ "public :: a = 1, b = 2")
               || matches PUBLIC_RE (s_ "public :: a = 1, b = 2"))%bool = true)
    by (vm_compute; reflexivity).
  split; [exact H|].
  exact (declaration_alignment_never_fails
           not_a_declaration (s_ "public :: a = 1, b = 2")
           [line_of "public :: a = 1, &"; line_of "b = 2"] 3 1 (init_line 0) H).
Defined.

(** X7 at the fragment [flag = a==b]: the first sign of the [==] follows
    a name directly and is counted, so the fragment has two assignment
    operators and the scan raises. *)
Lemma fragment_scan_outcome_witness :
  aligned (init_line 1)
  /\ top_level_assignments (s_ "flag = a==b") 0 = [5%nat; 8%nat]
  /\ top_level_assignments (s_ "flag = a == b") 0 = [5%nat]
  /\ out (align_line_continuations (s_ "flag = a==b") false 3 1 (init_line 1))
     = Raise more_than_one_assignment.
Proof.
  assert (A : aligned (init_line 1)).
  { exists 0, []. cbn. split; [reflexivity|lia]. }
  split; [exact A|].
  split; [vm_compute; reflexivity|]. split; [vm_compute; reflexivity|].
  rewrite (fragment_scan_outcome (s_ "flag = a==b") 3 1 (init_line 1) A).
  vm_compute. reflexivity.
Defined.

(** X8 at a call broken after an opening parenthesis. *)
Lemma aligner_offsets_per_fragment_witness :
  let r := aligner_process_lines_of_fline
             not_a_declaration (s_ "call foo(a, b)")
             [line_of "call foo(a, &"; line_of "b)"] 3 1 (init_line 0) in
  out r = Ok tt
  /\ aligner_get_lines_indent (post r) = [0; 9]
  /\ length (aligner_get_lines_indent (post r)) = Nat.max 1 2.
Proof.
  cbv zeta.
  assert (O : out (aligner_process_lines_of_fline
                     not_a_declaration (s_ "call foo(a, b)")
                     [line_of "call foo(a, &"; line_of "b)"] 3 1 (init_line 0))
              = Ok tt) by (vm_compute; reflexivity).
  split; [exact O|]. split; [vm_compute; reflexivity|].
  exact (proj2 (aligner_offsets_per_fragment
                  not_a_declaration (s_ "call foo(a, b)")
                  [line_of "call foo(a, &"; line_of "b)"] 3 1 (init_line 0) O)).
Defined.

(** X9 at two fragments with the override offsets 7 and 4, and with the
    single override offset 7. *)
Lemma override_offsets_witness :
  [7; 4] <> []
  /\ line_indents
       (post (deal_with_line_breaks
                not_a_declaration (s_ "call foo(a, b)")
                [line_of "call foo(a, &"; line_of "b)"] 3 1 [7; 4]
                (set_line_indents (repeat 0 2) F90Indenter_init)))
     = [0; 4]
  /\ out (process_lines_of_fline
            not_a_declaration (s_ "call foo(a, b)")
            [line_of "call foo(a, &"; line_of "b)"] 3 3 1 [7] F90Indenter_init)
     = Raise IndexError.
Proof.
  assert (H : [7; 4] <> []) by discriminate.
  split; [exact H|]. split; [vm_compute; reflexivity|].
  refine (proj2 (proj2 (override_offsets
                          not_a_declaration (s_ "call foo(a, b)")
                          [line_of "call foo(a, &"; line_of "b)"] 3 3 1 [7]
                          F90Indenter_init _) _)).
  - discriminate.
  - cbn. lia.
Defined.

(** X10 at a call broken after an opening parenthesis. *)
Lemma line_breaks_follow_the_aligner_witness :
  let lines := [line_of "call foo(a, &"; line_of "b)"] in
  let ra := aligner_process_lines_of_fline
              not_a_declaration (s_ "call foo(a, b)") lines 3 1
              (aligner F90Indenter_init) in
  let r1 := deal_with_line_breaks
              not_a_declaration (s_ "call foo(a, b)") lines 3 1 []
              (set_line_indents (repeat 0 (length lines)) F90Indenter_init) in
  out ra = Ok tt /\ out r1 = Ok tt
  /\ nth_error (line_indents (post r1)) 1
     = nth_error (aligner_get_lines_indent (post ra)) 1.
Proof.
  cbv zeta.
  destruct (line_breaks_follow_the_aligner
              not_a_declaration (s_ "call foo(a, b)")
              [line_of "call foo(a, &"; line_of "b)"] 3 1 F90Indenter_init)
    as (A & _ & C).
  assert (O : out (aligner_process_lines_of_fline
                     not_a_declaration (s_ "call foo(a, b)")
                     [line_of "call foo(a, &"; line_of "b)"] 3 1
                     (aligner F90Indenter_init)) = Ok tt)
    by (vm_compute; reflexivity).
  split; [exact O|]. split; [rewrite <- O; exact A|].
  apply (C O 1%nat). cbn. lia.
Defined.

(** X11 at the nested conditional of [nested_file], which starts in the
    column of the statement before it. *)
Lemma imposed_steps_witness :
  0 < 3
  /\ nth_error (until_eof nested_file) 2
     = Some (plain_statement (indented 4 "if (b) then") 3)
  /\ nth_error (fst (fst (inspect_ffile_format nested_file 3))) 2 = Some 0.
Proof.
  assert (H1 : 0 < 3) by lia.
  assert (H2 : nth_error (until_eof nested_file) 2
               = Some (plain_statement (indented 4 "if (b) then") 3))
    by reflexivity.
  split; [exact H1|]. split; [exact H2|].
  rewrite (imposed_steps nested_file 3 2 _ H1 H2). vm_compute. reflexivity.
Defined.

(** X12 at [nested_file]: the steps add up to the column of the last
    statement. *)
Lemma adopted_steps_witness :
  0 <= 0
  /\ fold_right Z.add 0 (fst (fst (inspect_ffile_format nested_file 0))) = 2.
Proof.
  assert (H : 0 <= 0) by lia.
  split; [exact H|].
  rewrite (proj2 (adopted_steps nested_file 0 H)). vm_compute. reflexivity.
Defined.

(** X13 at [nested_file]. *)
Lemma first_indent_is_first_text_witness :
  snd (fst (inspect_ffile_format nested_file 3)) = 2.
Proof.
  rewrite (first_indent_is_first_text nested_file 3). vm_compute. reflexivity.
Defined.

(** X14 at [labelled_file]. *)
Lemma f77_file_is_rejected_witness :
  reformat_ffile no_match no_match no_match nothing_substituted no_match
                 nothing_substituted labelled_file 3 2 pipeline_init
  = mk_result (Raise f77_error) pipeline_init [].
Proof.
  rewrite (f77_file_is_rejected no_match no_match no_match nothing_substituted
             no_match nothing_substituted labelled_file 3 2 pipeline_init).
  assert (E : existsb f77_statement (until_eof labelled_file) = true)
    by (vm_compute; reflexivity).
  rewrite E. reflexivity.
Defined.

(** X15 at the closing line of a conditional. *)
Lemma indent_stack_keeps_its_base_witness :
  [line_of "end if"] <> []
  /\ indent_storage in_conditional = [0; 3]
  /\ exists top,
      get_fline_indent
        (post (process_lines_of_fline not_a_declaration (s_ "end if")
                                      [line_of "end if"] 3 3 1 [] in_conditional))
      = Ok top.
Proof.
  assert (H1 : [line_of "end if"] <> []) by discriminate.
  split; [exact H1|]. split; [reflexivity|].
  exact (proj2 (indent_stack_keeps_its_base
                  not_a_declaration (s_ "end if") [line_of "end if"] 3 3 1 []
                  in_conditional 0 [3] H1 eq_refl)).
Defined.

(** X16 at the closing line of a conditional. *)
Lemma at_most_one_scope_closes_witness :
  end_matches (s_ "end if") <> [] /\ con_matches (s_ "end if") = [].
Proof.
  assert (H : end_matches (s_ "end if") <> []) by (vm_compute; discriminate).
  split; [exact H|].
  exact (proj1 (proj2 (at_most_one_scope_closes
                         not_a_declaration (s_ "end if") [line_of "end if"]
                         3 3 1 [] in_conditional)) H).
Defined.

(** X17 at the whitespace level 3. *)
Lemma formatter_errors_witness :
  ~ supported 3
  /\ format_single_fline (s_ "x=1") 3 [] [] true tt
     = mk_result (Raise unknown_whitespace) tt [].
Proof.
  assert (H : ~ supported 3) by (intros [H|[H|H]]; discriminate H).
  split; [exact H|].
  exact (proj1 (formatter_errors (s_ "x=1") 3 [] [] true) H tt).
Defined.

(** X18 at the statement [x=1]. *)
Lemma formatter_returns_lines_witness :
  out (format_single_fline (s_ "x=1") 2 [] [] true tt) = Ok [s_ "x = 1"]
  /\ [s_ "x = 1"] <> [] /\ (length [s_ "x = 1"] <= 1)%nat.
Proof.
  assert (H : out (format_single_fline (s_ "x=1") 2 [] [] true tt)
              = Ok [s_ "x = 1"]) by (vm_compute; reflexivity).
  split; [exact H|].
  exact (formatter_returns_lines (s_ "x=1") 2 [] [] true tt _ H).
Defined.

(** X19 at the statement [x=1]. *)
Lemma manual_statement_is_kept_witness :
  supported 2
  /\ (out (format_single_fline (s_ "x=1") 2 [] [] false tt) = Ok [s_ "x=1"]
      \/ out (format_single_fline (s_ "x=1") 2 [] [] false tt) = Raise IndexError).
Proof.
  assert (H : supported 2) by (right; right; reflexivity).
  split; [exact H|].
  exact (proj2 (manual_statement_is_kept (s_ "x=1") 2 [] [] tt H)).
Defined.

(** X20 at a USE statement after three blanks. *)
Lemma use_statement_is_copied_witness :
  let fl := plain_statement (indented 3 "use mod_a") 1 in
  use_line (fl_f_line fl) = true
  /\ no_match (fl_f_line fl) = false
  /\ Forall no_directive (fl_lines fl)
  /\ use_same_line pipeline_init = false
  /\ outfile (post (reformat_fline no_match use_line no_match nothing_substituted
                                   no_match nothing_substituted [] 0 3 2 fl
                                   pipeline_init))
     = [indented 3 "use mod_a"].
Proof.
  intros fl.
  assert (H1 : use_line (fl_f_line fl) = true) by (vm_compute; reflexivity).
  assert (H3 : Forall no_directive (fl_lines fl)).
  { constructor; [|constructor]. split; vm_compute; reflexivity. }
  split; [exact H1|]. split; [reflexivity|]. split; [exact H3|].
  split; [reflexivity|].
  rewrite (proj1 (proj2 (use_statement_is_copied
                           no_match use_line no_match nothing_substituted no_match
                           nothing_substituted [] 0 3 2 fl pipeline_init
                           H1 eq_refl H3 eq_refl))).
  vm_compute. reflexivity.
Defined.

(** X21 at a preprocessor line. *)
Lemma preprocessor_line_is_copied_witness :
  let fl := plain_statement (line_of "#ifdef DEBUG") 1 in
  startswith (line_of "#ifdef DEBUG") (s_ "#") = true
  /\ outfile (post (reformat_fline no_match no_match no_match nothing_substituted
                                   no_match nothing_substituted [] 0 3 2 fl
                                   pipeline_init))
     = [line_of "#ifdef DEBUG"].
Proof.
  intros fl.
  assert (H : startswith (line_of "#ifdef DEBUG") (s_ "#") = true) by reflexivity.
  split; [exact H|].
  rewrite (proj2 (preprocessor_line_is_copied
                    no_match no_match no_match nothing_substituted no_match
                    nothing_substituted [] 0 3 2 fl (line_of "#ifdef DEBUG")
                    pipeline_init eq_refl H eq_refl eq_refl eq_refl eq_refl)).
  vm_compute. reflexivity.
Defined.

(** X22 at a preprocessor statement of two lines. *)
Lemma continuation_outside_code_is_fatal_witness :
  let fl := mk_fline (s_ "#define A b") [[]; []]
                     [line_of "#define A"; line_of "b"] 1 in
  length (fl_lines fl) <> 1%nat
  /\ reformat_fline no_match no_match no_match nothing_substituted no_match
                    nothing_substituted [] 0 3 2 fl pipeline_init
     = mk_result (Raise preprocessor_continuation) (set_nfl 1 pipeline_init) [].
Proof.
  intros fl.
  assert (H : length (fl_lines fl) <> 1%nat) by discriminate.
  split; [exact H|].
  exact (proj1 (continuation_outside_code_is_fatal
                  no_match no_match no_match nothing_substituted no_match
                  nothing_substituted [] 0 3 2 fl pipeline_init
                  H eq_refl eq_refl eq_refl) eq_refl).
Defined.

(** X23 at a blank statement after a blank statement. *)
Lemma blank_lines_collapse_witness :
  strip [nl] = []
  /\ search EMPTY_RE (fl_f_line blank_statement) = true
  /\ reformat_fline no_match no_match no_match nothing_substituted no_match
                    nothing_substituted [] 0 3 2 blank_statement after_blank
     = mk_result (Ok tt) (set_nfl 1 after_blank) [].
Proof.
  assert (H1 : strip [nl] = []) by reflexivity.
  assert (H2 : search EMPTY_RE (fl_f_line blank_statement) = true)
    by (vm_compute; reflexivity).
  split; [exact H1|]. split; [exact H2|].
  exact (blank_lines_collapse
           no_match no_match no_match nothing_substituted no_match
           nothing_substituted [] 0 3 2 blank_statement [nl] after_blank
           eq_refl H1 H2 eq_refl eq_refl eq_refl eq_refl).
Defined.

(** X24 at a comment in column 0. *)
Lemma comment_line_indent_witness :
  let fl := comment_statement "! note" in
  no_directive (line_of "! note")
  /\ search EMPTY_RE (fl_f_line fl) = true
  /\ outfile (post (reformat_fline no_match no_match no_match nothing_substituted
                                   no_match nothing_substituted [] 0 3 2 fl
                                   pipeline_init))
     = [line_of "! note"].
Proof.
  intros fl.
  assert (H1 : no_directive (line_of "! note")) by (split; vm_compute; reflexivity).
  assert (H2 : search EMPTY_RE (fl_f_line fl) = true) by (vm_compute; reflexivity).
  split; [exact H1|]. split; [exact H2|].
  rewrite (proj2 (proj1 (comment_line_indent
                           no_match no_match no_match nothing_substituted no_match
                           nothing_substituted [] 0 3 2 fl (line_of "! note")
                           pipeline_init eq_refl H1 eq_refl H2 eq_refl eq_refl
                           eq_refl eq_refl) eq_refl eq_refl)).
  vm_compute. reflexivity.
Defined.

(** X25 at a line that starts with an ampersand after a line that does
    not end with one. *)
Lemma ampersands_outcome_witness :
  ampersands [line_of "x = 1"; line_of "  & + 2"] = Raise bad_continuation.
Proof.
  pose proof (ampersands_outcome [line_of "x = 1"; line_of "  & + 2"]) as H.
  assert (E : existsb (bad_continuation_at [line_of "x = 1"; line_of "  & + 2"])
                      (enumerate [line_of "x = 1"; line_of "  & + 2"]) = true)
    by (vm_compute; reflexivity).
  rewrite E in H. exact H.
Defined.

(** X26 at a closing directive outside a manual block, which raises. *)
Lemma statement_is_written_whole_or_not_witness :
  let r := reformat_fline no_match no_match no_match nothing_substituted no_match
                          nothing_substituted [] 0 3 2 (comment_statement "!&>")
                          pipeline_init in
  out r = Raise directive_error /\ outfile (post r) = outfile pipeline_init.
Proof.
  intros r.
  assert (H : out r = Raise directive_error) by (vm_compute; reflexivity).
  split; [exact H|].
  destruct (statement_is_written_whole_or_not
              no_match no_match no_match nothing_substituted no_match
              nothing_substituted [] 0 3 2 (comment_statement "!&>")
              pipeline_init) as (written & E & _ & R).
  fold r in E, R. rewrite E, (R _ H). apply app_nil_r.
Defined.

(** X27 at the statement [x = 1 ! note], which comes back without its
    comment. *)
Lemma returned_line_agrees_with_statement_witness :
  out (format_single_fline (s_ "x = 1 ! note") 2 [] [] true tt) = Ok [s_ "x = 1 "]
  /\ exists line,
      [s_ "x = 1 "] = [line]
      /\ prefix_related (squeeze line) (squeeze (s_ "x = 1 ! note")).
Proof.
  assert (H : out (format_single_fline (s_ "x = 1 ! note") 2 [] [] true tt)
              = Ok [s_ "x = 1 "]) by (vm_compute; reflexivity).
  split; [exact H|].
  exact (returned_line_agrees_with_statement (s_ "x = 1 ! note") 2 [] true tt _ H).
Defined.
